(** * AgentDoc task queue: priority scheduling, cancel/retry and worker execution

    A shallow embedding of [agentdoc/queue/base.py], [queue/manager.py] and
    [agentdoc/queue/worker.py], together with Python's [heapq] (the binary
    heap the queue manager keeps its pending tasks in).

    Python objects that are shared and mutated in place ([Task] instances are
    referenced from the registry, from the heap and from the worker that runs
    them) live in an object store [objs]; the registry, the heap and the
    workers hold addresses into it.  The worker objects live in a store of
    their own, which a [WorkerPool] refers to by address.  Clock readings ([datetime.now()]) and
    generated identifiers ([uuid.uuid4()]) are arguments of the operation
    that takes them. *)

From stdpp Require Import gmap strings list pretty.
From Stdlib Require Import ZArith Lia ZifyNat.

Local Open Scope Z_scope.

(** ** Python values, callables and exceptions *)

Inductive pyval :=
| PyNone
| PyBool (b : bool)
| PyInt (z : Z)
| PyStr (s : string).

(** An exception instance: whether it is an instance of [Exception] (as
    opposed to a bare [BaseException] such as [SystemExit]) and [str(e)]. *)
Record pyexc := { isinstance_Exception : bool; str : string }.

Inductive call_result :=
| Returns (v : pyval)
| Raises (e : pyexc).

(** What can be passed as [func]: a callable, given by what a call with
    positional and keyword arguments does, or any other value. *)
Inductive pyobj :=
| Function (f : list pyval → gmap string pyval → call_result)
| Value (v : pyval).

Definition callable (o : pyobj) : bool :=
  match o with Function _ => true | Value _ => false end.

Definition type_name (v : pyval) : string :=
  match v with
  | PyNone => "NoneType"
  | PyBool _ => "bool"
  | PyInt _ => "int"
  | PyStr _ => "str"
  end.

(** Calling [o] with [args] and [kwargs]; calling a non-callable raises
    [TypeError]. *)
Definition call (o : pyobj) (args : list pyval) (kwargs : gmap string pyval)
  : call_result :=
  match o with
  | Function f => f args kwargs
  | Value v =>
      Raises {| isinstance_Exception := true;
                str := "'" +:+ type_name v +:+ "' object is not callable" |}
  end.

(** The exceptions the queue code raises itself. *)
Inductive QueueError_msg :=
| queue_full (max_queue_size : Z)
| task_exists (task_id : string).

Inductive exn :=
| QueueError (msg : QueueError_msg)
| ValueError (msg : string).

(** Clock readings (microseconds) and addresses in the object store. *)
Abbreviation datetime := Z (only parsing).
Abbreviation addr := nat (only parsing).

(** ** heapq *)

Module heapq.
Section heapq.
Context {A : Type} (lt : A → A → bool).

(** The [while pos > startpos] loop of [_siftdown]; [pos] halves at each
    turn, so [pos] turns are enough. *)
Fixpoint _siftdown_loop (fuel : nat) (heap : list A) (startpos pos : nat)
    (newitem : A) : list A :=
  match fuel with
  | O => <[pos := newitem]> heap
  | S fuel =>
      if decide (startpos < pos)%nat then
        let parentpos := ((pos - 1) / 2)%nat in
        match heap !! parentpos with
        | Some parent =>
            if lt newitem parent
            then _siftdown_loop fuel (<[pos := parent]> heap) startpos parentpos newitem
            else <[pos := newitem]> heap
        | None => <[pos := newitem]> heap
        end
      else <[pos := newitem]> heap
  end.

Definition _siftdown (heap : list A) (startpos pos : nat) : list A :=
  match heap !! pos with
  | Some newitem => _siftdown_loop pos heap startpos pos newitem
  | None => heap
  end.

(** The [while childpos < endpos] loop of [_siftup]: returns the list and
    the leaf position reached.  [pos] grows at each turn, so [endpos] turns
    are enough. *)
Fixpoint _siftup_loop (fuel : nat) (heap : list A) (endpos pos childpos : nat)
    : list A * nat :=
  match fuel with
  | O => (heap, pos)
  | S fuel =>
      if decide (childpos < endpos)%nat then
        let rightpos := (childpos + 1)%nat in
        let childpos :=
          if decide (rightpos < endpos)%nat then
            match heap !! childpos, heap !! rightpos with
            | Some l, Some r => if negb (lt l r) then rightpos else childpos
            | _, _ => childpos
            end
          else childpos in
        match heap !! childpos with
        | Some c =>
            _siftup_loop fuel (<[pos := c]> heap) endpos childpos (2 * childpos + 1)%nat
        | None => (heap, pos)
        end
      else (heap, pos)
  end.

Definition _siftup (heap : list A) (pos : nat) : list A :=
  let endpos := length heap in
  let startpos := pos in
  match heap !! pos with
  | Some newitem =>
      let '(heap, pos) := _siftup_loop endpos heap endpos pos (2 * pos + 1)%nat in
      _siftdown (<[pos := newitem]> heap) startpos pos
  | None => heap
  end.

Definition heappush (heap : list A) (item : A) : list A :=
  let heap := heap ++ [item] in
  _siftdown heap 0 (length heap - 1).

(** [None] stands for the [IndexError] of popping an empty list. *)
Definition heappop (heap : list A) : option (A * list A) :=
  match last heap with
  | None => None
  | Some lastelt =>
      let heap := removelast heap in
      match heap with
      | [] => Some (lastelt, heap)
      | returnitem :: _ => Some (returnitem, _siftup (<[0%nat := lastelt]> heap) 0)
      end
  end.

(** [for i in reversed(range(n)): _siftup(x, i)] *)
Fixpoint heapify_loop (n : nat) (x : list A) : list A :=
  match n with
  | O => x
  | S i => heapify_loop i (_siftup x i)
  end.

Definition heapify (x : list A) : list A :=
  heapify_loop (length x / 2) x.
End heapq.
End heapq.

(** *** The heap invariant *)

Definition parent (i : nat) : nat := ((i - 1) / 2)%nat.

(** [desc s i]: position [i] lies in the subtree rooted at position [s]. *)
Inductive desc (s : nat) : nat → Prop :=
| desc_root : desc s s
| desc_child c : (0 < c)%nat → desc s (parent c) → desc s c.

Section heap_invariant.
Context {A : Type} (lt : A → A → bool).

(** [x] may stand above [y]: [y < x] is false. *)
Definition ole (x y : option A) : Prop :=
  match x, y with
  | Some a, Some b => lt b a = false
  | _, _ => True
  end.

(** Every entry whose parent is at position [s] or later is not smaller
    than its parent; [heap_ok] is heapq's invariant
    [heap[k] <= heap[2*k+1]] and [heap[k] <= heap[2*k+2]]. *)
Definition heap_from (s : nat) (h : list A) : Prop :=
  ∀ j, (0 < j)%nat → (s ≤ parent j)%nat → ole (h !! parent j) (h !! j).

Definition heap_ok (h : list A) : Prop := heap_from 0 h.

(** The invariant of the loop of [_siftup]: the item being placed sits
    at [pos]; it may be out of order with its parent and its children. *)
Definition down_inv (s pos : nat) (v : list A) : Prop :=
  (∀ j, (0 < j)%nat → (s ≤ parent j)%nat → j ≠ pos → parent j ≠ pos →
        ole (v !! parent j) (v !! j))
  ∧ (∀ c, (0 < c)%nat → parent c = pos → (s < pos)%nat →
          ole (v !! parent pos) (v !! c)).

(** The invariant of the loop of [_siftdown]: the item at [pos] may be
    out of order with its parent only. *)
Definition up_inv (s pos : nat) (v : list A) : Prop :=
  (∀ j, (0 < j)%nat → (s ≤ parent j)%nat → j ≠ pos →
        ole (v !! parent j) (v !! j))
  ∧ (∀ c, (0 < c)%nat → parent c = pos → (s < pos)%nat →
          ole (v !! parent pos) (v !! c)).
End heap_invariant.

(** ** base.py *)

Inductive TaskStatus :=
| PENDING | RUNNING | COMPLETED | FAILED | CANCELLED | TIMEOUT.

Inductive TaskPriority := LOW | NORMAL | HIGH | URGENT.

#[global] Instance TaskStatus_eq_dec : EqDecision TaskStatus.
Proof. solve_decision. Defined.

#[global] Instance TaskPriority_eq_dec : EqDecision TaskPriority.
Proof. solve_decision. Defined.

Definition priority_value (p : TaskPriority) : Z :=
  match p with LOW => 1 | NORMAL => 2 | HIGH => 3 | URGENT => 4 end.

Module TaskResult.
Record t := mk {
  task_id : string;
  status : TaskStatus;
  result : pyval;                 (* Optional[Any]: [PyNone] is None *)
  error : option string;
  start_time : option datetime;
  end_time : option datetime;
  execution_time : option Z;      (* end_time - start_time *)
  metadata : gmap string pyval;
}.
End TaskResult.

Module Task.
Record t := mk {
  func : pyobj;
  args : list pyval;
  kwargs : gmap string pyval;
  task_id : string;
  priority : TaskPriority;
  timeout : option Z;
  retry_count : Z;
  max_retries : Z;
  created_at : datetime;
  scheduled_at : option datetime;
  metadata : gmap string pyval;
  status : TaskStatus;
  result : option TaskResult.t;
  worker_id : option string;
}.

Definition set_scheduled_at (v : option datetime) (self : t) : t :=
  mk (func self) (args self) (kwargs self) (task_id self) (priority self)
     (timeout self) (retry_count self) (max_retries self) (created_at self)
     v (metadata self) (status self) (result self) (worker_id self).

Definition set_retry_count (v : Z) (self : t) : t :=
  mk (func self) (args self) (kwargs self) (task_id self) (priority self)
     (timeout self) v (max_retries self) (created_at self)
     (scheduled_at self) (metadata self) (status self) (result self)
     (worker_id self).

Definition set_status (v : TaskStatus) (self : t) : t :=
  mk (func self) (args self) (kwargs self) (task_id self) (priority self)
     (timeout self) (retry_count self) (max_retries self) (created_at self)
     (scheduled_at self) (metadata self) v (result self) (worker_id self).

Definition set_result (v : option TaskResult.t) (self : t) : t :=
  mk (func self) (args self) (kwargs self) (task_id self) (priority self)
     (timeout self) (retry_count self) (max_retries self) (created_at self)
     (scheduled_at self) (metadata self) (status self) v (worker_id self).

Definition set_worker_id (v : option string) (self : t) : t :=
  mk (func self) (args self) (kwargs self) (task_id self) (priority self)
     (timeout self) (retry_count self) (max_retries self) (created_at self)
     (scheduled_at self) (metadata self) (status self) (result self) v.

Definition __post_init__ (self : t) : exn + t :=
  if negb (callable (func self)) then inl (ValueError "func must be callable")
  else
    match scheduled_at self with
    | None => inr (set_scheduled_at (Some (created_at self)) self)
    | Some _ => inr self
    end.

(** The dataclass constructor as [submit_task] calls it: [task_id] is the
    generated uuid, [created_at] the clock reading of the default factory;
    [retry_count], [status], [result] and [worker_id] take their defaults. *)
Definition __init__ (func : pyobj) (args : list pyval)
    (kwargs : gmap string pyval) (task_id : string) (priority : TaskPriority)
    (timeout : option Z) (max_retries : Z) (created_at : datetime)
    (scheduled_at : option datetime) (metadata : gmap string pyval) : exn + t :=
  __post_init__
    (mk func args kwargs task_id priority timeout 0 max_retries created_at
        scheduled_at metadata PENDING None None).

(** [execute], up to the call of the wrapped function. *)
Definition execute_start (self : t) : t := set_status RUNNING self.

(** [execute], from the call of the wrapped function on.  A raised
    exception that is not an [Exception] is not caught by
    [except Exception] and propagates ([inr]). *)
Definition execute_call (start_time end_time : datetime) (self : t)
    : t * (TaskResult.t + pyexc) :=
  match call (func self) (args self) (kwargs self) with
  | Returns result =>
      let execution_time := end_time - start_time in
      let task_result :=
        TaskResult.mk (task_id self) COMPLETED result None
          (Some start_time) (Some end_time) (Some execution_time)
          (metadata self) in
      (set_result (Some task_result) (set_status COMPLETED self),
       inl task_result)
  | Raises e =>
      if isinstance_Exception e then
        let execution_time := end_time - start_time in
        let error_msg := str e in
        let task_result :=
          TaskResult.mk (task_id self) FAILED PyNone (Some error_msg)
            (Some start_time) (Some end_time) (Some execution_time)
            (metadata self) in
        (set_result (Some task_result) (set_status FAILED self),
         inl task_result)
      else (self, inr e)
  end.

Definition execute (start_time end_time : datetime) (self : t)
    : t * (TaskResult.t + pyexc) :=
  execute_call start_time end_time (execute_start self).

Definition can_retry (self : t) : bool :=
  bool_decide (status self = FAILED) && (retry_count self <? max_retries self).

Definition reset_for_retry (self : t) : exn + t :=
  if negb (can_retry self) then inl (ValueError "任务不能重试")
  else
    inr (set_worker_id None
          (set_result None
            (set_status PENDING
              (set_retry_count (retry_count self + 1) self)))).

Definition cancel (self : t) : t :=
  if bool_decide (status self = RUNNING) then self
  else set_status CANCELLED self.

Definition is_ready (now : datetime) (self : t) : bool :=
  if negb (bool_decide (status self = PENDING)) then false
  else
    match scheduled_at self with
    | Some s => if now <? s then false else true
    | None => true
    end.

(** The heap only ever compares tasks with tasks, so the [isinstance]
    test is left out. *)
Definition __lt__ (self other : t) : bool :=
  if negb (priority_value (priority self) =? priority_value (priority other))
  then priority_value (priority other) <? priority_value (priority self)
  else created_at self <? created_at other.
End Task.

(** ** manager.py and worker.py: the objects *)

Module TaskManager.
Record t := mk {
  _tasks : gmap string addr;
  _results : gmap string TaskResult.t;
}.
End TaskManager.

Module QueueManager.
Record t := mk {
  max_queue_size : Z;
  _queue : list addr;
  _task_manager : TaskManager.t;
  _running : bool;
}.
End QueueManager.

Module TaskWorker.
Record t := mk {
  worker_id : string;
  _running : bool;
  _current_task : option addr;
}.
End TaskWorker.

(** The program state: the [Task] objects, the queue manager the workers
    share, and the workers. *)
Record World := mkWorld {
  objs : list Task.t;
  _queue_manager : QueueManager.t;
  _workers : list TaskWorker.t;
}.

Definition the_task_manager (w : World) : TaskManager.t :=
  QueueManager._task_manager (_queue_manager w).

Definition the_queue (w : World) : list addr :=
  QueueManager._queue (_queue_manager w).

Definition with_objs (o : list Task.t) (w : World) : World :=
  mkWorld o (_queue_manager w) (_workers w).

Definition with_task_manager (tm : TaskManager.t) (w : World) : World :=
  let qm := _queue_manager w in
  mkWorld (objs w)
    (QueueManager.mk (QueueManager.max_queue_size qm) (QueueManager._queue qm)
       tm (QueueManager._running qm))
    (_workers w).

Definition with_queue (q : list addr) (w : World) : World :=
  let qm := _queue_manager w in
  mkWorld (objs w)
    (QueueManager.mk (QueueManager.max_queue_size qm) q
       (QueueManager._task_manager qm) (QueueManager._running qm))
    (_workers w).

Definition with_workers (ws : list TaskWorker.t) (w : World) : World :=
  mkWorld (objs w) (_queue_manager w) ws.

(** [QueueManager(max_queue_size)] with no worker yet. *)
Definition new_world (max_queue_size : Z) (workers : list TaskWorker.t) : World :=
  mkWorld []
    (QueueManager.mk max_queue_size [] (TaskManager.mk ∅ ∅) false)
    workers.

(** [a < b] on the tasks two heap entries refer to ([Task.__lt__]).  An
    address without object is never met; it would sort last. *)
Definition lt_at (o : list Task.t) (a b : addr) : bool :=
  match o !! a, o !! b with
  | Some x, Some y => Task.__lt__ x y
  | Some _, None => true
  | None, _ => false
  end.

(** ** TaskManager *)

(** [task] is the address of the object [tk]. *)
Definition add_task (task : addr) (tk : Task.t) (w : World)
    : (exn + string) * World :=
  let self := the_task_manager w in
  match TaskManager._tasks self !! Task.task_id tk with
  | Some _ => (inl (QueueError (task_exists (Task.task_id tk))), w)
  | None =>
      (inr (Task.task_id tk),
       with_task_manager
         (TaskManager.mk (<[Task.task_id tk := task]> (TaskManager._tasks self))
                         (TaskManager._results self)) w)
  end.

Definition get_task (task_id : string) (w : World) : option addr :=
  TaskManager._tasks (the_task_manager w) !! task_id.

Definition update_task_status (task_id : string) (status : TaskStatus)
    (w : World) : bool * World :=
  match TaskManager._tasks (the_task_manager w) !! task_id with
  | Some a => (true, with_objs (alter (Task.set_status status) a (objs w)) w)
  | None => (false, w)
  end.

Definition save_result (result : TaskResult.t) (w : World) : World :=
  let self := the_task_manager w in
  with_task_manager
    (TaskManager.mk (TaskManager._tasks self)
       (<[TaskResult.task_id result := result]> (TaskManager._results self))) w.

Definition get_result (task_id : string) (w : World) : option TaskResult.t :=
  TaskManager._results (the_task_manager w) !! task_id.

(** ** QueueManager *)

(** [now] is the clock reading that becomes [created_at], [uuid] the
    generated [task_id].  A [Task] whose construction raises is never
    allocated. *)
Definition submit_task (now : datetime) (uuid : string)
    (func : pyobj) (args : list pyval) (priority : TaskPriority)
    (timeout : option Z) (max_retries : Z) (scheduled_at : option datetime)
    (metadata : option (gmap string pyval)) (kwargs : gmap string pyval)
    (w : World) : (exn + string) * World :=
  let self := _queue_manager w in
  if Z.of_nat (length (QueueManager._queue self)) >=? QueueManager.max_queue_size self
  then (inl (QueueError (queue_full (QueueManager.max_queue_size self))), w)
  else
    match Task.__init__ func args kwargs uuid priority timeout max_retries now
            scheduled_at (default ∅ metadata) with
    | inl e => (inl e, w)
    | inr tk =>
        let task := length (objs w) in
        let w1 := with_objs (objs w ++ [tk]) w in
        match add_task task tk w1 with
        | (inl e, w2) => (inl e, w2)
        | (inr _, w2) =>
            (inr (Task.task_id tk),
             with_queue (heapq.heappush (lt_at (objs w2)) (the_queue w2) task) w2)
        end
    end.

(** The [while self._queue] loop of [get_next_task]: every turn that does
    not leave the loop drops one entry, so [len(self._queue)] turns are
    enough. *)
Fixpoint get_next_task_loop (fuel : nat) (now : datetime) (o : list Task.t)
    (queue : list addr) : option addr * list addr :=
  match fuel with
  | O => (None, queue)
  | S fuel =>
      match heapq.heappop (lt_at o) queue with
      | None => (None, queue)
      | Some (task, queue) =>
          match o !! task with
          | Some tk =>
              if Task.is_ready now tk then (Some task, queue)
              else if bool_decide (Task.status tk = PENDING)
                   then (None, heapq.heappush (lt_at o) queue task)
                   else get_next_task_loop fuel now o queue
          | None => get_next_task_loop fuel now o queue
          end
      end
  end.

Definition get_next_task (now : datetime) (w : World) : option addr * World :=
  let '(r, queue) :=
    get_next_task_loop (length (the_queue w)) now (objs w) (the_queue w) in
  (r, with_queue queue w).

Definition task_id_at (o : list Task.t) (a : addr) : option string :=
  Task.task_id <$> o !! a.

Definition cancel_task (task_id : string) (w : World) : bool * World :=
  match get_task task_id w with
  | None => (false, w)
  | Some task =>
      match objs w !! task with
      | None => (false, w)
      | Some tk =>
          if bool_decide (Task.status tk = RUNNING) then (false, w)
          else
            let o := alter Task.cancel task (objs w) in
            let queue :=
              filter (λ t, task_id_at o t ≠ Some task_id) (the_queue w) in
            (true, with_queue (heapq.heapify (lt_at o) queue) (with_objs o w))
      end
  end.

Definition retry_task (task_id : string) (w : World) : bool * World :=
  match get_task task_id w with
  | None => (false, w)
  | Some task =>
      match objs w !! task with
      | None => (false, w)
      | Some tk =>
          if negb (Task.can_retry tk) then (false, w)
          else
            match Task.reset_for_retry tk with
            | inl _ => (false, w)
            | inr tk' =>
                let o := <[task := tk']> (objs w) in
                (true,
                 with_queue (heapq.heappush (lt_at o) (the_queue w) task)
                   (with_objs o w))
            end
      end
  end.

Definition get_task_status (task_id : string) (w : World) : option TaskStatus :=
  match get_task task_id w with
  | Some task => Task.status <$> objs w !! task
  | None => None
  end.

Definition get_task_result (task_id : string) (w : World) : option TaskResult.t :=
  get_result task_id w.

(** ** TaskWorker *)

Definition set_current_task (v : option addr) (self : TaskWorker.t) : TaskWorker.t :=
  TaskWorker.mk (TaskWorker.worker_id self) (TaskWorker._running self) v.

(** [execute_task] of worker number [i], up to the moment the wrapped
    function is called: the task is RUNNING from here on. *)
Definition execute_task_begin (i : nat) (task : addr) (w : World) : World :=
  match _workers w !! i, objs w !! task with
  | Some self, Some tk =>
      let w := with_workers (<[i := set_current_task (Some task) self]> (_workers w)) w in
      let w := with_objs
                 (alter (Task.set_worker_id (Some (TaskWorker.worker_id self)))
                    task (objs w)) w in
      let '(_, w) := update_task_status (Task.task_id tk) RUNNING w in
      with_objs (alter Task.execute_start task (objs w)) w
  | _, _ => w
  end.

(** The [finally] block of [execute_task]. *)
Definition execute_task_finally (i : nat) (task : addr) (w : World) : World :=
  let w := with_workers (alter (set_current_task None) i (_workers w)) w in
  with_objs (alter (Task.set_worker_id None) task (objs w)) w.

(** [execute_task] from the call of the wrapped function on.  [None]: no
    such worker or task. *)
Definition execute_task_end (i : nat) (task : addr)
    (start_time end_time : datetime) (w : World)
    : option (TaskResult.t + pyexc) * World :=
  match _workers w !! i, objs w !! task with
  | Some self, Some tk =>
      let '(tk, r) := Task.execute_call start_time end_time tk in
      let w := with_objs (<[task := tk]> (objs w)) w in
      match r with
      | inl result =>
          let w := save_result result w in
          (Some (inl result), execute_task_finally i task w)
      | inr e => (Some (inr e), execute_task_finally i task w)
      end
  | _, _ => (None, w)
  end.

Definition execute_task (i : nat) (task : addr)
    (start_time end_time : datetime) (w : World)
    : option (TaskResult.t + pyexc) * World :=
  execute_task_end i task start_time end_time (execute_task_begin i task w).

(** One turn of [_worker_loop]. *)
Definition _worker_loop_turn (i : nat) (now start_time end_time : datetime)
    (w : World) : World :=
  match get_next_task now w with
  | (None, w) => w
  | (Some task, w) => snd (execute_task i task start_time end_time w)
  end.

(** ** Histories of operations *)

(** The public operations, each with the clock readings and generated
    identifier it consumes.  A worker's [execute_task] is two steps, so that
    other operations can happen while the wrapped function runs. *)
Inductive op :=
| SubmitTask (now : datetime) (uuid : string) (func : pyobj)
    (args : list pyval) (priority : TaskPriority) (timeout : option Z)
    (max_retries : Z) (scheduled_at : option datetime)
    (metadata : option (gmap string pyval)) (kwargs : gmap string pyval)
| GetNextTask (now : datetime)
| CancelTask (task_id : string)
| RetryTask (task_id : string)
| UpdateTaskStatus (task_id : string) (status : TaskStatus)
| ExecuteTaskBegin (i : nat) (task : addr)
| ExecuteTaskEnd (i : nat) (task : addr) (start_time end_time : datetime).

Inductive ret :=
| RetSubmit (r : exn + string)
| RetTask (r : option addr)
| RetBool (r : bool)
| RetNone
| RetResult (r : option (TaskResult.t + pyexc)).

Definition step (c : op) (w : World) : ret * World :=
  match c with
  | SubmitTask now uuid func args priority timeout max_retries scheduled_at
      metadata kwargs =>
      let '(r, w) := submit_task now uuid func args priority timeout max_retries
                       scheduled_at metadata kwargs w in
      (RetSubmit r, w)
  | GetNextTask now => let '(r, w) := get_next_task now w in (RetTask r, w)
  | CancelTask task_id => let '(r, w) := cancel_task task_id w in (RetBool r, w)
  | RetryTask task_id => let '(r, w) := retry_task task_id w in (RetBool r, w)
  | UpdateTaskStatus task_id status =>
      let '(r, w) := update_task_status task_id status w in (RetBool r, w)
  | ExecuteTaskBegin i task => (RetNone, execute_task_begin i task w)
  | ExecuteTaskEnd i task start_time end_time =>
      let '(r, w) := execute_task_end i task start_time end_time w in
      (RetResult r, w)
  end.

Fixpoint run (cs : list op) (w : World) : World :=
  match cs with
  | [] => w
  | c :: cs => run cs (snd (step c w))
  end.

(** Successive calls of [get_next_task] at the given clock readings, with
    nothing in between: the tasks handed out, in order. *)
Fixpoint dispatch (times : list datetime) (w : World) : list addr * World :=
  match times with
  | [] => ([], w)
  | now :: times =>
      let '(r, w) := get_next_task now w in
      let '(rs, w) := dispatch times w in
      (match r with Some task => task :: rs | None => rs end, w)
  end.

(** ** Specification vocabulary *)

(** What never changes about a task object once it is constructed. *)
Definition same_identity (x y : Task.t) : Prop :=
  Task.func y = Task.func x ∧ Task.args y = Task.args x
  ∧ Task.kwargs y = Task.kwargs x ∧ Task.task_id y = Task.task_id x
  ∧ Task.priority y = Task.priority x ∧ Task.timeout y = Task.timeout x
  ∧ Task.max_retries y = Task.max_retries x
  ∧ Task.created_at y = Task.created_at x
  ∧ Task.scheduled_at y = Task.scheduled_at x
  ∧ Task.metadata y = Task.metadata x.

(** The object store [o'] is a later state of [o]: objects stay where they
    are and keep their identity. *)
Definition evolves (o o' : list Task.t) : Prop :=
  (length o ≤ length o')%nat
  ∧ ∀ a x, o !! a = Some x → ∃ y, o' !! a = Some y ∧ same_identity x y.

(** [x] is dispatched no later than [y]: higher priority first, and among
    equal priorities the earlier [created_at] first. *)
Definition dispatch_order (x y : Task.t) : Prop :=
  priority_value (Task.priority y) < priority_value (Task.priority x)
  ∨ (Task.priority x = Task.priority y ∧ Task.created_at x ≤ Task.created_at y).

Definition dispatch_order_at (o : list Task.t) (a b : addr) : Prop :=
  ∃ x y, o !! a = Some x ∧ o !! b = Some y ∧ dispatch_order x y.

(** The queue is a heap of allocated tasks. *)
Definition heap_inv (o : list Task.t) (q : list addr) : Prop :=
  heap_ok (lt_at o) q ∧ Forall (λ a, a < length o)%nat q.

Definition queue_inv (w : World) : Prop := heap_inv (objs w) (the_queue w).

(** Every task has a scheduled time (set by [__post_init__]). *)
Definition scheduled_inv (w : World) : Prop :=
  Forall (λ x, is_Some (Task.scheduled_at x)) (objs w).

(** The task [submit_task] constructs: [scheduled_at] defaults to the
    creation time, [metadata] to the empty dict. *)
Definition new_task (now : datetime) (uuid : string) (func : pyobj)
    (args : list pyval) (priority : TaskPriority) (timeout : option Z)
    (max_retries : Z) (scheduled_at : option datetime)
    (metadata : option (gmap string pyval)) (kwargs : gmap string pyval)
    : Task.t :=
  Task.mk func args kwargs uuid priority timeout 0 max_retries now
    (Some (default now scheduled_at)) (default ∅ metadata) PENDING None None.

(** The registry maps each [task_id] to an allocated task carrying it. *)
Definition registry_inv (w : World) : Prop :=
  ∀ id a, TaskManager._tasks (the_task_manager w) !! id = Some a →
          ∃ tk, objs w !! a = Some tk ∧ Task.task_id tk = id.

(** Every queued task is the one registered under its [task_id]. *)
Definition queued_inv (w : World) : Prop :=
  ∀ b, b ∈ the_queue w →
       ∃ tk, objs w !! b = Some tk ∧ get_task (Task.task_id tk) w = Some b.

Definition world_inv (w : World) : Prop :=
  queue_inv w ∧ scheduled_inv w ∧ registry_inv w ∧ queued_inv w.

(** Submitting a plain function with default arguments. *)
Definition submit_plain (now : datetime) (uuid : string)
    (f : list pyval → gmap string pyval → call_result)
    (priority : TaskPriority) (max_retries : Z) : op :=
  SubmitTask now uuid (Function f) [] priority None max_retries None None ∅.

(** The priorities of the tasks at the given addresses. *)
Definition priorities (o : list Task.t) (l : list nat) : list TaskPriority :=
  omap (λ a, Task.priority <$> o !! a) l.

(** How an operation may change the object store: objects keep their place
    and identity, and only a submission allocates. *)
Definition store_step (c : op) (o o' : list Task.t) : Prop :=
  evolves o o'
  ∧ match c with
    | SubmitTask now uuid func args priority timeout max_retries scheduled_at
        metadata kwargs =>
        o' = o ∨ o' = o ++ [new_task now uuid func args priority timeout
                             max_retries scheduled_at metadata kwargs]
    | _ => length o' = length o
    end.

(** The world after a successful [submit_task]. *)
Definition submitted (now : datetime) (uuid : string) (func : pyobj)
    (args : list pyval) (priority : TaskPriority) (timeout : option Z)
    (max_retries : Z) (scheduled_at : option datetime)
    (metadata : option (gmap string pyval)) (kwargs : gmap string pyval)
    (w : World) : World :=
  let tk := new_task now uuid func args priority timeout max_retries
              scheduled_at metadata kwargs in
  let o := objs w ++ [tk] in
  let qm := _queue_manager w in
  mkWorld o
    (QueueManager.mk (QueueManager.max_queue_size qm)
       (heapq.heappush (lt_at o) (the_queue w) (length (objs w)))
       (TaskManager.mk
          (<[uuid := length (objs w)]> (TaskManager._tasks (the_task_manager w)))
          (TaskManager._results (the_task_manager w)))
       (QueueManager._running qm))
    (_workers w).


(** What one operation may do to the status and the retry count of a task
    object. *)
Definition task_step (c : op) (x y : Task.t) : Prop :=
  (Task.status y = Task.status x ∧ Task.retry_count y = Task.retry_count x)
  ∨ match c with
    | SubmitTask _ _ _ _ _ _ _ _ _ _ | GetNextTask _ => False
    | CancelTask _ =>
        Task.status x ≠ RUNNING ∧ Task.status y = CANCELLED
        ∧ Task.retry_count y = Task.retry_count x
    | RetryTask _ =>
        Task.status x = FAILED ∧ Task.status y = PENDING
        ∧ Task.retry_count x < Task.max_retries x
        ∧ Task.retry_count y = Task.retry_count x + 1
    | UpdateTaskStatus _ status =>
        Task.status y = status ∧ Task.retry_count y = Task.retry_count x
    | ExecuteTaskBegin _ _ =>
        Task.status y = RUNNING ∧ Task.retry_count y = Task.retry_count x
    | ExecuteTaskEnd _ _ _ _ =>
        (Task.status y = COMPLETED ∨ Task.status y = FAILED)
        ∧ Task.retry_count y = Task.retry_count x
    end.

(** A function that returns 7, one that returns None, one that always
    raises, and a pool of one worker. *)
Definition returns_7 : list pyval → gmap string pyval → call_result :=
  λ _ _, Returns (PyInt 7).

Definition returns_None : list pyval → gmap string pyval → call_result :=
  λ _ _, Returns PyNone.

Definition always_fails : list pyval → gmap string pyval → call_result :=
  λ _ _, Raises {| isinstance_Exception := true; str := "boom" |}.

Definition one_worker : list TaskWorker.t := [TaskWorker.mk "worker-1" true None].

(** One attempt of the worker at whatever [get_next_task] hands out first
    (task 0 in the examples): fetched at [t], run from [t] to [t + 1]. *)
Definition attempt (t : datetime) : list op :=
  [GetNextTask t; ExecuteTaskBegin 0 0; ExecuteTaskEnd 0 0 t (t + 1)].

(** The task as [reset_for_retry] leaves it. *)
Definition reset (tk : Task.t) : Task.t :=
  Task.set_worker_id None
    (Task.set_result None
      (Task.set_status PENDING
        (Task.set_retry_count (Task.retry_count tk + 1) tk))).

(** Histories in which every worker runs a task as soon as it has fetched
    it: nothing happens between its [get_next_task] and its
    [execute_task]. *)
Inductive turn :=
| Submits (now : datetime) (uuid : string) (func : pyobj)
    (args : list pyval) (priority : TaskPriority) (timeout : option Z)
    (max_retries : Z) (scheduled_at : option datetime)
    (metadata : option (gmap string pyval)) (kwargs : gmap string pyval)
| Cancels (task_id : string)
| Retries (task_id : string)
| Works (i : nat) (now start_time end_time : datetime).

Definition turn_ops (t : turn) (w : World) : list op :=
  match t with
  | Submits now uuid func args priority timeout max_retries scheduled_at
      metadata kwargs =>
      [SubmitTask now uuid func args priority timeout max_retries scheduled_at
         metadata kwargs]
  | Cancels task_id => [CancelTask task_id]
  | Retries task_id => [RetryTask task_id]
  | Works i now start_time end_time =>
      match (get_next_task now w).1 with
      | Some task =>
          [GetNextTask now; ExecuteTaskBegin i task;
           ExecuteTaskEnd i task start_time end_time]
      | None => [GetNextTask now]
      end
  end.

Fixpoint run_turns (ts : list turn) (w : World) : World :=
  match ts with
  | [] => w
  | t :: ts => run_turns ts (run (turn_ops t w) w)
  end.

(** The task registered as [id], at address [a], is cancelled and out of
    the queue. *)
Definition cancelled (id : string) (a : addr) (w : World) : Prop :=
  get_task id w = Some a
  ∧ Task.status <$> objs w !! a = Some CANCELLED
  ∧ a ∉ the_queue w.

(** The operation [c] neither resets the status of the task registered as
    [id] through the registry nor makes a worker run it (a worker runs a
    registered task other than [a]). *)
Definition spares (id : string) (a : addr) (c : op) (w : World) : Prop :=
  match c with
  | UpdateTaskStatus id' _ => id' ≠ id
  | ExecuteTaskBegin _ b | ExecuteTaskEnd _ b _ _ =>
      b ≠ a ∧ ∃ tk, objs w !! b = Some tk ∧ get_task (Task.task_id tk) w = Some b
  | _ => True
  end.

(** ** TaskManager: removing, listing, statistics and cleanup *)

Definition remove_task (task_id : string) (w : World) : bool * World :=
  let self := the_task_manager w in
  match TaskManager._tasks self !! task_id with
  | Some _ =>
      (true,
       with_task_manager
         (TaskManager.mk (delete task_id (TaskManager._tasks self))
                         (TaskManager._results self)) w)
  | None => (false, w)
  end.

(** [self._tasks.items()].  A Python dict lists its entries in the order
    they were inserted; the registry does not record that order, so what
    is read off this list below does not depend on it. *)
Definition items (w : World) : list (string * addr) :=
  map_to_list (TaskManager._tasks (the_task_manager w)).

(** An [Enum] member is truthy, so [if status:] and [if priority:] only
    test for [None]. *)
Definition list_tasks (status : option TaskStatus)
    (priority : option TaskPriority) (w : World) : list addr :=
  let tasks := (items w).*2 in
  let tasks :=
    match status with
    | Some status =>
        filter (λ t, Task.status <$> objs w !! t = Some status) tasks
    | None => tasks
    end in
  match priority with
  | Some priority =>
      filter (λ t, Task.priority <$> objs w !! t = Some priority) tasks
  | None => tasks
  end.

Definition status_value (s : TaskStatus) : string :=
  match s with
  | PENDING => "pending"
  | RUNNING => "running"
  | COMPLETED => "completed"
  | FAILED => "failed"
  | CANCELLED => "cancelled"
  | TIMEOUT => "timeout"
  end.

(** [counts[key] += 1] on a [defaultdict(int)]. *)
Definition incr `{Countable K} (key : K) (counts : gmap K Z) : gmap K Z :=
  <[key := default 0 (counts !! key) + 1]> counts.

Record Statistics := mkStatistics {
  total_tasks : nat;
  total_results : nat;
  status_counts : gmap string Z;
  priority_counts : gmap Z Z;
}.

(** The [for task in self._tasks.values()] loop of [get_statistics]. *)
Definition count_tasks (o : list Task.t) (tasks : list addr)
    : gmap string Z * gmap Z Z :=
  foldl (λ '(status_counts, priority_counts) t,
           match o !! t with
           | Some task =>
               (incr (status_value (Task.status task)) status_counts,
                incr (priority_value (Task.priority task)) priority_counts)
           | None => (status_counts, priority_counts)
           end)
        (∅, ∅) tasks.

Definition get_statistics (w : World) : Statistics :=
  let self := the_task_manager w in
  let '(status_counts, priority_counts) := count_tasks (objs w) (items w).*2 in
  mkStatistics (size (TaskManager._tasks self)) (size (TaskManager._results self))
    status_counts priority_counts.

(** [sum(counts.values())] *)
Definition sum_values `{Countable K} (counts : gmap K Z) : Z :=
  map_fold (λ _ v acc, v + acc) 0 counts.

(** [timedelta(hours=h)], in microseconds. *)
Definition timedelta_hours (h : Z) : Z := h * 3600000000.

(** The test of [cleanup_completed_tasks] on one task. *)
Definition is_old_and_done (cutoff_time : datetime) (task : Task.t) : bool :=
  bool_decide (Task.status task ∈ [COMPLETED; FAILED; CANCELLED])
  && (Task.created_at task <? cutoff_time).

(** The first loop of [cleanup_completed_tasks]. *)
Definition tasks_to_remove (cutoff_time : datetime) (w : World) : list string :=
  omap (λ '(task_id, t),
          match objs w !! t with
          | Some task =>
              if is_old_and_done cutoff_time task then Some task_id else None
          | None => None
          end) (items w).

Definition cleanup_completed_tasks (now : datetime) (max_age_hours : Z)
    (w : World) : nat * World :=
  let self := the_task_manager w in
  let cutoff_time := now - timedelta_hours max_age_hours in
  let tasks_to_remove := tasks_to_remove cutoff_time w in
  (length tasks_to_remove,
   with_task_manager
     (TaskManager.mk
        (foldl (λ tasks task_id, delete task_id tasks)
               (TaskManager._tasks self) tasks_to_remove)
        (foldl (λ results task_id, delete task_id results)
               (TaskManager._results self) tasks_to_remove)) w).

(** ** QueueManager: status, scheduler flag and cleanup *)

Record QueueStatus := mkQueueStatus {
  statistics : Statistics;
  queue_size : nat;
  max_queue_size : Z;
  is_running : bool;
}.

Definition get_queue_status (w : World) : QueueStatus :=
  let self := _queue_manager w in
  mkQueueStatus (get_statistics w) (length (QueueManager._queue self))
    (QueueManager.max_queue_size self) (QueueManager._running self).

Definition with_running (b : bool) (w : World) : World :=
  let qm := _queue_manager w in
  mkWorld (objs w)
    (QueueManager.mk (QueueManager.max_queue_size qm) (QueueManager._queue qm)
       (QueueManager._task_manager qm) b)
    (_workers w).

(** The scheduler thread only sleeps; what is left of [start_scheduler]
    and [stop_scheduler] is the flag. *)
Definition start_scheduler (w : World) : World :=
  if QueueManager._running (_queue_manager w) then w else with_running true w.



(** ** TaskWorker and WorkerPool: starting, stopping and resizing *)

Definition set_running (v : bool) (self : TaskWorker.t) : TaskWorker.t :=
  TaskWorker.mk (TaskWorker.worker_id self) v (TaskWorker._current_task self).

(** [TaskWorker(worker_id=...)] as the pool calls it: the id it passes is
    not empty, so [worker_id or str(uuid.uuid4())] is that id. *)
Definition TaskWorker_init (worker_id : string) : TaskWorker.t :=
  TaskWorker.mk worker_id false None.

(** [start] and [stop] of a worker.  The thread they start and join is the
    one whose steps are [get_next_task] and [execute_task]; here they set
    the flag. *)
Definition TaskWorker_start (self : TaskWorker.t) : TaskWorker.t :=
  if TaskWorker._running self then self else set_running true self.

Definition TaskWorker_stop (self : TaskWorker.t) : TaskWorker.t :=
  if negb (TaskWorker._running self) then self else set_running false self.

(** The pool holds its workers by reference: [_workers] lists addresses in
    the store of worker objects, [_workers] of the [World]. *)
Module WorkerPool.
Record t := mk {
  pool_size : Z;
  _workers : list addr;
  _running : bool;
}.
End WorkerPool.

Definition WorkerPool_init (pool_size : Z) : WorkerPool.t :=
  WorkerPool.mk pool_size [] false.

(** [TaskWorker(worker_id=f"worker-{i+1}")], started, for [i] in
    [range(lo, lo + n)]. *)
Definition new_workers (lo n : nat) : list TaskWorker.t :=
  (λ i, TaskWorker_start (TaskWorker_init ("worker-" +:+ pretty (i + 1)%nat)))
    <$> seq lo n.

(** [for worker in workers: worker.stop()] *)
Definition stop_all (workers : list addr) (store : list TaskWorker.t)
    : list TaskWorker.t :=
  foldl (λ store a, alter TaskWorker_stop a store) store workers.

Definition WorkerPool_start (self : WorkerPool.t) (w : World)
    : WorkerPool.t * World :=
  if WorkerPool._running self then (self, w)
  else
    let n := Z.to_nat (WorkerPool.pool_size self) in
    (WorkerPool.mk (WorkerPool.pool_size self)
       (WorkerPool._workers self ++ seq (length (_workers w)) n) true,
     with_workers (_workers w ++ new_workers 0 n) w).

Definition WorkerPool_stop (self : WorkerPool.t) (w : World)
    : WorkerPool.t * World :=
  if negb (WorkerPool._running self) then (self, w)
  else
    (WorkerPool.mk (WorkerPool.pool_size self) [] false,
     with_workers (stop_all (WorkerPool._workers self) (_workers w)) w).

(** Where the slices [l[n:]] and [l[:n]] cut a list of length [len]: a
    negative [n] counts from the end. *)
Definition slice_index (n : Z) (len : nat) : nat :=
  if n <? 0 then Z.to_nat (Z.max 0 (Z.of_nat len + n))
  else Z.to_nat (Z.min n (Z.of_nat len)).

Definition WorkerPool_resize (new_size : Z) (self : WorkerPool.t) (w : World)
    : WorkerPool.t * World :=
  if negb (WorkerPool._running self)
  then (WorkerPool.mk new_size (WorkerPool._workers self)
          (WorkerPool._running self), w)
  else
    let current_size := length (WorkerPool._workers self) in
    if Z.of_nat current_size <? new_size then
      let n := (Z.to_nat new_size - current_size)%nat in
      (WorkerPool.mk new_size
         (WorkerPool._workers self ++ seq (length (_workers w)) n)
         (WorkerPool._running self),
       with_workers (_workers w ++ new_workers current_size n) w)
    else if new_size <? Z.of_nat current_size then
      let workers_to_stop :=
        drop (slice_index new_size current_size) (WorkerPool._workers self) in
      (WorkerPool.mk new_size
         (take (slice_index new_size current_size) (WorkerPool._workers self))
         (WorkerPool._running self),
       with_workers (stop_all workers_to_stop (_workers w)) w)
    else
      (WorkerPool.mk new_size (WorkerPool._workers self)
         (WorkerPool._running self), w).

Definition get_workers (self : WorkerPool.t) : list addr :=
  WorkerPool._workers self.

Definition get_active_workers (self : WorkerPool.t) (w : World) : list addr :=
  filter (λ a, TaskWorker._running <$> _workers w !! a = Some true)
         (WorkerPool._workers self).

Definition get_busy_workers (self : WorkerPool.t) (w : World) : list addr :=
  filter (λ a, is_Some (_workers w !! a ≫= TaskWorker._current_task))
         (WorkerPool._workers self).

(** The module-level [start_workers] and [stop_workers], on the global
    pool. *)
Definition start_workers (pool_size : Z) (self : WorkerPool.t) (w : World)
    : WorkerPool.t * World :=
  WorkerPool_start
    (WorkerPool.mk pool_size (WorkerPool._workers self)
       (WorkerPool._running self)) w.

Definition stop_workers (self : WorkerPool.t) (w : World)
    : WorkerPool.t * World :=
  WorkerPool_stop self w.

(** Histories of a pool and the queue its workers serve. *)
Inductive pool_op :=
| PoolStart
| PoolStop
| PoolResize (new_size : Z)
| StartWorkers (pool_size : Z)
| QueueOp (c : op).

Definition pool_step (c : pool_op) (s : WorkerPool.t * World)
    : WorkerPool.t * World :=
  match c with
  | PoolStart => WorkerPool_start s.1 s.2
  | PoolStop => WorkerPool_stop s.1 s.2
  | PoolResize new_size => WorkerPool_resize new_size s.1 s.2
  | StartWorkers pool_size => start_workers pool_size s.1 s.2
  | QueueOp c => (s.1, (step c s.2).2)
  end.

Fixpoint pool_run (cs : list pool_op) (s : WorkerPool.t * World)
    : WorkerPool.t * World :=
  match cs with
  | [] => s
  | c :: cs => pool_run cs (pool_step c s)
  end.

(** A stopped pool has no workers; the worker at position [k] of the pool
    is a running worker named [worker-(k+1)]. *)
Definition pool_inv (s : WorkerPool.t * World) : Prop :=
  (WorkerPool._running s.1 = false → WorkerPool._workers s.1 = [])
  ∧ ∀ k a, WorkerPool._workers s.1 !! k = Some a →
           ∃ wk, _workers s.2 !! a = Some wk
                 ∧ TaskWorker.worker_id wk = "worker-" +:+ pretty (k + 1)%nat
                 ∧ TaskWorker._running wk = true.

(** The number of [RetryTask] operations in a history. *)
Fixpoint retries (cs : list op) : nat :=
  match cs with
  | [] => 0
  | RetryTask _ :: cs => S (retries cs)
  | _ :: cs => retries cs
  end.

(** Every queued task is PENDING, and queued once. *)
Definition pending_inv (w : World) : Prop :=
  NoDup (the_queue w)
  ∧ ∀ b, b ∈ the_queue w →
         ∃ tk, objs w !! b = Some tk ∧ Task.status tk = PENDING.

(** Every registered task that is PENDING is queued. *)
Definition waiting_inv (w : World) : Prop :=
  ∀ id a tk, get_task id w = Some a → objs w !! a = Some tk →
             Task.status tk = PENDING → a ∈ the_queue w.

(** Every task object carries a registered id, and every stored result is
    one that [Task.execute] made for the registered id it is stored
    under. *)
Definition results_inv (w : World) : Prop :=
  (∀ a tk, objs w !! a = Some tk → is_Some (get_task (Task.task_id tk) w))
  ∧ ∀ id r, get_result id w = Some r →
            TaskResult.task_id r = id
            ∧ TaskResult.status r ∈ [COMPLETED; FAILED]
            ∧ (∃ t0 t1, TaskResult.start_time r = Some t0
                        ∧ TaskResult.end_time r = Some t1
                        ∧ TaskResult.execution_time r = Some (t1 - t0))
            ∧ is_Some (get_task id w).

(** The task registered as [id], at address [a], is out of the queue and
    not FAILED: it is neither waiting for a worker nor open to a retry. *)
Definition retired (id : string) (a : addr) (w : World) : Prop :=
  get_task id w = Some a
  ∧ (a ∉ the_queue w)
  ∧ ∃ tk, objs w !! a = Some tk ∧ Task.status tk ≠ FAILED.

(** The task [tk], at address [a], has been run: its status and the
    result stored under its id are the ones that the outcome of its wrapped
    function gives.  (With an exception that is not an [Exception] the
    task is left RUNNING.) *)
Definition executed (tk : Task.t) (a : addr) (w : World) : Prop :=
  match call (Task.func tk) (Task.args tk) (Task.kwargs tk) with
  | Returns v =>
      Task.status <$> objs w !! a = Some COMPLETED
      ∧ ∃ r, get_task_result (Task.task_id tk) w = Some r
             ∧ TaskResult.status r = COMPLETED ∧ TaskResult.result r = v
  | Raises e =>
      if isinstance_Exception e then
        Task.status <$> objs w !! a = Some FAILED
        ∧ ∃ r, get_task_result (Task.task_id tk) w = Some r
               ∧ TaskResult.status r = FAILED
               ∧ TaskResult.error r = Some (str e)
      else Task.status <$> objs w !! a = Some RUNNING
  end.

(** A turn of one of the first [n] workers, at a clock reading not before
    [now]. *)
Definition works_from (n : nat) (now : datetime) (t : turn) : Prop :=
  match t with
  | Works i t_now _ _ => (i < n)%nat ∧ now ≤ t_now
  | _ => False
  end.

(** The worker of a [Works] turn exists. *)
Definition worker_exists (n : nat) (t : turn) : Prop :=
  match t with
  | Works i _ _ _ => (i < n)%nat
  | _ => True
  end.

(** * Properties *)

Ltac Zify.zify_post_hook ::= Z.to_euclidean_division_equations.

(** ** heapq keeps the heap invariant *)

Lemma parent_lt (j : nat) : (0 < j)%nat → (parent j < j)%nat.
Proof. unfold parent. lia. Qed.

Lemma parent_child (c p : nat) :
  (0 < c)%nat → parent c = p ↔ (c = 2 * p + 1 ∨ c = 2 * p + 2)%nat.
Proof. unfold parent. lia. Qed.

Lemma desc_le (s i : nat) : desc s i → (s ≤ i)%nat.
Proof.
  induction 1 as [|c Hc _ IH]; [lia|].
  pose proof (parent_lt c Hc). lia.
Qed.

Lemma desc_parent (s i : nat) :
  desc s i → (s < i)%nat → (0 < i)%nat ∧ desc s (parent i).
Proof. destruct 1; [lia | auto]. Qed.

Lemma desc_0 (i : nat) : desc 0 i.
Proof.
  induction (lt_wf i) as [i _ IH].
  destruct (decide (i = 0%nat)) as [->|Hi]; [constructor|].
  apply desc_child; [lia|]. apply IH, parent_lt. lia.
Qed.

Lemma list_insert_lookup_swap {A} (l : list A) (i j : nat) (x y : A) :
  l !! i = Some x → l !! j = Some y → <[i := y]> (<[j := x]> l) ≡ₚ l.
Proof.
  intros Hi Hj. apply Permutation_inj.
  rewrite !length_insert. split; [done|].
  exists (λ k, if decide (k = i) then j else if decide (k = j) then i else k).
  split.
  - intros a b Hab. repeat case_decide; lia.
  - intros k.
    pose proof (lookup_lt_Some _ _ _ Hi). pose proof (lookup_lt_Some _ _ _ Hj).
    rewrite !list_lookup_insert, !length_insert.
    repeat case_decide; subst; try lia; congruence.
Qed.

(** The loops are given as many turns as they can take: one more changes
    nothing. *)
Lemma _siftdown_loop_fuel {A} (lt : A → A → bool) fuel (heap : list A) s pos x :
  (pos ≤ fuel)%nat →
  heapq._siftdown_loop lt (S fuel) heap s pos x
  = heapq._siftdown_loop lt fuel heap s pos x.
Proof.
  revert heap pos. induction fuel as [|fuel IH]; intros heap pos Hf.
  { cbn [heapq._siftdown_loop]. case_decide; [lia|done]. }
  change (heapq._siftdown_loop lt (S (S fuel)) heap s pos x) with
    (if decide (s < pos)%nat then
       match heap !! parent pos with
       | Some p =>
           if lt x p
           then heapq._siftdown_loop lt (S fuel) (<[pos := p]> heap) s (parent pos) x
           else <[pos := x]> heap
       | None => <[pos := x]> heap
       end
     else <[pos := x]> heap).
  change (heapq._siftdown_loop lt (S fuel) heap s pos x) with
    (if decide (s < pos)%nat then
       match heap !! parent pos with
       | Some p =>
           if lt x p
           then heapq._siftdown_loop lt fuel (<[pos := p]> heap) s (parent pos) x
           else <[pos := x]> heap
       | None => <[pos := x]> heap
       end
     else <[pos := x]> heap).
  case_decide as Hs; [|done].
  destruct (heap !! parent pos) as [p|]; [|done].
  destruct (lt x p); [|done].
  apply IH. pose proof (parent_lt pos). lia.
Qed.

Lemma _siftup_loop_fuel {A} (lt : A → A → bool) fuel (heap : list A)
    endpos pos childpos :
  (endpos ≤ childpos + fuel)%nat →
  heapq._siftup_loop lt (S fuel) heap endpos pos childpos
  = heapq._siftup_loop lt fuel heap endpos pos childpos.
Proof.
  revert heap pos childpos.
  induction fuel as [|fuel IH]; intros heap pos childpos Hf.
  { cbn [heapq._siftup_loop]. case_decide; [lia|done]. }
  set (c := if decide (childpos + 1 < endpos)%nat then
              match heap !! childpos, heap !! (childpos + 1)%nat with
              | Some l, Some r => if negb (lt l r) then (childpos + 1)%nat else childpos
              | _, _ => childpos
              end
            else childpos).
  change (heapq._siftup_loop lt (S (S fuel)) heap endpos pos childpos) with
    (if decide (childpos < endpos)%nat then
       match heap !! c with
       | Some cv =>
           heapq._siftup_loop lt (S fuel) (<[pos := cv]> heap) endpos c (2 * c + 1)
       | None => (heap, pos)
       end
     else (heap, pos)).
  change (heapq._siftup_loop lt (S fuel) heap endpos pos childpos) with
    (if decide (childpos < endpos)%nat then
       match heap !! c with
       | Some cv =>
           heapq._siftup_loop lt fuel (<[pos := cv]> heap) endpos c (2 * c + 1)
       | None => (heap, pos)
       end
     else (heap, pos)).
  case_decide as Hc; [|done].
  destruct (heap !! c) as [cv|]; [|done].
  apply IH.
  assert (childpos ≤ c)%nat; [|lia].
  unfold c. case_decide; [|done].
  destruct (heap !! childpos), (heap !! (childpos + 1)%nat); try done.
  destruct (negb _); lia.
Qed.

Section heapq_facts.
Context {A : Type} (lt : A → A → bool).
Hypothesis lt_asym : ∀ a b, lt a b = true → lt b a = false.
Hypothesis lt_negtrans :
  ∀ a b c, lt b a = false → lt c b = false → lt c a = false.

Lemma lt_irrefl a : lt a a = false.
Proof using lt_asym.
  destruct (lt a a) eqn:E; [|done].
  pose proof (lt_asym _ _ E). congruence.
Qed.

Lemma ole_trans x b z : ole lt x (Some b) → ole lt (Some b) z → ole lt x z.
Proof using lt_negtrans. destruct x, z; simpl; eauto. Qed.

Lemma ole_lt a b : lt a b = true → ole lt (Some a) (Some b).
Proof using lt_asym. simpl. apply lt_asym. Qed.

(** Moving the item up by one level keeps the invariant of [_siftdown]. *)
Lemma up_inv_swap s pos x p (v v1 : list A) :
  (s < pos)%nat → desc s pos →
  v !! pos = Some x → v !! parent pos = Some p →
  v1 !! pos = Some p → v1 !! parent pos = Some x →
  (∀ k, k ≠ pos → k ≠ parent pos → v1 !! k = v !! k) →
  lt x p = true →
  up_inv lt s pos v → up_inv lt s (parent pos) v1.
Proof using lt_asym lt_negtrans.
  intros Hs Hd Hvp Hvpp Hv1p Hv1pp Hsame Hlt [H1 H2].
  destruct (desc_parent _ _ Hd Hs) as [Hpos Hdp].
  pose proof (parent_lt pos Hpos) as Hpl.
  split.
  - intros j Hj Hsj Hjpp.
    destruct (decide (j = pos)) as [->|Hjp].
    { rewrite Hv1pp, Hv1p. by apply ole_lt. }
    pose proof (parent_lt j Hj) as Hjl.
    destruct (decide (parent j = parent pos)) as [E|NE].
    { specialize (H1 j Hj Hsj Hjp). rewrite E, Hvpp in H1.
      rewrite E, Hv1pp, Hsame by done.
      eapply ole_trans; [by apply ole_lt | exact H1]. }
    destruct (decide (parent j = pos)) as [E'|NE'].
    { specialize (H2 j Hj E' Hs). rewrite Hvpp in H2.
      rewrite E', Hv1p, Hsame by done. exact H2. }
    rewrite !Hsame by done. by apply H1.
  - intros c Hc Hcp Hspp.
    destruct (desc_parent _ _ Hdp Hspp) as [Hpp Hdpp].
    pose proof (parent_lt _ Hpp) as Hppl.
    pose proof (desc_le _ _ Hdpp) as Hle.
    assert (ole lt (v !! parent (parent pos)) (Some p)) as Hg.
    { rewrite <- Hvpp. apply H1; [done|done|lia]. }
    rewrite (Hsame (parent (parent pos))) by lia.
    destruct (decide (c = pos)) as [->|Hcpos].
    { by rewrite Hv1p. }
    pose proof (parent_lt c Hc).
    rewrite Hsame by lia.
    eapply ole_trans; [exact Hg|].
    rewrite <- Hvpp, <- Hcp. apply H1; [done|lia|done].
Qed.

Lemma up_inv_done s pos (v : list A) :
  up_inv lt s pos v →
  pos = s ∨ ole lt (v !! parent pos) (v !! pos) →
  heap_from lt s v.
Proof.
  intros [H1 _] Hex j Hj Hsj.
  destruct (decide (j = pos)) as [->|Hjp]; [|by apply H1].
  destruct Hex as [->|Hex]; [|done].
  pose proof (parent_lt s Hj). lia.
Qed.

Lemma _siftdown_loop_ok fuel (heap : list A) s pos x :
  (pos ≤ fuel)%nat → (pos < length heap)%nat → desc s pos →
  up_inv lt s pos (<[pos := x]> heap) →
  heap_from lt s (heapq._siftdown_loop lt fuel heap s pos x)
  ∧ heapq._siftdown_loop lt fuel heap s pos x ≡ₚ <[pos := x]> heap.
Proof using lt_asym lt_negtrans.
  revert heap pos.
  induction fuel as [|fuel IH]; intros heap pos Hf Hlen Hd Hinv;
    cbn [heapq._siftdown_loop].
  { split; [|done]. eapply up_inv_done; [done|].
    left. apply desc_le in Hd. lia. }
  case_decide as Hs; cycle 1.
  { split; [|done]. eapply up_inv_done; [done|].
    left. apply desc_le in Hd. lia. }
  destruct (desc_parent _ _ Hd Hs) as [Hpos Hdp].
  pose proof (parent_lt pos Hpos) as Hpl.
  change ((pos - 1) / 2)%nat with (parent pos).
  destruct (heap !! parent pos) as [p|] eqn:Hp; cycle 1.
  { apply lookup_ge_None in Hp. lia. }
  destruct (lt x p) eqn:Hlt; cycle 1.
  { split; [|done]. eapply up_inv_done; [done|]. right.
    rewrite list_lookup_insert_ne by lia.
    rewrite list_lookup_insert_eq by done. by rewrite Hp. }
  destruct (IH (<[pos := p]> heap) (parent pos)) as [IH1 IH2].
  - lia.
  - rewrite length_insert. lia.
  - done.
  - eapply (up_inv_swap s pos x p (<[pos := x]> heap)); try done.
    + by rewrite list_lookup_insert_eq.
    + by rewrite list_lookup_insert_ne by lia.
    + rewrite list_lookup_insert_ne by lia.
      by rewrite list_lookup_insert_eq.
    + rewrite list_lookup_insert_eq; [done|]. rewrite length_insert. lia.
    + intros k Hk1 Hk2. by rewrite !list_lookup_insert_ne.
  - split; [done|]. rewrite IH2.
    rewrite <- (list_insert_insert_eq heap pos p x).
    apply list_insert_lookup_swap.
    + rewrite list_lookup_insert_ne by lia. done.
    + by rewrite list_lookup_insert_eq.
Qed.

Lemma ole_None_r (x : option A) : ole lt x None.
Proof. by destruct x. Qed.

(** Moving the smaller child up keeps the invariant of [_siftup]. *)
Lemma down_inv_swap s pos c cv (v v1 : list A) :
  (0 < c)%nat → parent c = pos →
  v !! c = Some cv → v1 !! pos = Some cv →
  (∀ k, k ≠ pos → k ≠ c → v1 !! k = v !! k) →
  (∀ j, (0 < j)%nat → parent j = pos → j ≠ c → ole lt (Some cv) (v !! j)) →
  down_inv lt s pos v → down_inv lt s c v1.
Proof.
  intros Hc Hcp Hvc Hv1p Hsame Hmin [H1 H2].
  pose proof (parent_lt c Hc) as Hcl.
  split.
  - intros j Hj Hsj Hjc Hpjc.
    pose proof (parent_lt j Hj) as Hjl.
    destruct (decide (j = pos)) as [->|Hjp].
    { rewrite Hv1p, Hsame by lia.
      rewrite <- Hvc. apply H2; [done|done|lia]. }
    destruct (decide (parent j = pos)) as [E|NE].
    { rewrite E, Hv1p, Hsame by done. by apply Hmin. }
    rewrite !Hsame by done. by apply H1.
  - intros g Hg Hgc Hsc.
    pose proof (parent_lt g Hg).
    rewrite Hcp, Hv1p, Hsame by lia.
    rewrite <- Hvc, <- Hgc. apply H1; lia.
Qed.

Lemma down_inv_leaf s pos (v : list A) :
  (length v ≤ 2 * pos + 1)%nat → down_inv lt s pos v → up_inv lt s pos v.
Proof.
  intros Hleaf [H1 H2]. split; [|done].
  intros j Hj Hsj Hjp.
  destruct (decide (parent j = pos)) as [E|NE]; [|by apply H1].
  apply parent_child in E; [|done].
  rewrite (proj2 (lookup_ge_None v j)) by lia. apply ole_None_r.
Qed.

Lemma _siftup_loop_ok fuel (heap : list A) endpos s pos x :
  endpos = length heap →
  (endpos ≤ pos + fuel)%nat → (pos < endpos)%nat → desc s pos →
  down_inv lt s pos (<[pos := x]> heap) →
  ∃ heap' pos',
    heapq._siftup_loop lt fuel heap endpos pos (2 * pos + 1) = (heap', pos')
    ∧ (pos' < endpos)%nat ∧ length heap' = endpos ∧ desc s pos'
    ∧ up_inv lt s pos' (<[pos' := x]> heap')
    ∧ <[pos' := x]> heap' ≡ₚ <[pos := x]> heap.
Proof using lt_asym.
  revert heap pos.
  induction fuel as [|fuel IH]; intros heap pos Hend Hf Hlen Hd Hinv;
    cbn [heapq._siftup_loop]; [lia|].
  case_decide as Hchild; cycle 1.
  { exists heap, pos. split_and!; try done.
    apply down_inv_leaf; [|done]. rewrite length_insert. lia. }
  assert (∀ c cv,
    (c = 2 * pos + 1 ∨ c = 2 * pos + 2)%nat → heap !! c = Some cv →
    (∀ j, (0 < j)%nat → parent j = pos → j ≠ c → ole lt (Some cv) (heap !! j)) →
    ∃ heap' pos',
      heapq._siftup_loop lt fuel (<[pos := cv]> heap) endpos c (2 * c + 1)
        = (heap', pos')
      ∧ (pos' < endpos)%nat ∧ length heap' = endpos ∧ desc s pos'
      ∧ up_inv lt s pos' (<[pos' := x]> heap')
      ∧ <[pos' := x]> heap' ≡ₚ <[pos := x]> heap) as Hstep.
  { intros c cv Hc Hcv Hmin.
    assert (0 < c)%nat as Hc0 by lia.
    assert (parent c = pos) as Hcp by (by apply parent_child).
    pose proof (lookup_lt_Some _ _ _ Hcv) as Hclen.
    destruct (IH (<[pos := cv]> heap) c) as (heap' & pos' & E & ? & ? & ? & ? & HP).
    - by rewrite length_insert.
    - lia.
    - lia.
    - apply desc_child; [done|]. by rewrite Hcp.
    - eapply (down_inv_swap s pos c cv (<[pos := x]> heap)); try done.
      + by rewrite list_lookup_insert_ne by lia.
      + rewrite list_lookup_insert_ne by lia.
        rewrite list_lookup_insert_eq; [done|lia].
      + intros k Hk1 Hk2. by rewrite !list_lookup_insert_ne.
      + intros j Hj Hjp Hjc. apply parent_child in Hjp as Hjp'; [|done].
        rewrite list_lookup_insert_ne by lia. by apply Hmin.
    - exists heap', pos'. split_and!; try done.
      rewrite HP. rewrite <- (list_insert_insert_eq heap pos cv x).
      apply list_insert_lookup_swap.
      + by rewrite list_lookup_insert_ne by lia.
      + rewrite list_lookup_insert_eq; [done|lia]. }
  destruct (lookup_lt_is_Some_2 heap (2 * pos + 1)) as [l Hl]; [lia|].
  case_decide as Hright; cycle 1.
  { rewrite Hl. apply Hstep; [lia|done|].
    intros j Hj Hjp Hjc. apply parent_child in Hjp; [|done].
    rewrite (proj2 (lookup_ge_None heap j)) by lia. apply ole_None_r. }
  destruct (lookup_lt_is_Some_2 heap (2 * pos + 1 + 1)) as [r Hr]; [lia|].
  rewrite Hl, Hr.
  destruct (lt l r) eqn:Hlr; cbn [negb].
  - rewrite Hl. apply Hstep; [lia|done|].
    intros j Hj Hjp Hjc. apply parent_child in Hjp; [|done].
    replace j with (2 * pos + 1 + 1)%nat by lia.
    rewrite Hr. by apply ole_lt.
  - rewrite Hr. apply Hstep; [lia|done|].
    intros j Hj Hjp Hjc. apply parent_child in Hjp; [|done].
    replace j with (2 * pos + 1)%nat by lia.
    by rewrite Hl.
Qed.

Lemma heap_from_ge s (heap : list A) :
  (length heap ≤ 2 * s + 1)%nat → heap_from lt s heap.
Proof.
  intros Hlen j Hj Hsj. unfold parent in Hsj.
  rewrite (proj2 (lookup_ge_None heap j)) by lia. apply ole_None_r.
Qed.

Lemma _siftup_ok (heap : list A) pos :
  heap_from lt (S pos) heap →
  heap_from lt pos (heapq._siftup lt heap pos)
  ∧ heapq._siftup lt heap pos ≡ₚ heap.
Proof using lt_asym lt_negtrans.
  intros Hh. unfold heapq._siftup.
  destruct (heap !! pos) as [x|] eqn:Hx; cycle 1.
  { split; [|done]. apply lookup_ge_None in Hx. apply heap_from_ge. lia. }
  pose proof (lookup_lt_Some _ _ _ Hx) as Hlen.
  destruct (_siftup_loop_ok (length heap) heap (length heap) pos pos x)
    as (heap' & pos' & -> & Hpos' & Hlen' & Hd & Hinv & HP);
    [done|lia|done|constructor| |].
  { rewrite list_insert_id by done. split.
    - intros j Hj Hsj Hjp Hpj. apply Hh; [done|lia].
    - intros; lia. }
  rewrite (list_insert_id heap pos x) in HP by done.
  unfold heapq._siftdown.
  rewrite list_lookup_insert_eq by lia.
  destruct (_siftdown_loop_ok pos' (<[pos' := x]> heap') pos pos' x)
    as [H1 H2]; [done|by rewrite length_insert; lia|done| |].
  { by rewrite list_insert_insert_eq. }
  split; [done|]. by rewrite H2, list_insert_insert_eq.
Qed.

Lemma heappush_ok (heap : list A) item :
  heap_ok lt heap →
  heap_ok lt (heapq.heappush lt heap item)
  ∧ heapq.heappush lt heap item ≡ₚ item :: heap.
Proof using lt_asym lt_negtrans.
  intros Hh. unfold heapq.heappush, heapq._siftdown.
  rewrite length_app. cbn [length].
  replace (length heap + 1 - 1)%nat with (length heap) by lia.
  rewrite lookup_app_r, Nat.sub_diag by done. cbn [lookup list_lookup].
  destruct (_siftdown_loop_ok (length heap) (heap ++ [item]) 0 (length heap) item)
    as [H1 H2]; [done|rewrite length_app; simpl; lia|apply desc_0| |].
  { rewrite list_insert_id; cycle 1.
    { by rewrite lookup_app_r, Nat.sub_diag. }
    split.
    - intros j Hj _ Hjl. pose proof (parent_lt j Hj).
      destruct (decide (j < length heap)%nat).
      + rewrite !lookup_app_l by lia. by apply Hh; [|lia].
      + rewrite (proj2 (lookup_ge_None (heap ++ [item]) j)); [apply ole_None_r|].
        rewrite length_app. simpl. lia.
    - intros c Hc Hcp _. apply parent_child in Hcp; [|done].
      rewrite (proj2 (lookup_ge_None (heap ++ [item]) c)); [apply ole_None_r|].
      rewrite length_app. simpl. lia. }
  split; [done|]. rewrite H2, list_insert_id.
  - by rewrite Permutation_app_comm.
  - by rewrite lookup_app_r, Nat.sub_diag.
Qed.

Lemma heap_root_min (heap : list A) m :
  heap_ok lt heap → heap !! 0%nat = Some m → ∀ y, y ∈ heap → lt y m = false.
Proof using lt_asym lt_negtrans.
  intros Hh H0 y [i Hi]%list_elem_of_lookup. revert y Hi.
  induction (lt_wf i) as [i _ IH]; intros y Hi.
  destruct (decide (i = 0%nat)) as [->|Hne].
  { rewrite H0 in Hi. injection Hi as ->. apply lt_irrefl. }
  assert (0 < i)%nat as Hi0 by lia.
  pose proof (parent_lt i Hi0) as Hpl.
  pose proof (lookup_lt_Some _ _ _ Hi) as Hlen.
  destruct (lookup_lt_is_Some_2 heap (parent i)) as [p Hp]; [lia|].
  pose proof (Hh i Hi0 ltac:(lia)) as Hpair.
  rewrite Hp, Hi in Hpair. simpl in Hpair.
  eapply lt_negtrans; [|exact Hpair]. by eapply IH.
Qed.

Lemma heappop_ok (heap : list A) :
  heap_ok lt heap → heap ≠ [] →
  ∃ m heap',
    heapq.heappop lt heap = Some (m, heap')
    ∧ heap_ok lt heap' ∧ heap ≡ₚ m :: heap'
    ∧ ∀ y, y ∈ heap → lt y m = false.
Proof using lt_asym lt_negtrans.
  intros Hh Hne. destruct heap as [|r heap0] using rev_ind; [done|]. clear IHheap0.
  rename r into lastelt.
  unfold heapq.heappop. rewrite last_snoc, removelast_last.
  destruct heap0 as [|r l].
  { exists lastelt, []. split_and!; [done| |done|].
    - intros j Hj _. rewrite lookup_nil. apply ole_None_r.
    - intros y ->%list_elem_of_singleton. apply lt_irrefl. }
  cbn [insert list_insert].
  destruct (_siftup_ok (lastelt :: l) 0) as [H1 H2].
  { intros j Hj Hs. pose proof (parent_lt j Hj).
    destruct j as [|j]; [lia|]. destruct (parent (S j)) as [|pj] eqn:Epj; [lia|].
    simpl.
    destruct (decide (S j < length (r :: l))%nat) as [Hlt|Hge].
    - specialize (Hh (S j) Hj ltac:(lia)). rewrite Epj in Hh.
      rewrite !lookup_app_l in Hh by (simpl in *; lia). exact Hh.
    - rewrite (proj2 (lookup_ge_None l j)) by (simpl in *; lia).
      apply ole_None_r. }
  exists r, (heapq._siftup lt (lastelt :: l) 0). split_and!; [done|done| |].
  - rewrite H2. cbn [app]. constructor. by rewrite Permutation_app_comm.
  - by apply heap_root_min.
Qed.

Lemma heapify_loop_ok n (x : list A) :
  heap_from lt n x →
  heap_ok lt (heapq.heapify_loop lt n x) ∧ heapq.heapify_loop lt n x ≡ₚ x.
Proof using lt_asym lt_negtrans.
  revert x. induction n as [|n IH]; intros x Hx; cbn [heapq.heapify_loop]; [done|].
  destruct (_siftup_ok x n Hx) as [H1 H2].
  destruct (IH _ H1) as [H3 H4]. split; [done|]. by rewrite H4.
Qed.

Lemma heapify_ok (x : list A) :
  heap_ok lt (heapq.heapify lt x) ∧ heapq.heapify lt x ≡ₚ x.
Proof using lt_asym lt_negtrans.
  apply heapify_loop_ok, heap_from_ge. lia.
Qed.
End heapq_facts.

(** ** The comparison of tasks is a strict weak order *)

Ltac Zbool :=
  repeat match goal with
         | H : context [Z.eqb ?a ?b] |- _ => destruct (Z.eqb_spec a b)
         | |- context [Z.eqb ?a ?b] => destruct (Z.eqb_spec a b)
         | H : context [Z.ltb ?a ?b] |- _ => destruct (Z.ltb_spec a b)
         | |- context [Z.ltb ?a ?b] => destruct (Z.ltb_spec a b)
         end; simpl in *.

Lemma priority_value_inj p q : priority_value p = priority_value q → p = q.
Proof. by destruct p, q. Qed.

Lemma Task_lt_asym x y : Task.__lt__ x y = true → Task.__lt__ y x = false.
Proof. unfold Task.__lt__. Zbool; intros; try done; lia. Qed.

Lemma Task_lt_negtrans x y z :
  Task.__lt__ y x = false → Task.__lt__ z y = false → Task.__lt__ z x = false.
Proof. unfold Task.__lt__. Zbool; intros; try done; lia. Qed.

Lemma Task_lt_false x y : Task.__lt__ y x = false ↔ dispatch_order x y.
Proof.
  unfold Task.__lt__, dispatch_order.
  destruct (Z.eqb_spec (priority_value (Task.priority y))
              (priority_value (Task.priority x))) as [E|NE]; simpl.
  - destruct (Z.ltb_spec (Task.created_at y) (Task.created_at x));
      split; intros Hxy; try done.
    + destruct Hxy as [?|[_ ?]]; lia.
    + right. split; [by apply priority_value_inj|lia].
  - destruct (Z.ltb_spec (priority_value (Task.priority x))
                (priority_value (Task.priority y)));
      split; intros Hxy; try done.
    + destruct Hxy as [?|[E ?]]; [lia|]. by rewrite E in NE.
    + left. lia.
Qed.

Lemma lt_at_asym o a b : lt_at o a b = true → lt_at o b a = false.
Proof.
  unfold lt_at. destruct (o !! a), (o !! b); try done. apply Task_lt_asym.
Qed.

Lemma lt_at_negtrans o a b c :
  lt_at o b a = false → lt_at o c b = false → lt_at o c a = false.
Proof.
  unfold lt_at. destruct (o !! a), (o !! b), (o !! c); try done.
  apply Task_lt_negtrans.
Qed.

Lemma lt_at_false o a b x y :
  o !! a = Some x → o !! b = Some y →
  lt_at o b a = false ↔ dispatch_order x y.
Proof. intros Ha Hb. unfold lt_at. rewrite Ha, Hb. apply Task_lt_false. Qed.

(** ** Object stores *)

Lemma same_identity_refl x : same_identity x x.
Proof. by repeat split. Qed.

Lemma same_identity_trans x y z :
  same_identity x y → same_identity y z → same_identity x z.
Proof. unfold same_identity. intros; split_and!; intuition congruence. Qed.

Lemma evolves_refl o : evolves o o.
Proof. split; [done|]. eauto using same_identity_refl. Qed.

Lemma evolves_trans o1 o2 o3 : evolves o1 o2 → evolves o2 o3 → evolves o1 o3.
Proof.
  intros [L1 H1] [L2 H2]. split; [lia|]. intros a x Hx.
  destruct (H1 _ _ Hx) as (y & Hy & ?). destruct (H2 _ _ Hy) as (z & Hz & ?).
  eauto using same_identity_trans.
Qed.

#[global] Instance evolves_preorder : PreOrder evolves.
Proof. split; [exact evolves_refl | exact evolves_trans]. Qed.

Lemma evolves_alter f a o :
  (∀ x, same_identity x (f x)) → evolves o (alter f a o).
Proof.
  intros Hf. split; [by rewrite length_alter|]. intros b x Hx.
  destruct (decide (a = b)) as [->|Hne].
  - exists (f x). by rewrite list_lookup_alter_eq, Hx.
  - exists x. rewrite list_lookup_alter_ne by done. eauto using same_identity_refl.
Qed.

Lemma evolves_insert a x y o :
  o !! a = Some x → same_identity x y → evolves o (<[a := y]> o).
Proof.
  intros Ha Hxy. split; [by rewrite length_insert|]. intros b z Hz.
  destruct (decide (a = b)) as [->|Hne].
  - exists y. rewrite list_lookup_insert_eq by eauto using lookup_lt_Some.
    split; [done|]. congruence.
  - exists z. rewrite list_lookup_insert_ne by done. eauto using same_identity_refl.
Qed.

Lemma evolves_app o x : evolves o (o ++ [x]).
Proof.
  split; [rewrite length_app; lia|]. intros a y Hy. exists y.
  rewrite lookup_app_l by eauto using lookup_lt_Some. eauto using same_identity_refl.
Qed.

Lemma lt_at_evolves o o' a b :
  evolves o o' → (a < length o)%nat → (b < length o)%nat →
  lt_at o' a b = lt_at o a b.
Proof.
  intros [_ He] Ha Hb.
  destruct (lookup_lt_is_Some_2 o a Ha) as [x Hx].
  destruct (lookup_lt_is_Some_2 o b Hb) as [y Hy].
  destruct (He _ _ Hx) as (x' & Hx' & Ix). destruct (He _ _ Hy) as (y' & Hy' & Iy).
  unfold lt_at. rewrite Hx, Hy, Hx', Hy'. unfold Task.__lt__.
  destruct Ix as (_ & _ & _ & _ & -> & _ & _ & -> & _).
  by destruct Iy as (_ & _ & _ & _ & -> & _ & _ & -> & _).
Qed.

Lemma heap_ok_ext {A} (lt lt' : A → A → bool) (h : list A) :
  (∀ a b, a ∈ h → b ∈ h → lt a b = lt' a b) → heap_ok lt h → heap_ok lt' h.
Proof.
  intros Hext Hh j Hj Hs. specialize (Hh j Hj Hs).
  destruct (h !! parent j) as [p|] eqn:Hp, (h !! j) as [x|] eqn:Hx; simpl in *;
    try done.
  rewrite <- Hext; eauto using list_elem_of_lookup_2.
Qed.

Lemma heap_inv_evolves o o' q : evolves o o' → heap_inv o q → heap_inv o' q.
Proof.
  intros He [Hh Hv]. split.
  - eapply heap_ok_ext; [|done]. intros a b Ha Hb. symmetry.
    rewrite Forall_forall in Hv. apply lt_at_evolves; auto.
  - eapply Forall_impl; [done|]. intros a Ha. destruct He. simpl in *. lia.
Qed.

Lemma heap_inv_nil o : heap_inv o [].
Proof.
  split; [|constructor]. intros j _ _. rewrite lookup_nil. by destruct (_ !! _).
Qed.

Lemma heap_inv_push o q a :
  heap_inv o q → (a < length o)%nat →
  heap_inv o (heapq.heappush (lt_at o) q a)
  ∧ heapq.heappush (lt_at o) q a ≡ₚ a :: q.
Proof.
  intros [Hh Hv] Ha.
  destruct (heappush_ok (lt_at o) (lt_at_asym o) (lt_at_negtrans o) q a Hh)
    as [H1 H2].
  split; [split|]; [done| |done]. rewrite H2. by constructor.
Qed.

Lemma heap_inv_pop o q :
  heap_inv o q → q ≠ [] →
  ∃ m q', heapq.heappop (lt_at o) q = Some (m, q')
    ∧ heap_inv o q' ∧ q ≡ₚ m :: q' ∧ q !! 0%nat = Some m
    ∧ ∀ b, b ∈ q → lt_at o b m = false.
Proof.
  intros [Hh Hv] Hne.
  destruct (heappop_ok (lt_at o) (lt_at_asym o) (lt_at_negtrans o) q Hh Hne)
    as (m & q' & E & H1 & H2 & H3).
  exists m, q'. split_and!; try done.
  - rewrite H2 in Hv. by inversion Hv.
  - unfold heapq.heappop in E. destruct (last q) as [x|] eqn:Hl; [|done].
    apply last_Some in Hl as [l ->]. rewrite removelast_last in E.
    destruct l; by injection E as -> _.
Qed.

Lemma heap_inv_heapify o q :
  Forall (λ a, a < length o)%nat q →
  heap_inv o (heapq.heapify (lt_at o) q)
  ∧ heapq.heapify (lt_at o) q ≡ₚ q.
Proof.
  intros Hv.
  destruct (heapify_ok (lt_at o) (lt_at_asym o) (lt_at_negtrans o) q) as [H1 H2].
  split; [split|]; [done| |done]. by rewrite H2.
Qed.

(** ** get_next_task *)

Lemma get_next_task_loop_S fuel now o q :
  get_next_task_loop (S fuel) now o q =
  match heapq.heappop (lt_at o) q with
  | None => (None, q)
  | Some (task, queue) =>
      match o !! task with
      | Some tk =>
          if Task.is_ready now tk then (Some task, queue)
          else if bool_decide (Task.status tk = PENDING)
               then (None, heapq.heappush (lt_at o) queue task)
               else get_next_task_loop fuel now o queue
      | None => get_next_task_loop fuel now o queue
      end
  end.
Proof. done. Qed.

Lemma get_next_task_loop_ok fuel now o q r q' :
  heap_inv o q → get_next_task_loop fuel now o q = (r, q') →
  heap_inv o q'
  ∧ match r with
    | Some a => a :: q' ⊆+ q
                ∧ (∃ tk, o !! a = Some tk ∧ Task.is_ready now tk = true)
                ∧ ∀ b, b ∈ q' → lt_at o b a = false
    | None => q' ⊆+ q
    end.
Proof.
  revert q. induction fuel as [|fuel IH]; intros q Hq E.
  { injection E as <- <-. done. }
  rewrite get_next_task_loop_S in E.
  destruct (decide (q = [])) as [->|Hne].
  { injection E as <- <-. done. }
  destruct (heap_inv_pop o q Hq Hne) as (m & q1 & Hpop & Hq1 & HP & _ & Hmin).
  rewrite Hpop in E.
  assert (q1 ⊆+ q) as Hsub by (rewrite HP; by apply submseteq_cons).
  destruct (o !! m) as [tk|] eqn:Hm; cycle 1.
  { destruct (IH _ Hq1 E) as [H1 H2]. split; [done|].
    destruct r; [|by etrans]. destruct H2 as (? & ? & ?). split_and!; [by etrans|done..]. }
  destruct (Task.is_ready now tk) eqn:Hready.
  { injection E as <- <-. split; [done|]. split_and!.
    - by rewrite HP.
    - eauto.
    - intros b Hb. apply Hmin. rewrite HP. by right. }
  case_bool_decide as Hst.
  { injection E as <- <-.
    destruct (heap_inv_push o q1 m Hq1) as [H1 H2]; [by eapply lookup_lt_Some|].
    split; [done|]. by rewrite H2, HP. }
  destruct (IH _ Hq1 E) as [H1 H2]. split; [done|].
  destruct r; [|by etrans]. destruct H2 as (? & ? & ?). split_and!; [by etrans|done..].
Qed.

(** [len(self._queue)] turns of the loop are enough: one more changes
    nothing. *)
Lemma get_next_task_loop_fuel fuel now o q :
  heap_inv o q → (length q ≤ fuel)%nat →
  get_next_task_loop (S fuel) now o q = get_next_task_loop fuel now o q.
Proof.
  revert q. induction fuel as [|fuel IH]; intros q Hq Hlen.
  { destruct q; [done|simpl in Hlen; lia]. }
  rewrite (get_next_task_loop_S (S fuel)), (get_next_task_loop_S fuel).
  destruct (decide (q = [])) as [->|Hne]; [done|].
  destruct (heap_inv_pop o q Hq Hne) as (m & q1 & Hpop & Hq1 & HP & _ & _).
  rewrite Hpop.
  assert (length q1 ≤ fuel)%nat as Hl.
  { apply Permutation_length in HP. simpl in HP. lia. }
  destruct (o !! m); [destruct (Task.is_ready _ _); [done|]; case_bool_decide; [done|]|];
    by apply IH.
Qed.

Lemma get_next_task_objs now w : objs (get_next_task now w).2 = objs w.
Proof. unfold get_next_task. by destruct (get_next_task_loop _ _ _ _). Qed.

Lemma get_next_task_ok now w r w' :
  queue_inv w → get_next_task now w = (r, w') →
  objs w' = objs w ∧ queue_inv w'
  ∧ match r with
    | Some a => a :: the_queue w' ⊆+ the_queue w
                ∧ (∃ tk, objs w !! a = Some tk ∧ Task.is_ready now tk = true)
                ∧ ∀ b, b ∈ the_queue w' → lt_at (objs w) b a = false
    | None => the_queue w' ⊆+ the_queue w
    end.
Proof.
  intros Hq E. unfold get_next_task in E.
  destruct (get_next_task_loop _ _ _ _) as [r0 q'] eqn:El.
  injection E as <- <-.
  destruct (get_next_task_loop_ok _ _ _ _ _ _ Hq El) as [H1 H2].
  split; [done|]. split; [exact H1|]. exact H2.
Qed.

(** With every queued task ready, a call hands out the top of the heap. *)
Lemma get_next_task_ready now w :
  queue_inv w → the_queue w ≠ [] →
  (∀ a, a ∈ the_queue w → ∃ tk, objs w !! a = Some tk ∧ Task.is_ready now tk = true) →
  ∃ a w', get_next_task now w = (Some a, w')
          ∧ the_queue w ≡ₚ a :: the_queue w'.
Proof.
  intros Hq Hne Hready. unfold get_next_task.
  destruct (the_queue w) as [|a0 q0] eqn:Eq; [done|].
  cbn [length]. rewrite get_next_task_loop_S.
  destruct (heap_inv_pop (objs w) (a0 :: q0)) as (m & q1 & Hpop & Hq1 & HP & _ & _).
  { unfold queue_inv in Hq. by rewrite Eq in Hq. }
  { done. }
  rewrite Hpop.
  destruct (Hready m) as (tk & Hm & Hr); [rewrite HP; by left|].
  rewrite Hm, Hr. eexists _, _. split; [done|]. done.
Qed.

(** ** The operations keep the invariants *)

Lemma submit_task_eq now uuid func args priority timeout max_retries
    scheduled_at metadata kwargs w :
  submit_task now uuid func args priority timeout max_retries scheduled_at
    metadata kwargs w =
  let qm := _queue_manager w in
  if Z.of_nat (length (the_queue w)) >=? QueueManager.max_queue_size qm
  then (inl (QueueError (queue_full (QueueManager.max_queue_size qm))), w)
  else if negb (callable func)
  then (inl (ValueError "func must be callable"), w)
  else
    let tk := new_task now uuid func args priority timeout max_retries
                scheduled_at metadata kwargs in
    let o := objs w ++ [tk] in
    match TaskManager._tasks (the_task_manager w) !! uuid with
    | Some _ => (inl (QueueError (task_exists uuid)), with_objs o w)
    | None =>
        (inr uuid,
         mkWorld o
           (QueueManager.mk (QueueManager.max_queue_size qm)
              (heapq.heappush (lt_at o) (the_queue w) (length (objs w)))
              (TaskManager.mk
                 (<[uuid := length (objs w)]> (TaskManager._tasks (the_task_manager w)))
                 (TaskManager._results (the_task_manager w)))
              (QueueManager._running qm))
           (_workers w))
    end.
Proof.
  unfold submit_task, the_queue. cbn zeta.
  destruct (_ >=? _); [done|].
  unfold Task.__init__, Task.__post_init__. cbn [Task.func].
  destruct (callable func); cbn [negb]; [|done].
  destruct scheduled_at as [s|]; cbn [Task.scheduled_at Task.set_scheduled_at];
    unfold add_task; cbn [Task.task_id Task.set_scheduled_at];
    destruct (_ !! uuid); reflexivity.
Qed.

Lemma submit_task_inr now uuid func args priority timeout max_retries
    scheduled_at metadata kwargs w id w1 :
  submit_task now uuid func args priority timeout max_retries scheduled_at
    metadata kwargs w = (inr id, w1) →
  id = uuid ∧ callable func = true
  ∧ Z.of_nat (length (the_queue w)) < QueueManager.max_queue_size (_queue_manager w)
  ∧ TaskManager._tasks (the_task_manager w) !! uuid = None
  ∧ w1 = submitted now uuid func args priority timeout max_retries scheduled_at
           metadata kwargs w.
Proof.
  rewrite submit_task_eq. cbn zeta.
  destruct (Z.geb_spec (Z.of_nat (length (the_queue w)))
              (QueueManager.max_queue_size (_queue_manager w))); [done|].
  destruct (callable func); [|done]. cbn [negb].
  destruct (_ !! uuid) eqn:E; [done|].
  intros [= <- <-]. by split_and!.
Qed.

Lemma can_retry_true tk :
  Task.can_retry tk = true ↔
  Task.status tk = FAILED ∧ Task.retry_count tk < Task.max_retries tk.
Proof.
  unfold Task.can_retry. rewrite andb_true_iff, bool_decide_eq_true, Z.ltb_lt. done.
Qed.

Lemma same_identity_set_status v x : same_identity x (Task.set_status v x).
Proof. by repeat split. Qed.
Lemma same_identity_set_result v x : same_identity x (Task.set_result v x).
Proof. by repeat split. Qed.
Lemma same_identity_set_worker_id v x : same_identity x (Task.set_worker_id v x).
Proof. by repeat split. Qed.
Lemma same_identity_set_retry_count v x : same_identity x (Task.set_retry_count v x).
Proof. by repeat split. Qed.

Lemma same_identity_cancel x : same_identity x (Task.cancel x).
Proof. unfold Task.cancel. case_bool_decide; by repeat split. Qed.

Lemma same_identity_execute_start x : same_identity x (Task.execute_start x).
Proof. by repeat split. Qed.

Lemma same_identity_execute_call t0 t1 x :
  same_identity x (Task.execute_call t0 t1 x).1.
Proof.
  unfold Task.execute_call. destruct (call _ _ _) as [v|e]; [by repeat split|].
  destruct (isinstance_Exception e); by repeat split.
Qed.

Lemma same_identity_reset_for_retry x y :
  Task.reset_for_retry x = inr y → same_identity x y.
Proof.
  unfold Task.reset_for_retry. destruct (negb _); [done|].
  intros [= <-]. by repeat split.
Qed.


Lemma queue_inv_frame w w' :
  evolves (objs w) (objs w') → the_queue w' = the_queue w →
  queue_inv w → queue_inv w'.
Proof. unfold queue_inv. intros He ->. by apply heap_inv_evolves. Qed.

Lemma update_task_status_frame task_id status w :
  let w' := (update_task_status task_id status w).2 in
  evolves (objs w) (objs w') ∧ length (objs w') = length (objs w)
  ∧ _queue_manager w' = _queue_manager w ∧ _workers w' = _workers w.
Proof.
  unfold update_task_status. destruct (_ !! task_id); cbn.
  - split_and!; [|by rewrite length_alter|done..].
    apply evolves_alter, same_identity_set_status.
  - split_and!; [apply evolves_refl|done..].
Qed.

Lemma execute_task_begin_frame i task w :
  let w' := execute_task_begin i task w in
  evolves (objs w) (objs w') ∧ length (objs w') = length (objs w)
  ∧ _queue_manager w' = _queue_manager w.
Proof.
  unfold execute_task_begin.
  destruct (_workers w !! i) as [self|]; [|by split_and!; [apply evolves_refl|..]].
  destruct (objs w !! task) as [tk|]; [|by split_and!; [apply evolves_refl|..]].
  match goal with |- context [update_task_status ?a ?b ?c] =>
    pose proof (update_task_status_frame a b c) as Hu;
    destruct (update_task_status a b c) as [r w1] end.
  cbn in Hu. destruct Hu as (He & Hl & Hq & _). cbn.
  split_and!.
  - etrans; [|apply evolves_alter, same_identity_execute_start].
    etrans; [|exact He]. apply evolves_alter, same_identity_set_worker_id.
  - by rewrite length_alter, Hl, length_alter.
  - done.
Qed.

Lemma execute_task_end_frame i task t0 t1 w :
  let w' := (execute_task_end i task t0 t1 w).2 in
  evolves (objs w) (objs w') ∧ length (objs w') = length (objs w)
  ∧ the_queue w' = the_queue w.
Proof.
  unfold execute_task_end.
  destruct (_workers w !! i) as [self|]; [|by split_and!; [apply evolves_refl|..]].
  destruct (objs w !! task) as [tk|] eqn:Htk; [|by split_and!; [apply evolves_refl|..]].
  pose proof (same_identity_execute_call t0 t1 tk) as Hid.
  destruct (Task.execute_call t0 t1 tk) as [tk' [result|e]]; cbn in *.
  all: split_and!; [|by rewrite length_alter, length_insert|done].
  all: etrans; [by eapply evolves_insert|].
  all: apply evolves_alter, same_identity_set_worker_id.
Qed.

Lemma cancel_task_inv task_id w :
  queue_inv w →
  let w' := (cancel_task task_id w).2 in
  evolves (objs w) (objs w') ∧ length (objs w') = length (objs w) ∧ queue_inv w'.
Proof.
  intros Hq. unfold cancel_task.
  destruct (get_task task_id w) as [task|]; [|by split_and!; [apply evolves_refl|..]].
  destruct (objs w !! task) as [tk|]; [|by split_and!; [apply evolves_refl|..]].
  case_bool_decide; [by split_and!; [apply evolves_refl|..]|].
  cbn. split_and!.
  - apply evolves_alter, same_identity_cancel.
  - by rewrite length_alter.
  - unfold queue_inv. cbn. apply heap_inv_heapify.
    rewrite length_alter. destruct Hq as [_ Hv].
    rewrite Forall_forall in Hv. apply Forall_forall.
    intros a [_ Ha]%list_elem_of_filter. by apply Hv.
Qed.

Lemma retry_task_inv task_id w :
  queue_inv w →
  let w' := (retry_task task_id w).2 in
  evolves (objs w) (objs w') ∧ length (objs w') = length (objs w) ∧ queue_inv w'.
Proof.
  intros Hq. unfold retry_task.
  destruct (get_task task_id w) as [task|]; [|by split_and!; [apply evolves_refl|..]].
  destruct (objs w !! task) as [tk|] eqn:Htk; [|by split_and!; [apply evolves_refl|..]].
  destruct (negb _); [by split_and!; [apply evolves_refl|..]|].
  destruct (Task.reset_for_retry tk) as [e|tk'] eqn:Hr;
    [by split_and!; [apply evolves_refl|..]|].
  apply same_identity_reset_for_retry in Hr.
  assert (evolves (objs w) (<[task := tk']> (objs w))) as He
    by by eapply evolves_insert.
  cbn. split_and!; [done|by rewrite length_insert|].
  unfold queue_inv. cbn. apply heap_inv_push.
  - by eapply heap_inv_evolves.
  - rewrite length_insert. by eapply lookup_lt_Some.
Qed.

Lemma submit_task_inv now uuid func args priority timeout max_retries
    scheduled_at metadata kwargs w :
  queue_inv w →
  let w' := (submit_task now uuid func args priority timeout max_retries
               scheduled_at metadata kwargs w).2 in
  evolves (objs w) (objs w')
  ∧ (objs w' = objs w
     ∨ objs w' = objs w ++ [new_task now uuid func args priority timeout
                              max_retries scheduled_at metadata kwargs])
  ∧ queue_inv w'.
Proof.
  intros Hq. rewrite submit_task_eq. cbn zeta.
  destruct (_ >=? _); [by split_and!; [apply evolves_refl|auto..]|].
  destruct (negb _); [by split_and!; [apply evolves_refl|auto..]|].
  destruct (_ !! uuid); cbn.
  - split_and!; [apply evolves_app|auto|].
    apply (queue_inv_frame w); [apply evolves_app|done|done].
  - split_and!; [apply evolves_app|auto|].
    unfold queue_inv. cbn. apply heap_inv_push.
    + eapply heap_inv_evolves; [apply evolves_app|done].
    + rewrite length_app. simpl. lia.
Qed.

Lemma step_inv c w :
  queue_inv w →
  store_step c (objs w) (objs (step c w).2) ∧ queue_inv (step c w).2.
Proof.
  intros Hq. unfold store_step. destruct c; cbn [step].
  - pose proof (submit_task_inv now uuid func args priority timeout max_retries
                  scheduled_at metadata kwargs w Hq) as H.
    destruct (submit_task _ _ _ _ _ _ _ _ _ _ _) as [r w']. cbn in *. tauto.
  - destruct (get_next_task now w) as [r w'] eqn:E.
    destruct (get_next_task_ok _ _ _ _ Hq E) as (Ho & Hq' & _). cbn.
    rewrite Ho. split_and!; [apply evolves_refl|done..].
  - pose proof (cancel_task_inv task_id w Hq) as H.
    destruct (cancel_task _ _) as [r w']. cbn in *. tauto.
  - pose proof (retry_task_inv task_id w Hq) as H.
    destruct (retry_task _ _) as [r w']. cbn in *. tauto.
  - pose proof (update_task_status_frame task_id status w) as H.
    destruct (update_task_status _ _ _) as [r w']. cbn in *.
    destruct H as (He & Hl & Hqm & _). split_and!; [done..|].
    apply (queue_inv_frame w); [done| |done]. unfold the_queue. by rewrite Hqm.
  - pose proof (execute_task_begin_frame i task w) as H. cbn in *.
    destruct H as (He & Hl & Hqm). split_and!; [done..|].
    apply (queue_inv_frame w); [done| |done]. unfold the_queue. by rewrite Hqm.
  - pose proof (execute_task_end_frame i task start_time end_time w) as H.
    destruct (execute_task_end _ _ _ _ _) as [r w']. cbn in *.
    destruct H as (He & Hl & Hqm). split_and!; [done..|].
    by apply (queue_inv_frame w).
Qed.

Lemma store_step_scheduled c o o' :
  store_step c o o' →
  Forall (λ x, is_Some (Task.scheduled_at x)) o →
  Forall (λ x, is_Some (Task.scheduled_at x)) o'.
Proof.
  intros [[_ He] Hc] Ho.
  assert (length o' = length o → Forall (λ x, is_Some (Task.scheduled_at x)) o')
    as Hsame.
  { intros Hl. apply Forall_lookup. intros a y Hy.
    destruct (lookup_lt_is_Some_2 o a) as [x Hx].
    { apply lookup_lt_Some in Hy. lia. }
    destruct (He _ _ Hx) as (y' & Hy' & Hid).
    rewrite Hy in Hy'. injection Hy' as <-.
    destruct Hid as (_ & _ & _ & _ & _ & _ & _ & _ & -> & _).
    by eapply (Forall_lookup_1 _ _ _ _ Ho). }
  destruct c; auto.
  destruct Hc as [->| ->]; [done|].
  apply Forall_app. split; [done|]. by repeat constructor.
Qed.

Lemma step_tasks c w :
  let w' := (step c w).2 in
  TaskManager._tasks (the_task_manager w') = TaskManager._tasks (the_task_manager w)
  ∨ ∃ now uuid func args priority timeout max_retries scheduled_at metadata kwargs,
      c = SubmitTask now uuid func args priority timeout max_retries scheduled_at
            metadata kwargs
      ∧ get_task uuid w = None
      ∧ w' = submitted now uuid func args priority timeout max_retries
               scheduled_at metadata kwargs w.
Proof.
  destruct c; cbn [step].
  - destruct (submit_task _ _ _ _ _ _ _ _ _ _ _) as [[e|id] w'] eqn:E; cbn.
    + left. revert E. rewrite submit_task_eq. cbn zeta.
      destruct (_ >=? _); [by intros [= _ <-]|].
      destruct (negb _); [by intros [= _ <-]|].
      destruct (_ !! uuid); [by intros [= _ <-]|done].
    + right. apply submit_task_inr in E as (_ & _ & _ & Hnew & ->).
      by eexists _, _, _, _, _, _, _, _, _, _.
  - left. unfold get_next_task. by destruct (get_next_task_loop _ _ _ _).
  - left. unfold cancel_task. destruct (get_task _ _); [|done].
    destruct (_ !! _); [|done]. by case_bool_decide.
  - left. unfold retry_task. destruct (get_task _ _); [|done].
    destruct (_ !! _); [|done]. destruct (negb _); [done|].
    by destruct (Task.reset_for_retry _).
  - left. unfold update_task_status. by destruct (_ !! _).
  - left. cbn. destruct (execute_task_begin_frame i task w) as (_ & _ & Hqm).
    unfold the_task_manager. by rewrite Hqm.
  - left. unfold execute_task_end. destruct (_ !! _); [|done].
    destruct (_ !! _); [|done].
    destruct (Task.execute_call _ _ _) as [tk' [r|e]]; done.
Qed.

(** Where the entries of the queue come from: they were there before, or a
    submission or a retry has just pushed them. *)
Lemma step_queue c w b :
  queue_inv w → b ∈ the_queue (step c w).2 →
  b ∈ the_queue w
  ∨ (b = length (objs w)
     ∧ ∃ now uuid func args priority timeout max_retries scheduled_at metadata
         kwargs,
         get_task uuid w = None
         ∧ (step c w).2 = submitted now uuid func args priority timeout
                            max_retries scheduled_at metadata kwargs w)
  ∨ (∃ task_id tk, c = RetryTask task_id ∧ get_task task_id w = Some b
                   ∧ objs w !! b = Some tk ∧ Task.can_retry tk = true).
Proof.
  intros Hq Hb. destruct c; cbn [step snd] in Hb |- *.
  - destruct (submit_task _ _ _ _ _ _ _ _ _ _ _) as [[e|id] w'] eqn:E;
      cbn in Hb |- *.
    + left. revert E Hb. rewrite submit_task_eq. cbn zeta.
      destruct (_ >=? _); [by intros [= _ <-]|].
      destruct (negb _); [by intros [= _ <-]|].
      destruct (_ !! uuid); [by intros [= _ <-]|done].
    + apply submit_task_inr in E as (_ & _ & _ & Hnew & ->).
      unfold the_queue in Hb. cbn in Hb.
      destruct (heap_inv_push
                  (objs w ++ [new_task now uuid func args priority timeout
                                max_retries scheduled_at metadata kwargs])
                  (the_queue w) (length (objs w))) as [_ HP].
      { eapply heap_inv_evolves; [apply evolves_app|exact Hq]. }
      { rewrite length_app. cbn. lia. }
      unfold the_queue in HP. rewrite HP in Hb.
      apply elem_of_cons in Hb as [->|Hb]; [|by left].
      right. left. split; [done|]. by eexists _, _, _, _, _, _, _, _, _, _.
  - left. destruct (get_next_task now w) as [r w'] eqn:E.
    destruct (get_next_task_ok _ _ _ _ Hq E) as (_ & _ & Hr). cbn in Hb.
    destruct r as [a|].
    + destruct Hr as (Hsub & _). eapply elem_of_submseteq; [|exact Hsub]. by right.
    + by eapply elem_of_submseteq.
  - left. unfold cancel_task in Hb. destruct (get_task _ _); [|done].
    destruct (_ !! _); [|done]. case_bool_decide; [done|].
    unfold the_queue in Hb. cbn -[heapq.heapify] in Hb.
    match type of Hb with _ ∈ heapq.heapify ?lt ?q =>
      destruct (heapify_ok lt (lt_at_asym _) (lt_at_negtrans _) q) as [_ HP] end.
    rewrite HP in Hb. by apply list_elem_of_filter in Hb as [_ ?].
  - unfold retry_task in Hb. destruct (get_task task_id w) as [t|] eqn:Ht; [|by left].
    destruct (objs w !! t) as [tk|] eqn:Htk; [|by left].
    destruct (Task.can_retry tk) eqn:Hcan; cbn [negb] in Hb; [|by left].
    destruct (Task.reset_for_retry tk) as [e|tk'] eqn:Hr; [by left|].
    unfold the_queue in Hb. cbn in Hb.
    destruct (heap_inv_push (<[t := tk']> (objs w)) (the_queue w) t) as [_ HP].
    { eapply heap_inv_evolves; [|exact Hq].
      eapply evolves_insert; [done|]. by apply same_identity_reset_for_retry. }
    { rewrite length_insert. by eapply lookup_lt_Some. }
    unfold the_queue in HP. rewrite HP in Hb.
    apply elem_of_cons in Hb as [->|Hb]; [|by left].
    right. right. by exists task_id, tk.
  - left. destruct (update_task_status_frame task_id status w) as (_ & _ & Hqm & _).
    destruct (update_task_status _ _ _). cbn in *. unfold the_queue in *.
    by rewrite Hqm in Hb.
  - left. destruct (execute_task_begin_frame i task w) as (_ & _ & Hqm).
    cbn in *. unfold the_queue in *. by rewrite Hqm in Hb.
  - left. destruct (execute_task_end_frame i task start_time end_time w)
      as (_ & _ & Hqm).
    destruct (execute_task_end _ _ _ _ _). cbn in *. by rewrite Hqm in Hb.
Qed.

Lemma step_world_inv c w : world_inv w → world_inv (step c w).2.
Proof.
  intros (Hq & Hs & Hr & Hk). destruct (step_inv c w Hq) as [Hst Hq'].
  assert (registry_inv (step c w).2) as Hr'.
  { intros id a Ha. destruct Hst as [[_ He] _].
    destruct (step_tasks c w) as [E|E]; cbn zeta in E.
    - rewrite E in Ha. destruct (Hr _ _ Ha) as (tk & Htk & Hid).
      destruct (He _ _ Htk) as (y & Hy & Hsame). exists y. split; [done|].
      destruct Hsame as (_ & _ & _ & -> & _). done.
    - destruct E as (now & uuid & func & args & priority & timeout & max_retries
                     & scheduled_at & metadata & kwargs & -> & _ & E).
      rewrite E in *. cbn in Ha |- *. unfold the_task_manager in Ha. cbn in Ha.
      destruct (decide (uuid = id)) as [->|Hne].
      + rewrite lookup_insert_eq in Ha. injection Ha as <-.
        rewrite lookup_app_r, Nat.sub_diag by done. by eexists.
      + rewrite lookup_insert_ne in Ha by done.
        destruct (Hr _ _ Ha) as (tk & Htk & Hid). exists tk.
        by rewrite lookup_app_l by eauto using lookup_lt_Some. }
  split_and!; [done|by eapply store_step_scheduled|done|].
  intros b Hb. destruct Hst as [[_ He] _].
  assert (∀ tk, objs w !! b = Some tk → get_task (Task.task_id tk) w = Some b →
                ∃ tk', objs (step c w).2 !! b = Some tk'
                       ∧ get_task (Task.task_id tk') (step c w).2 = Some b) as Hold.
  { intros tk Htk Hreg. destruct (He _ _ Htk) as (y & Hy & Hsame).
    exists y. split; [done|].
    destruct Hsame as (_ & _ & _ & -> & _). unfold get_task in *.
    destruct (step_tasks c w) as [E|E]; cbn zeta in E; [by rewrite E|].
    destruct E as (now & uuid & func & args & priority & timeout & max_retries
                   & scheduled_at & metadata & kwargs & -> & Hnew & E).
    rewrite E. unfold the_task_manager. cbn.
    rewrite lookup_insert_ne; [done|]. intros ->. unfold get_task in Hnew.
    unfold the_task_manager in *. by rewrite Hnew in Hreg. }
  destruct (step_queue c w b Hq Hb) as [Hin|[[-> Hsub]|(id & ? & -> & Hid & _)]].
  - destruct (Hk b Hin) as (tk & Htk & Hreg). eauto.
  - destruct Hsub as (now & uuid & func & args & priority & timeout & max_retries
                      & scheduled_at & metadata & kwargs & Hnew & E).
    rewrite E. cbn. rewrite lookup_app_r, Nat.sub_diag by done. eexists.
    split; [done|]. unfold get_task, the_task_manager. cbn.
    by rewrite lookup_insert_eq.
  - destruct (Hr _ _ Hid) as (tk & Htk & Htid). apply (Hold tk Htk).
    by rewrite Htid.
Qed.

Lemma step_evolves c w : queue_inv w → evolves (objs w) (objs (step c w).2).
Proof. intros Hq. by destruct (step_inv c w Hq) as [[He _] _]. Qed.

Lemma new_world_inv mq ws : world_inv (new_world mq ws).
Proof.
  split_and!; [apply heap_inv_nil|constructor|done|].
  intros b Hb. by apply elem_of_nil in Hb.
Qed.

Lemma run_world_inv cs w : world_inv w → world_inv (run cs w).
Proof.
  revert w. induction cs as [|c cs IH]; intros w Hw; [done|].
  cbn [run]. by apply IH, step_world_inv.
Qed.

Lemma run_evolves cs w : world_inv w → evolves (objs w) (objs (run cs w)).
Proof.
  revert w. induction cs as [|c cs IH]; intros w Hw; [done|].
  cbn [run]. etrans; [apply step_evolves, Hw|]. by apply IH, step_world_inv.
Qed.

(** ** Dispatch order *)

Lemma is_ready_true now tk :
  Task.is_ready now tk = true ↔
  Task.status tk = PENDING ∧ ∀ s, Task.scheduled_at tk = Some s → s ≤ now.
Proof.
  unfold Task.is_ready. case_bool_decide as Hst; cbn [negb]; cycle 1.
  { split; [done|]. by intros [? _]. }
  destruct (Task.scheduled_at tk) as [s|]; cycle 1.
  { split; [|done]. intros _. by split. }
  destruct (Z.ltb_spec now s); split; try done.
  - intros [_ Hs]. specialize (Hs s eq_refl). lia.
  - intros _. split; [done|]. intros ? [= <-]. lia.
Qed.

Lemma is_ready_mono now t tk :
  Task.is_ready now tk = true → now ≤ t → Task.is_ready t tk = true.
Proof.
  rewrite !is_ready_true. intros [Hst Hs] Hle. split; [done|].
  intros s E. specialize (Hs s E). lia.
Qed.

Lemma dispatch_ok times w rs w' :
  queue_inv w → dispatch times w = (rs, w') →
  objs w' = objs w ∧ queue_inv w'
  ∧ rs ++ the_queue w' ⊆+ the_queue w
  ∧ Forall (λ a, ∃ tk, objs w !! a = Some tk) rs
  ∧ ∀ i j a b, (i < j)%nat → rs !! i = Some a → rs !! j = Some b →
               lt_at (objs w) b a = false.
Proof.
  revert w rs w'. induction times as [|now times IH]; intros w rs w' Hq E.
  { injection E as <- <-. by split_and!. }
  cbn [dispatch] in E.
  destruct (get_next_task now w) as [r w1] eqn:E1.
  destruct (dispatch times w1) as [rs1 w2] eqn:E2.
  injection E as <- <-.
  destruct (get_next_task_ok _ _ _ _ Hq E1) as (Ho1 & Hq1 & Hr).
  destruct (IH _ _ _ Hq1 E2) as (Ho2 & Hq2 & Hsub & Hall & Hord).
  rewrite Ho1 in *.
  destruct r as [a0|]; cycle 1.
  { split_and!; try done. by etrans. }
  destruct Hr as (Hsub0 & Htk0 & Hmin).
  split_and!; try done.
  - etrans; [|exact Hsub0]. cbn. by apply submseteq_skip.
  - constructor; [|done]. destruct Htk0 as (tk & ? & _). by exists tk.
  - intros i j a b Hij Ha Hb. destruct j as [|j]; [lia|]. cbn in Hb.
    destruct i as [|i]; cbn in Ha.
    + injection Ha as <-. apply Hmin.
      eapply elem_of_submseteq; [|exact Hsub].
      apply elem_of_app. left. by eapply list_elem_of_lookup_2.
    + eapply (Hord i j); [lia|done..].
Qed.

Lemma dispatch_all_ready times w now :
  queue_inv w →
  (∀ a, a ∈ the_queue w → ∃ tk, objs w !! a = Some tk ∧ Task.is_ready now tk = true) →
  Forall (λ t, now ≤ t) times → length times = length (the_queue w) →
  (dispatch times w).1 ≡ₚ the_queue w.
Proof.
  revert w. induction times as [|t times IH]; intros w Hq Hready Ht Hlen.
  { cbn in *. destruct (the_queue w); [done|discriminate]. }
  apply Forall_cons in Ht as [Ht Hts].
  destruct (get_next_task_ready t w Hq) as (a & w1 & E1 & HP).
  { intros E. by rewrite E in Hlen. }
  { intros b Hb. destruct (Hready b Hb) as (tk & ? & ?).
    eauto using is_ready_mono. }
  destruct (get_next_task_ok _ _ _ _ Hq E1) as (Ho1 & Hq1 & _).
  cbn [dispatch]. rewrite E1.
  specialize (IH w1 Hq1).
  destruct (dispatch times w1) as [rs1 w2]. cbn in *.
  rewrite HP. constructor. apply IH; [|done|].
  - intros b Hb. rewrite Ho1. apply Hready. rewrite HP. by right.
  - apply Permutation_length in HP. cbn in *. lia.
Qed.

(** C1.  Successive calls of [get_next_task], with nothing in between, hand
    out tasks by descending priority and, among tasks of equal priority, by
    ascending creation time; when every queued task is ready, they are all
    handed out, in that order.  Three ready tasks submitted with priorities
    LOW, HIGH, NORMAL come out as HIGH, NORMAL, LOW, and of two ready tasks
    of equal priority the one created earlier comes out first. *)
Theorem dispatch_by_priority_then_age :
  (∀ mq ws cs times rs w',
     let w := run cs (new_world mq ws) in
     dispatch times w = (rs, w') →
     (∀ i j a b, (i < j)%nat → rs !! i = Some a → rs !! j = Some b →
                 dispatch_order_at (objs w) a b)
     ∧ (∀ i j a b x y,
          rs !! i = Some a → rs !! j = Some b →
          objs w !! a = Some x → objs w !! b = Some y →
          Task.priority x = Task.priority y →
          Task.created_at x < Task.created_at y → (i < j)%nat)
     ∧ (∀ now,
          (∀ a, a ∈ the_queue w →
                ∃ tk, objs w !! a = Some tk ∧ Task.is_ready now tk = true) →
          Forall (λ t, now ≤ t) times → length times = length (the_queue w) →
          rs ≡ₚ the_queue w))
  ∧ (∀ f1 f2 f3,
       let w := run [submit_plain 1 "t1" f1 LOW 3; submit_plain 2 "t2" f2 HIGH 3;
                     submit_plain 3 "t3" f3 NORMAL 3] (new_world 1000 []) in
       (dispatch [4; 5; 6] w).1 = [1; 2; 0]%nat
       ∧ priorities (objs w) (dispatch [4; 5; 6] w).1 = [HIGH; NORMAL; LOW])
  ∧ (∀ f1 f2 p,
       let w := run [submit_plain 1 "A" f1 p 3; submit_plain 2 "B" f2 p 3]
                  (new_world 1000 []) in
       (dispatch [3; 3] w).1 = [0; 1]%nat).
Proof.
  split_and!.
  - intros mq ws cs times rs w' w E.
    destruct (run_world_inv cs _ (new_world_inv mq ws)) as [Hq _].
    destruct (dispatch_ok _ _ _ _ Hq E) as (_ & _ & _ & Hall & Hord).
    rewrite Forall_lookup in Hall.
    assert (∀ i j a b, (i < j)%nat → rs !! i = Some a → rs !! j = Some b →
                       dispatch_order_at (objs w) a b) as Horder.
    { intros i j a b Hij Ha Hb.
      destruct (Hall _ _ Ha) as [x Hx]. destruct (Hall _ _ Hb) as [y Hy].
      exists x, y. split_and!; [done..|].
      apply (lt_at_false _ a b x y Hx Hy). by eapply Hord. }
    split_and!; [done| |].
    + intros i j a b x y Ha Hb Hx Hy Hp Hc.
      destruct (decide (i < j)%nat) as [|Hge]; [done|exfalso].
      destruct (decide (i = j)) as [->|Hne].
      { rewrite Ha in Hb. injection Hb as <-. rewrite Hx in Hy.
        injection Hy as <-. lia. }
      destruct (Horder j i b a) as (y' & x' & Hy' & Hx' & Hd); [lia|done..|].
      rewrite Hy in Hy'. rewrite Hx in Hx'. injection Hy' as <-. injection Hx' as <-.
      destruct Hd as [Hd|[_ Hd]]; [rewrite Hp in Hd|]; lia.
    + intros now Hready Ht Hlen.
      pose proof (dispatch_all_ready times w now Hq Hready Ht Hlen) as HP.
      by rewrite E in HP.
  - intros f1 f2 f3. by vm_compute.
  - intros f1 f2 p. destruct p; by vm_compute.
Qed.

Lemma dispatch_by_priority_then_age_witness :
  let f := λ (_ : list pyval) (_ : gmap string pyval), Returns (PyInt 7) in
  let w := run [submit_plain 1 "t1" f LOW 3; submit_plain 2 "t2" f HIGH 3]
             (new_world 1000 []) in
  (dispatch [4; 5] w).1 = [1; 0]%nat ∧ dispatch_order_at (objs w) 1 0.
Proof.
  split; [by vm_compute|].
  refine (proj1 (proj1 dispatch_by_priority_then_age 1000 [] _ [4; 5] _ _ _)
            0%nat 1%nat 1%nat 0%nat _ _ _); [by vm_compute|lia|done|done].
Defined.


(** ** Readiness *)

(** C3.  [get_next_task] only hands out ready tasks: the task it returns is
    PENDING and its [scheduled_at] is not later than the clock reading of the
    call; a task submitted with a [scheduled_at] is never handed out at an
    earlier clock reading, whatever happens in between. *)
Theorem get_next_task_only_ready :
  (∀ mq ws cs now a w',
     let w := run cs (new_world mq ws) in
     get_next_task now w = (Some a, w') →
     ∃ tk s, objs w !! a = Some tk ∧ objs w' !! a = Some tk
             ∧ Task.status tk = PENDING
             ∧ Task.scheduled_at tk = Some s ∧ s ≤ now)
  ∧ (∀ mq ws cs1 t0 uuid func args priority timeout max_retries s metadata
       kwargs id w1 cs2 now w',
       let w := run cs1 (new_world mq ws) in
       submit_task t0 uuid func args priority timeout max_retries (Some s)
         metadata kwargs w = (inr id, w1) →
       get_next_task now (run cs2 w1) = (Some (length (objs w)), w') →
       s ≤ now).
Proof.
  split.
  - intros mq ws cs now a w' w E.
    destruct (run_world_inv cs _ (new_world_inv mq ws)) as (Hq & Hs & _).
    destruct (get_next_task_ok _ _ _ _ Hq E) as (Ho & _ & _ & (tk & Htk & Hr) & _).
    destruct (Forall_lookup_1 _ _ _ _ Hs Htk) as [s Hsched].
    apply is_ready_true in Hr as [Hst Hle].
    exists tk, s. rewrite Ho. split_and!; auto.
  - intros mq ws cs1 t0 uuid func args priority timeout max_retries s metadata
      kwargs id w1 cs2 now w' w Hsub E.
    pose proof (run_world_inv cs1 _ (new_world_inv mq ws)) as Hw.
    pose proof (step_world_inv
                  (SubmitTask t0 uuid func args priority timeout max_retries
                     (Some s) metadata kwargs) _ Hw) as Hw1.
    cbn [step] in Hw1. fold w in Hw1. rewrite Hsub in Hw1. cbn in Hw1.
    apply submit_task_inr in Hsub as (_ & _ & _ & _ & ->).
    destruct (run_evolves cs2 _ Hw1) as [_ He].
    destruct (He (length (objs w))
                (new_task t0 uuid func args priority timeout max_retries
                   (Some s) metadata kwargs)) as (y & Hy & Hid).
    { cbn. by rewrite lookup_app_r, Nat.sub_diag. }
    destruct (run_world_inv cs2 _ Hw1) as [Hq2 _].
    destruct (get_next_task_ok _ _ _ _ Hq2 E) as (_ & _ & _ & (tk & Htk & Hr) & _).
    rewrite Hy in Htk. injection Htk as <-.
    apply is_ready_true in Hr as [_ Hle]. apply Hle.
    by destruct Hid as (_ & _ & _ & _ & _ & _ & _ & _ & -> & _).
Qed.

Lemma get_next_task_only_ready_witness :
  let f := λ (_ : list pyval) (_ : gmap string pyval), Returns (PyInt 7) in
  let w := new_world 1000 [] in
  let w1 := submitted 10 "t1" (Function f) [] NORMAL None 3 (Some 12) None ∅ w in
  submit_task 10 "t1" (Function f) [] NORMAL None 3 (Some 12) None ∅ w
    = (inr "t1", w1)
  ∧ get_next_task 11 w1 = (None, w1)
  ∧ get_next_task 12 w1 = (Some 0%nat, with_queue [] w1)
  ∧ 12 ≤ 12.
Proof.
  split_and!; [by vm_compute..|].
  refine (proj2 get_next_task_only_ready 1000 [] [] 10 "t1"
            (Function (λ _ _, Returns (PyInt 7))) [] NORMAL None 3 12 None ∅
            "t1" _ [] 12 _ _ _); by vm_compute.
Defined.

(** ** Head-of-line blocking *)

(** C2, as stated, fails: a top task that is not ready because its status is
    no longer PENDING is dropped, and the scan goes on to the next entry.
    Here the HIGH task at the top was marked CANCELLED through the registry;
    the call hands out the LOW task behind it and the top is gone. *)
Lemma get_next_task_drops_non_pending_top :
  let w := run [submit_plain 1 "hi" returns_7 HIGH 3;
                submit_plain 2 "lo" returns_7 LOW 3;
                UpdateTaskStatus "hi" CANCELLED] (new_world 1000 []) in
  the_queue w !! 0%nat = Some 0%nat
  ∧ Task.is_ready 5 <$> objs w !! 0%nat = Some false
  ∧ (get_next_task 5 w).1 = Some 1%nat
  ∧ the_queue (get_next_task 5 w).2 = [].
Proof. by vm_compute. Qed.

(** C2, amended.  When the top of the queue is not ready: if it is PENDING
    (its scheduled time has not come), [get_next_task] puts it back and
    returns None at once, without looking at any other entry; if its status
    is not PENDING, it is dropped and the call goes on as a call on the rest
    of the queue would. *)
Theorem get_next_task_top_not_ready :
  ∀ mq ws cs now a tk,
    let w := run cs (new_world mq ws) in
    the_queue w !! 0%nat = Some a → objs w !! a = Some tk →
    Task.is_ready now tk = false →
    ∃ rest,
      heapq.heappop (lt_at (objs w)) (the_queue w) = Some (a, rest)
      ∧ a :: rest ≡ₚ the_queue w
      ∧ (Task.status tk = PENDING →
         get_next_task now w
           = (None, with_queue (heapq.heappush (lt_at (objs w)) rest a) w)
         ∧ the_queue (get_next_task now w).2 ≡ₚ the_queue w)
      ∧ (Task.status tk ≠ PENDING →
         get_next_task now w = get_next_task now (with_queue rest w)).
Proof.
  intros mq ws cs now a tk w Htop Htk Hready.
  destruct (run_world_inv cs _ (new_world_inv mq ws)) as [Hq _]. fold w in Hq.
  destruct (heap_inv_pop (objs w) (the_queue w) Hq) as (m & rest & Hpop & Hq1 & HP & Hm & _).
  { intros E. by rewrite E in Htop. }
  rewrite Htop in Hm. injection Hm as <-.
  exists rest. split_and!; [done|done| |].
  - intros Hst. unfold get_next_task.
    destruct (the_queue w) as [|a0 q0] eqn:Eq; [done|].
    cbn [length]. rewrite get_next_task_loop_S, Hpop, Htk, Hready.
    rewrite bool_decide_eq_true_2 by done. split; [done|].
    cbn. unfold the_queue. cbn.
    destruct (heap_inv_push (objs w) rest a Hq1) as [_ ->]; [by eapply lookup_lt_Some|].
    done.
  - intros Hst. unfold get_next_task at 1.
    apply Permutation_length in HP as Hlen.
    destruct (the_queue w) as [|a0 q0] eqn:Eq; [done|].
    cbn [length]. rewrite get_next_task_loop_S, Hpop, Htk, Hready.
    rewrite bool_decide_eq_false_2 by done.
    unfold get_next_task, the_queue. cbn in *.
    replace (length q0) with (length rest) by lia.
    by destruct (get_next_task_loop _ _ _ _).
Qed.

Lemma get_next_task_top_not_ready_witness :
  let w := run [SubmitTask 10 "hi" (Function returns_7) [] HIGH None 3 (Some 20) None ∅;
                submit_plain 11 "lo" returns_7 LOW 3] (new_world 1000 []) in
  ∃ rest,
    heapq.heappop (lt_at (objs w)) (the_queue w) = Some (0%nat, rest)
    ∧ 0%nat :: rest ≡ₚ the_queue w
    ∧ (PENDING = PENDING →
       get_next_task 15 w
         = (None, with_queue (heapq.heappush (lt_at (objs w)) rest 0%nat) w)
       ∧ the_queue (get_next_task 15 w).2 ≡ₚ the_queue w)
    ∧ (PENDING ≠ PENDING →
       get_next_task 15 w = get_next_task 15 (with_queue rest w)).
Proof.
  refine (get_next_task_top_not_ready 1000 []
            [SubmitTask 10 "hi" (Function returns_7) [] HIGH None 3 (Some 20) None ∅;
             submit_plain 11 "lo" returns_7 LOW 3] 15 0%nat
            (new_task 10 "hi" (Function returns_7) [] HIGH None 3 (Some 20) None ∅)
            _ _ _); by vm_compute.
Defined.

(** ** Status transitions *)

Lemma alter_related (R : Task.t → Task.t → Prop) f i (o : list Task.t) a x :
  (∀ x, R x x) → (∀ x, R x (f x)) → o !! a = Some x →
  ∃ y, alter f i o !! a = Some y ∧ R x y.
Proof.
  intros Hrefl Hf Hx. rewrite list_lookup_alter.
  case_decide as E; [subst i; rewrite Hx|]; eauto.
Qed.

Lemma insert_related (R : Task.t → Task.t → Prop) i v (o : list Task.t) a x tk :
  (∀ x, R x x) → o !! i = Some tk → R tk v → o !! a = Some x →
  ∃ y, <[i := v]> o !! a = Some y ∧ R x y.
Proof.
  intros Hrefl Hi Hv Hx. rewrite list_lookup_insert.
  case_decide as E; [|eauto]. destruct E as [-> _].
  rewrite Hi in Hx. injection Hx as <-. eauto.
Qed.

Lemma submit_task_objs now uuid func args priority timeout max_retries
    scheduled_at metadata kwargs w :
  let w' := (submit_task now uuid func args priority timeout max_retries
               scheduled_at metadata kwargs w).2 in
  objs w' = objs w
  ∨ objs w' = objs w ++ [new_task now uuid func args priority timeout
                           max_retries scheduled_at metadata kwargs].
Proof.
  rewrite submit_task_eq. cbn zeta.
  destruct (_ >=? _); [by left|]. destruct (negb _); [by left|].
  destruct (_ !! uuid); by right.
Qed.

Lemma task_step_refl c x : task_step c x x.
Proof. by left. Qed.

Lemma step_task c w a x y :
  objs w !! a = Some x → objs (step c w).2 !! a = Some y → task_step c x y.
Proof.
  intros Hx Hy. destruct c; cbn [step snd] in Hy.
  - pose proof (submit_task_objs now uuid func args priority timeout max_retries
                  scheduled_at metadata kwargs w) as Ho.
    destruct (submit_task _ _ _ _ _ _ _ _ _ _ _) as [r w']. cbn in *.
    destruct Ho as [Ho|Ho]; rewrite Ho in Hy.
    + rewrite Hx in Hy. injection Hy as <-. by left.
    + rewrite lookup_app_l in Hy by eauto using lookup_lt_Some.
      rewrite Hx in Hy. injection Hy as <-. by left.
  - pose proof (get_next_task_objs now w) as Ho.
    destruct (get_next_task now w) as [r w']. cbn in *.
    rewrite Ho, Hx in Hy. injection Hy as <-. by left.
  - unfold cancel_task in Hy.
    destruct (get_task task_id w) as [task|]; cycle 1.
    { cbn in Hy. rewrite Hx in Hy. injection Hy as <-. by left. }
    destruct (objs w !! task) as [tk|]; cycle 1.
    { cbn in Hy. rewrite Hx in Hy. injection Hy as <-. by left. }
    case_bool_decide.
    { cbn in Hy. rewrite Hx in Hy. injection Hy as <-. by left. }
    cbn in Hy.
    destruct (alter_related (task_step (CancelTask task_id)) Task.cancel task
                (objs w) a x) as (y' & Hy' & Hr); [by left| |done|].
    { intros z. unfold Task.cancel. case_bool_decide; [by left|]. by right. }
    rewrite Hy in Hy'. by injection Hy' as <-.
  - unfold retry_task in Hy.
    destruct (get_task task_id w) as [task|]; cycle 1.
    { cbn in Hy. rewrite Hx in Hy. injection Hy as <-. by left. }
    destruct (objs w !! task) as [tk|] eqn:Htk; cycle 1.
    { cbn in Hy. rewrite Hx in Hy. injection Hy as <-. by left. }
    destruct (Task.can_retry tk) eqn:Hcan; cbn [negb] in Hy; cycle 1.
    { cbn in Hy. rewrite Hx in Hy. injection Hy as <-. by left. }
    unfold Task.reset_for_retry in Hy. rewrite Hcan in Hy. cbn in Hy.
    unfold Task.can_retry in Hcan. apply andb_true_iff in Hcan as [Hst Hlt].
    apply bool_decide_eq_true in Hst. apply Z.ltb_lt in Hlt.
    edestruct (insert_related (task_step (RetryTask task_id)) task)
      as (y' & Hy' & Hr); [by left|exact Htk| |exact Hx|].
    2:{ rewrite Hy in Hy'. injection Hy' as <-. exact Hr. }
    right. by split_and!.
  - unfold update_task_status in Hy. destruct (_ !! task_id) as [task|]; cycle 1.
    { cbn in Hy. rewrite Hx in Hy. injection Hy as <-. by left. }
    cbn in Hy.
    destruct (alter_related (task_step (UpdateTaskStatus task_id status))
                (Task.set_status status) task (objs w) a x) as (y' & Hy' & Hr);
      [by left|by right|done|].
    rewrite Hy in Hy'. by injection Hy' as <-.
  - unfold execute_task_begin in Hy.
    destruct (_workers w !! i) as [self|]; cycle 1.
    { rewrite Hx in Hy. injection Hy as <-. by left. }
    destruct (objs w !! task) as [tk|]; cycle 1.
    { rewrite Hx in Hy. injection Hy as <-. by left. }
    set (R := λ x y : Task.t,
           (Task.status y = Task.status x ∨ Task.status y = RUNNING)
           ∧ Task.retry_count y = Task.retry_count x).
    assert (∀ z, R z z) as Hrefl by (by split; [left|]).
    assert (R x y) as [[?|?] ?]; [|by left|by right].
    destruct (alter_related R (Task.set_worker_id (Some (TaskWorker.worker_id self)))
                task (objs w) a x) as (y1 & Hy1 & R1); [done|by split; [left|]|done|].
    unfold update_task_status in Hy. cbn in Hy.
    destruct (_ !! Task.task_id tk) as [a'|]; cbn in Hy.
    + edestruct (alter_related R (Task.set_status RUNNING) a')
        as (y2 & Hy2 & R2); [exact Hrefl|by split; [right|]|exact Hy1|].
      edestruct (alter_related R Task.execute_start task)
        as (y3 & Hy3 & R3); [exact Hrefl|by split; [right|]|exact Hy2|].
      rewrite Hy in Hy3. injection Hy3 as <-.
      destruct R1 as [? ?], R2 as [? ?], R3 as [? ?].
      split; [|congruence]. intuition congruence.
    + edestruct (alter_related R Task.execute_start task)
        as (y3 & Hy3 & R3); [exact Hrefl|by split; [right|]|exact Hy1|].
      rewrite Hy in Hy3. injection Hy3 as <-.
      destruct R1 as [? ?], R3 as [? ?].
      split; [|congruence]. intuition congruence.
  - unfold execute_task_end in Hy.
    destruct (_workers w !! i) as [self|]; cycle 1.
    { cbn in Hy. rewrite Hx in Hy. injection Hy as <-. by left. }
    destruct (objs w !! task) as [tk|] eqn:Htk; cycle 1.
    { cbn in Hy. rewrite Hx in Hy. injection Hy as <-. by left. }
    set (R := task_step (ExecuteTaskEnd i task start_time end_time)).
    assert (R tk (Task.execute_call start_time end_time tk).1) as Hcall.
    { unfold Task.execute_call. destruct (call _ _ _) as [v|e].
      - right. cbn. auto.
      - destruct (isinstance_Exception e); [|by left]. right. cbn. auto. }
    destruct (Task.execute_call start_time end_time tk) as [tk' r]. cbn in Hcall.
    destruct (insert_related R task tk' (objs w) a x tk) as (y1 & Hy1 & R1);
      [by left|done..|].
    assert (∃ y2, alter (Task.set_worker_id None) task (<[task := tk']> (objs w)) !! a
                  = Some y2 ∧ Task.status y2 = Task.status y1
                  ∧ Task.retry_count y2 = Task.retry_count y1) as (y2 & Hy2 & E1 & E2).
    { rewrite list_lookup_alter. case_decide as E; [subst; rewrite Hy1|]; eauto. }
    assert (y = y2) as ->.
    { destruct r; cbn in Hy; rewrite Hy in Hy2; by injection Hy2. }
    destruct R1 as [[? ?]|[? ?]]; [left|right]; split; congruence.
Qed.

(** C4, as stated, fails: cancelling a task that has COMPLETED succeeds and
    marks it CANCELLED ([Task.cancel] only refuses a RUNNING task). *)
Lemma cancel_task_after_completion :
  let w := run [submit_plain 1 "t" returns_7 NORMAL 3; GetNextTask 2;
                ExecuteTaskBegin 0 0; ExecuteTaskEnd 0 0 2 3]
             (new_world 1000 one_worker) in
  get_task_status "t" w = Some COMPLETED
  ∧ (cancel_task "t" w).1 = true
  ∧ get_task_status "t" (cancel_task "t" w).2 = Some CANCELLED.
Proof. by vm_compute. Qed.

(** C4, amended.  One operation changes the status of a task only as
    follows: cancel takes any status but RUNNING to CANCELLED; retry takes
    FAILED to PENDING and adds one to [retry_count], which was below
    [max_retries]; update_task_status sets the status it is given; a worker
    sets RUNNING when it starts the task and COMPLETED or FAILED when the
    wrapped function ends; submit and get_next_task change no task.  The
    retry count changes in no other way. *)
Theorem status_transitions :
  ∀ c w a x y,
    objs w !! a = Some x → objs (step c w).2 !! a = Some y →
    (Task.status y = Task.status x ∧ Task.retry_count y = Task.retry_count x)
    ∨ ((∃ task_id, c = CancelTask task_id)
       ∧ Task.status x ≠ RUNNING ∧ Task.status y = CANCELLED
       ∧ Task.retry_count y = Task.retry_count x)
    ∨ ((∃ task_id, c = RetryTask task_id)
       ∧ Task.status x = FAILED ∧ Task.status y = PENDING
       ∧ Task.retry_count x < Task.max_retries x
       ∧ Task.retry_count y = Task.retry_count x + 1)
    ∨ ((∃ task_id, c = UpdateTaskStatus task_id (Task.status y))
       ∧ Task.retry_count y = Task.retry_count x)
    ∨ ((∃ i task, c = ExecuteTaskBegin i task)
       ∧ Task.status y = RUNNING ∧ Task.retry_count y = Task.retry_count x)
    ∨ ((∃ i task t0 t1, c = ExecuteTaskEnd i task t0 t1)
       ∧ (Task.status y = COMPLETED ∨ Task.status y = FAILED)
       ∧ Task.retry_count y = Task.retry_count x).
Proof.
  intros c w a x y Hx Hy.
  destruct (step_task c w a x y Hx Hy) as [Hsame|Hc]; [by left|right].
  destruct c; cbn in Hc; try done.
  - left. split; [by eexists|done].
  - right. left. split; [by eexists|done].
  - do 2 right. left. destruct Hc as [<- ?]. split; [by eexists|done].
  - do 3 right. left. split; [by eexists _, _|done].
  - do 4 right. split; [by eexists _, _, _, _|done].
Qed.

Lemma status_transitions_witness :
  let w := run [submit_plain 1 "t" returns_7 NORMAL 3; GetNextTask 2;
                ExecuteTaskBegin 0 0; ExecuteTaskEnd 0 0 2 3]
             (new_world 1000 one_worker) in
  ∃ x y,
    objs w !! 0%nat = Some x ∧ objs (step (CancelTask "t") w).2 !! 0%nat = Some y
    ∧ Task.status x = COMPLETED ∧ Task.status y = CANCELLED
    ∧ ((Task.status y = Task.status x ∧ Task.retry_count y = Task.retry_count x)
       ∨ ((∃ task_id, CancelTask "t" = CancelTask task_id)
          ∧ Task.status x ≠ RUNNING ∧ Task.status y = CANCELLED
          ∧ Task.retry_count y = Task.retry_count x)
       ∨ ((∃ task_id, CancelTask "t" = RetryTask task_id)
          ∧ Task.status x = FAILED ∧ Task.status y = PENDING
          ∧ Task.retry_count x < Task.max_retries x
          ∧ Task.retry_count y = Task.retry_count x + 1)
       ∨ ((∃ task_id, CancelTask "t" = UpdateTaskStatus task_id (Task.status y))
          ∧ Task.retry_count y = Task.retry_count x)
       ∨ ((∃ i task, CancelTask "t" = ExecuteTaskBegin i task)
          ∧ Task.status y = RUNNING ∧ Task.retry_count y = Task.retry_count x)
       ∨ ((∃ i task t0 t1, CancelTask "t" = ExecuteTaskEnd i task t0 t1)
          ∧ (Task.status y = COMPLETED ∨ Task.status y = FAILED)
          ∧ Task.retry_count y = Task.retry_count x)).
Proof.
  eexists _, _.
  split; [by vm_compute|]. split; [by vm_compute|].
  split; [done|]. split; [done|].
  refine (status_transitions (CancelTask "t")
            (run [submit_plain 1 "t" returns_7 NORMAL 3; GetNextTask 2;
                  ExecuteTaskBegin 0 0; ExecuteTaskEnd 0 0 2 3]
               (new_world 1000 one_worker)) 0%nat _ _ _ _); by vm_compute.
Defined.

(** ** Cancelling *)

Lemma cancel_task_running task_id w a tk :
  get_task task_id w = Some a → objs w !! a = Some tk →
  Task.status tk = RUNNING → cancel_task task_id w = (false, w).
Proof.
  intros Ha Htk Hst. unfold cancel_task. rewrite Ha, Htk.
  by rewrite bool_decide_eq_true_2.
Qed.

Lemma cancel_task_pending task_id w a tk :
  get_task task_id w = Some a → objs w !! a = Some tk →
  Task.status tk = PENDING →
  ∃ w', cancel_task task_id w = (true, w')
        ∧ objs w' !! a = Some (Task.set_status CANCELLED tk)
        ∧ ∀ b, b ∈ the_queue w' → task_id_at (objs w') b ≠ Some task_id.
Proof.
  intros Ha Htk Hst. unfold cancel_task. rewrite Ha, Htk.
  rewrite bool_decide_eq_false_2 by (by rewrite Hst).
  eexists. split; [done|]. cbn. split.
  - rewrite list_lookup_alter_eq, Htk. cbn. unfold Task.cancel.
    by rewrite bool_decide_eq_false_2 by (by rewrite Hst).
  - intros b Hb. unfold the_queue in Hb. cbn in Hb.
    destruct (heapify_ok (lt_at (alter Task.cancel a (objs w)))
                (lt_at_asym _) (lt_at_negtrans _)
                (filter (λ t, task_id_at (alter Task.cancel a (objs w)) t
                              ≠ Some task_id)
                   (QueueManager._queue (_queue_manager w)))) as [_ HP].
    rewrite HP in Hb. by apply list_elem_of_filter in Hb as [? _].
Qed.

(** What an operation leaves alone. *)
Lemma update_task_status_other task_id status w a :
  get_task task_id w ≠ Some a →
  objs (update_task_status task_id status w).2 !! a = objs w !! a.
Proof.
  unfold update_task_status, get_task. intros Hne.
  destruct (_ !! task_id) as [b|]; [|done]. cbn.
  apply list_lookup_alter_ne. congruence.
Qed.

Lemma execute_task_begin_other i b w a :
  a ≠ b → (∀ tk, objs w !! b = Some tk → get_task (Task.task_id tk) w ≠ Some a) →
  objs (execute_task_begin i b w) !! a = objs w !! a.
Proof.
  intros Hab Hreg. unfold execute_task_begin.
  destruct (_workers w !! i) as [self|]; [|done].
  destruct (objs w !! b) as [tk|] eqn:Htk; [|done].
  specialize (Hreg tk eq_refl). unfold update_task_status, get_task in *. cbn.
  destruct (_ !! Task.task_id tk) as [b'|]; cbn.
  - rewrite !list_lookup_alter_ne by congruence. done.
  - rewrite !list_lookup_alter_ne by congruence. done.
Qed.

Lemma execute_task_end_other i b t0 t1 w a :
  a ≠ b → objs (execute_task_end i b t0 t1 w).2 !! a = objs w !! a.
Proof.
  intros Hab. unfold execute_task_end.
  destruct (_workers w !! i) as [self|]; [|done].
  destruct (objs w !! b) as [tk|]; [|done].
  destruct (Task.execute_call t0 t1 tk) as [tk' [r|e]]; cbn;
    by rewrite list_lookup_alter_ne, list_lookup_insert_ne by done.
Qed.

Lemma step_results c w id :
  (∀ i b t0 t1, c = ExecuteTaskEnd i b t0 t1 → task_id_at (objs w) b ≠ Some id) →
  get_result id (step c w).2 = get_result id w.
Proof.
  intros Hc. unfold get_result. destruct c; cbn [step snd].
  - destruct (submit_task _ _ _ _ _ _ _ _ _ _ _) as [[e|id'] w'] eqn:E; cbn.
    + revert E. rewrite submit_task_eq. cbn zeta.
      destruct (_ >=? _); [by intros [= _ <-]|].
      destruct (negb _); [by intros [= _ <-]|].
      destruct (_ !! uuid); [by intros [= _ <-]|done].
    + by apply submit_task_inr in E as (_ & _ & _ & _ & ->).
  - unfold get_next_task. by destruct (get_next_task_loop _ _ _ _).
  - unfold cancel_task. destruct (get_task _ _); [|done].
    destruct (objs w !! _); [|done]. by case_bool_decide.
  - unfold retry_task. destruct (get_task _ _); [|done].
    destruct (objs w !! _); [|done]. destruct (negb _); [done|].
    by destruct (Task.reset_for_retry _).
  - unfold update_task_status. by destruct (_ !! task_id).
  - destruct (execute_task_begin_frame i task w) as (_ & _ & Hqm).
    unfold the_task_manager. cbn in *. by rewrite Hqm.
  - specialize (Hc _ _ _ _ eq_refl). unfold execute_task_end, task_id_at in *.
    destruct (_workers w !! i) as [self|]; [|done].
    destruct (objs w !! task) as [tk|]; [|done]. cbn in Hc.
    unfold Task.execute_call.
    destruct (call _ _ _) as [v|e]; cbn.
    + unfold the_task_manager. cbn. rewrite lookup_insert_ne; [done|congruence].
    + destruct (isinstance_Exception e); cbn; [|done].
      unfold the_task_manager. cbn. rewrite lookup_insert_ne; [done|congruence].
Qed.

(** A cancelled task stays cancelled, is never queued or handed out again,
    and gets no result, under every operation that spares it. *)
Lemma step_cancelled id a c w :
  world_inv w → cancelled id a w → spares id a c w →
  cancelled id a (step c w).2
  ∧ get_result id (step c w).2 = get_result id w
  ∧ (step c w).1 ≠ RetTask (Some a).
Proof.
  intros (Hq & Hs & Hr & Hk) (Hid & Hst & Hnq) Hsp.
  destruct (objs w !! a) as [x|] eqn:Hx; [|done]. cbn in Hst. injection Hst as Hst.
  destruct (Hr _ _ Hid) as (x' & Hx' & Htid). rewrite Hx in Hx'. injection Hx' as <-.
  assert (∀ id' b, get_task id' w = Some b → id' ≠ id → b ≠ a) as Hother.
  { intros id' b Hb Hne ->. destruct (Hr _ _ Hb) as (y & Hy & Hyid).
    rewrite Hx in Hy. injection Hy as <-. congruence. }
  destruct (step_inv c w Hq) as [[[_ He] _] _].
  destruct (He _ _ Hx) as (y & Hy & Hsame).
  split_and!; [split_and!|..].
  - unfold get_task in *. destruct (step_tasks c w) as [E|E]; cbn zeta in E;
      [by rewrite E|].
    destruct E as (now & uuid & func & args & priority & timeout & max_retries
                   & scheduled_at & metadata & kwargs & -> & Hnew & E).
    rewrite E. unfold the_task_manager. cbn.
    rewrite lookup_insert_ne; [done|]. intros ->. unfold get_task in Hnew.
    unfold the_task_manager in *. by rewrite Hnew in Hid.
  - rewrite Hy. cbn. f_equal.
    destruct c; cbn [spares] in Hsp.
    + destruct (step_task _ w a x y Hx Hy) as [[-> _]|[]]; done.
    + destruct (step_task _ w a x y Hx Hy) as [[-> _]|[]]; done.
    + destruct (step_task _ w a x y Hx Hy) as [[-> _]|(_ & -> & _)]; done.
    + destruct (step_task _ w a x y Hx Hy) as [[-> _]|(Hf & _)]; [done|].
      by rewrite Hst in Hf.
    + pose proof (update_task_status_other task_id status w a) as Hu.
      cbn [step snd] in Hy. destruct (update_task_status _ _ _) as [r w'].
      cbn in Hu, Hy. rewrite Hu, Hx in Hy; [by injection Hy as <-|].
      intros E. by apply (Hother _ _ E).
    + cbn [step snd] in Hy. destruct Hsp as (Hba & tk & Htk & Hreg).
      rewrite execute_task_begin_other, Hx in Hy; [by injection Hy as <-|done|].
      intros tk' Htk'. rewrite Htk in Htk'. injection Htk' as <-.
      rewrite Hreg. congruence.
    + destruct Hsp as (Hba & _).
      pose proof (execute_task_end_other i task start_time end_time w a) as Hu.
      cbn [step snd] in Hy. destruct (execute_task_end _ _ _ _ _) as [r w'].
      cbn in Hu, Hy. rewrite Hu, Hx in Hy; [by injection Hy as <-|done].
  - intros Hin. destruct (step_queue c w a Hq Hin)
      as [?|[[-> _]|(id' & tk & -> & Ha & Htk & Hcan)]]; [done| |].
    + apply lookup_lt_Some in Hx. lia.
    + rewrite Hx in Htk. injection Htk as <-.
      apply can_retry_true in Hcan as [Hf _]. by rewrite Hst in Hf.
  - apply step_results. intros i b t0 t1 ->. cbn in Hsp.
    destruct Hsp as (Hba & tk & Htk & Hreg). unfold task_id_at. rewrite Htk. cbn.
    intros [= E]. rewrite E in Hreg. congruence.
  - destruct c; cbn [step].
    2:{ destruct (get_next_task now w) as [r w'] eqn:E. cbn. intros [= ->].
        destruct (get_next_task_ok _ _ _ _ Hq E) as (_ & _ & Hsub & _).
        apply Hnq. eapply elem_of_submseteq; [|exact Hsub]. by left. }
    all: try match goal with
             | |- context [let '(_, _) := ?u in _] => destruct u
             end; by cbn.
Qed.

Lemma turn_ops_works i now t0 t1 w :
  run (turn_ops (Works i now t0 t1) w) w = _worker_loop_turn i now t0 t1 w.
Proof.
  unfold turn_ops, _worker_loop_turn.
  destruct (get_next_task now w) as [[b|] w1] eqn:E; cbn [fst run step snd];
    rewrite E; cbn [snd]; [|done].
  unfold execute_task. by destruct (execute_task_end _ _ _ _ _).
Qed.

Lemma run_turns_inv ts w : world_inv w → world_inv (run_turns ts w).
Proof.
  revert w. induction ts as [|t ts IH]; intros w Hw; [done|].
  cbn [run_turns]. by apply IH, run_world_inv.
Qed.

Lemma turn_cancelled id a t w :
  world_inv w → cancelled id a w →
  cancelled id a (run (turn_ops t w) w)
  ∧ get_result id (run (turn_ops t w) w) = get_result id w.
Proof.
  intros Hw Hc.
  assert (∀ c, spares id a c w →
               cancelled id a (run [c] w)
               ∧ get_result id (run [c] w) = get_result id w) as Hone.
  { intros c Hsp. destruct (step_cancelled id a c w Hw Hc Hsp) as (? & ? & _).
    done. }
  destruct t; cbn [turn_ops]; try by apply Hone.
  destruct (get_next_task now w) as [[b|] w1] eqn:E; cbn [fst]; [|by apply Hone].
  destruct Hw as (Hq & Hs & Hr & Hk).
  destruct (get_next_task_ok _ _ _ _ Hq E) as (Ho & _ & Hsub & _).
  assert (b ∈ the_queue w) as Hb.
  { eapply elem_of_submseteq; [|exact Hsub]. by left. }
  destruct (Hk b Hb) as (tk & Htk & Hreg).
  assert (b ≠ a) as Hba by (destruct Hc as (_ & _ & Hnq); congruence).
  assert (∀ id', get_task id' w1 = get_task id' w) as Hreg1.
  { intros id'. unfold get_next_task in E.
    destruct (get_next_task_loop _ _ _ _). by injection E as _ <-. }
  pose proof (step_world_inv (GetNextTask now) w
                (conj Hq (conj Hs (conj Hr Hk)))) as Hw1.
  destruct (step_cancelled id a (GetNextTask now) w) as (Hc1 & Hres1 & _);
    [done..|].
  assert ((step (GetNextTask now) w).2 = w1) as E1 by (cbn [step]; by rewrite E).
  rewrite E1 in Hw1, Hc1, Hres1.
  destruct (step_cancelled id a (ExecuteTaskBegin i b) w1) as (Hc2 & Hres2 & _);
    [done|done|..].
  { split; [done|]. exists tk. by rewrite Ho, Hreg1. }
  pose proof (step_world_inv (ExecuteTaskBegin i b) w1 Hw1) as Hw2.
  cbn [step snd] in Hw2, Hc2, Hres2.
  destruct (step_cancelled id a (ExecuteTaskEnd i b start_time end_time)
              (execute_task_begin i b w1)) as (Hc3 & Hres3 & _); [done|done|..].
  { split; [done|].
    destruct (execute_task_begin_frame i b w1) as ([_ He] & _ & Hqm).
    destruct (He b tk) as (tk2 & Htk2 & Hsame); [by rewrite Ho|].
    exists tk2. split; [done|].
    destruct Hsame as (_ & _ & _ & -> & _).
    unfold get_task, the_task_manager in *. rewrite Hqm.
    specialize (Hreg1 (Task.task_id tk)). by rewrite Hreg1. }
  cbn [run]. rewrite E1.
  change (step (ExecuteTaskBegin i b) w1).2 with (execute_task_begin i b w1).
  split; [done|]. by rewrite Hres3, Hres2.
Qed.

Lemma run_turns_cancelled id a ts w :
  world_inv w → cancelled id a w →
  cancelled id a (run_turns ts w)
  ∧ get_result id (run_turns ts w) = get_result id w.
Proof.
  revert w. induction ts as [|t ts IH]; intros w Hw Hc; [done|].
  cbn [run_turns].
  destruct (turn_cancelled id a t w Hw Hc) as [Hc1 Hres1].
  destruct (IH _ (run_world_inv _ _ Hw) Hc1) as [Hc2 Hres2].
  split; [done|]. by rewrite Hres2.
Qed.

(** C5: the code breaks the claim.  What holds: [cancel_task] on a RUNNING
    task returns false and changes nothing; on a PENDING task it returns
    true, marks the task CANCELLED and leaves no entry with its [task_id] in
    the heap; and when every worker runs a task as soon as it has fetched
    it, no result is stored for the cancelled task afterwards.  What fails:
    a task that [get_next_task] has handed to a worker is still PENDING
    until the worker starts it; cancelling it at that moment succeeds, and
    the worker then runs it all the same: a COMPLETED result is stored for
    the cancelled task. *)
Theorem cancel_after_dispatch_still_runs :
  (∀ task_id w a tk,
     get_task task_id w = Some a → objs w !! a = Some tk →
     Task.status tk = RUNNING → cancel_task task_id w = (false, w))
  ∧ (∀ task_id w a tk,
       get_task task_id w = Some a → objs w !! a = Some tk →
       Task.status tk = PENDING →
       ∃ w', cancel_task task_id w = (true, w')
             ∧ objs w' !! a = Some (Task.set_status CANCELLED tk)
             ∧ ∀ b, b ∈ the_queue w' → task_id_at (objs w') b ≠ Some task_id)
  ∧ (∀ mq ws ts task_id a tk ts',
       let w := run_turns ts (new_world mq ws) in
       get_task task_id w = Some a → objs w !! a = Some tk →
       Task.status tk = PENDING →
       let w' := run_turns ts' (cancel_task task_id w).2 in
       get_task_result task_id w' = get_task_result task_id w
       ∧ get_task_status task_id w' = Some CANCELLED)
  ∧ (let w0 := run [submit_plain 1 "t" returns_7 NORMAL 3]
                 (new_world 1000 one_worker) in
     let w1 := (get_next_task 2 w0).2 in
     let w2 := (cancel_task "t" w1).2 in
     let w3 := (execute_task 0 0 3 4 w2).2 in
     (get_next_task 2 w0).1 = Some 0%nat
     ∧ get_task_status "t" w1 = Some PENDING
     ∧ (cancel_task "t" w1).1 = true
     ∧ get_task_status "t" w2 = Some CANCELLED
     ∧ the_queue w2 = []
     ∧ get_task_result "t" w2 = None
     ∧ get_task_status "t" w3 = Some COMPLETED
     ∧ TaskResult.status <$> get_task_result "t" w3 = Some COMPLETED
     ∧ TaskResult.result <$> get_task_result "t" w3 = Some (PyInt 7)).
Proof.
  split_and!.
  - apply cancel_task_running.
  - apply cancel_task_pending.
  - intros mq ws ts task_id a tk ts' w Ha Htk Hst w'.
    pose proof (run_turns_inv ts _ (new_world_inv mq ws)) as Hw. fold w in Hw.
    pose proof (step_world_inv (CancelTask task_id) w Hw) as Hw1.
    destruct (cancel_task_pending task_id w a tk Ha Htk Hst) as (w1 & E & Hy & Hnq).
    assert (get_task task_id w1 = Some a ∧ get_result task_id w1 = get_result task_id w)
      as [Ha1 Hres1].
    { revert E. unfold cancel_task. rewrite Ha, Htk.
      rewrite bool_decide_eq_false_2 by (by rewrite Hst). by intros [= <-]. }
    subst w'. cbn [step] in Hw1. rewrite E in Hw1 |- *. cbn [snd] in Hw1 |- *.
    destruct (run_turns_cancelled task_id a ts' w1 Hw1) as [(Ha2 & Hst2 & _) Hres2].
    { split_and!; [done|by rewrite Hy|].
      intros Hin. apply (Hnq a Hin). unfold task_id_at. rewrite Hy. cbn.
      destruct Hw as (_ & _ & Hr & _).
      destruct (Hr _ _ Ha) as (tk' & Htk' & Hid). congruence. }
    unfold get_task_result, get_task_status. rewrite Ha2, Hres2. done.
  - by vm_compute.
Qed.

Lemma cancel_after_dispatch_still_runs_witness :
  let w := run_turns [Submits 1 "t" (Function returns_7) [] NORMAL None 3 None None ∅]
             (new_world 1000 one_worker) in
  let w' := run_turns [Works 0 2 3 4] (cancel_task "t" w).2 in
  get_task_result "t" w' = get_task_result "t" w
  ∧ get_task_status "t" w' = Some CANCELLED.
Proof.
  refine (proj1 (proj2 (proj2 cancel_after_dispatch_still_runs)) 1000 one_worker
            [Submits 1 "t" (Function returns_7) [] NORMAL None 3 None None ∅]
            "t" 0%nat
            (new_task 1 "t" (Function returns_7) [] NORMAL None 3 None None ∅)
            [Works 0 2 3 4] _ _ _); by vm_compute.
Defined.

(** ** Retrying *)

Lemma retry_task_true task_id w a tk :
  get_task task_id w = Some a → objs w !! a = Some tk →
  Task.can_retry tk = true →
  retry_task task_id w =
  (true,
   with_queue
     (heapq.heappush (lt_at (<[a := reset tk]> (objs w))) (the_queue w) a)
     (with_objs (<[a := reset tk]> (objs w)) w)).
Proof.
  intros Ha Htk Hcan. unfold retry_task, Task.reset_for_retry.
  by rewrite Ha, Htk, Hcan.
Qed.

(** C6.  [retry_task] succeeds exactly when the task is registered, FAILED
    and [retry_count < max_retries]; it then adds one to [retry_count],
    makes the task PENDING, clears [worker_id] and [result], and pushes the
    task onto the heap; otherwise it returns false and changes nothing.  A
    task with [max_retries = 2] that always fails is retried twice, and the
    third retry (and any later one) returns false, the task staying
    FAILED. *)
Theorem retry_task_spec :
  (∀ task_id w,
     (retry_task task_id w).1 = true ↔
     ∃ a tk, get_task task_id w = Some a ∧ objs w !! a = Some tk
             ∧ Task.status tk = FAILED
             ∧ Task.retry_count tk < Task.max_retries tk)
  ∧ (∀ mq ws cs task_id a tk,
       let w := run cs (new_world mq ws) in
       get_task task_id w = Some a → objs w !! a = Some tk →
       Task.status tk = FAILED → Task.retry_count tk < Task.max_retries tk →
       let o := <[a := reset tk]> (objs w) in
       retry_task task_id w
         = (true, with_queue (heapq.heappush (lt_at o) (the_queue w) a)
                    (with_objs o w))
       ∧ Task.retry_count (reset tk) = Task.retry_count tk + 1
       ∧ Task.status (reset tk) = PENDING
       ∧ Task.worker_id (reset tk) = None
       ∧ Task.result (reset tk) = None
       ∧ same_identity tk (reset tk)
       ∧ heapq.heappush (lt_at o) (the_queue w) a ≡ₚ a :: the_queue w)
  ∧ (∀ task_id w, (retry_task task_id w).1 = false → (retry_task task_id w).2 = w)
  ∧ (let w1 := run (submit_plain 1 "t" always_fails NORMAL 2 :: attempt 2)
                 (new_world 1000 one_worker) in
     let w2 := run (attempt 4) (retry_task "t" w1).2 in
     let w3 := run (attempt 6) (retry_task "t" w2).2 in
     get_task_status "t" w1 = Some FAILED ∧ (retry_task "t" w1).1 = true
     ∧ get_task_status "t" w2 = Some FAILED ∧ (retry_task "t" w2).1 = true
     ∧ get_task_status "t" w3 = Some FAILED
     ∧ Task.retry_count <$> objs w3 !! 0%nat = Some 2
     ∧ retry_task "t" w3 = (false, w3)
     ∧ get_task_status "t" (retry_task "t" w3).2 = Some FAILED).
Proof.
  split_and!.
  - intros task_id w. unfold retry_task. split.
    + destruct (get_task task_id w) as [a|] eqn:Ha; [|done].
      destruct (objs w !! a) as [tk|] eqn:Htk; [|done].
      destruct (Task.can_retry tk) eqn:Hcan; [|done].
      intros _. apply can_retry_true in Hcan as [? ?]. by exists a, tk.
    + intros (a & tk & -> & -> & Hst & Hlt).
      assert (Task.can_retry tk = true) as Hcan by (by apply can_retry_true).
      unfold Task.reset_for_retry. by rewrite Hcan.
  - intros mq ws cs task_id a tk w Ha Htk Hst Hlt o.
    assert (Task.can_retry tk = true) as Hcan by (by apply can_retry_true).
    split_and!; [by apply retry_task_true|done..| |].
    { by repeat split. }
    destruct (run_world_inv cs _ (new_world_inv mq ws)) as [Hq _]. fold w in Hq.
    apply heap_inv_push.
    + eapply heap_inv_evolves; [|exact Hq].
      eapply evolves_insert; [done|]. by repeat split.
    + unfold o. rewrite length_insert. by eapply lookup_lt_Some.
  - intros task_id w. unfold retry_task.
    destruct (get_task task_id w) as [a|]; [|done].
    destruct (objs w !! a) as [tk|]; [|done].
    destruct (Task.can_retry tk) eqn:Hcan; [|done].
    unfold Task.reset_for_retry. by rewrite Hcan.
  - by vm_compute.
Qed.

Lemma retry_task_spec_witness :
  let w := run (submit_plain 1 "t" always_fails NORMAL 2 :: attempt 2)
             (new_world 1000 one_worker) in
  ∃ tk,
    objs w !! 0%nat = Some tk
    ∧ Task.retry_count tk = 0 ∧ Task.max_retries tk = 2
    ∧ (retry_task "t" w).1 = true
    ∧ heapq.heappush (lt_at (<[0%nat := reset tk]> (objs w))) (the_queue w) 0%nat
      ≡ₚ 0%nat :: the_queue w.
Proof.
  eexists. split; [by vm_compute|]. split; [done|]. split; [done|].
  split; [by vm_compute|].
  refine (proj2 (proj2 (proj2 (proj2 (proj2 (proj2
            (proj1 (proj2 retry_task_spec) 1000 one_worker
               (submit_plain 1 "t" always_fails NORMAL 2 :: attempt 2)
               "t" 0%nat _ _ _ _ _))))))); by vm_compute.
Defined.

(** ** Executing *)

Lemma execute_raises t0 t1 self e :
  call (Task.func self) (Task.args self) (Task.kwargs self) = Raises e →
  isinstance_Exception e = true →
  let r := TaskResult.mk (Task.task_id self) FAILED PyNone (Some (str e))
             (Some t0) (Some t1) (Some (t1 - t0)) (Task.metadata self) in
  Task.execute t0 t1 self
  = (Task.set_result (Some r) (Task.set_status FAILED (Task.execute_start self)),
     inl r).
Proof.
  intros Hcall He. unfold Task.execute, Task.execute_call. cbn.
  by rewrite Hcall, He.
Qed.

Lemma execute_returns t0 t1 self v :
  call (Task.func self) (Task.args self) (Task.kwargs self) = Returns v →
  let r := TaskResult.mk (Task.task_id self) COMPLETED v None
             (Some t0) (Some t1) (Some (t1 - t0)) (Task.metadata self) in
  Task.execute t0 t1 self
  = (Task.set_result (Some r) (Task.set_status COMPLETED (Task.execute_start self)),
     inl r).
Proof.
  intros Hcall. unfold Task.execute, Task.execute_call. cbn. by rewrite Hcall.
Qed.

Lemma execute_task_begin_lookup i task w self tk :
  _workers w !! i = Some self → objs w !! task = Some tk →
  let w1 := execute_task_begin i task w in
  is_Some (_workers w1 !! i)
  ∧ _queue_manager w1 = _queue_manager w
  ∧ ∃ tk1, objs w1 !! task = Some tk1 ∧ same_identity tk tk1.
Proof.
  intros Hi Htk.
  destruct (execute_task_begin_frame i task w) as ([_ He] & _ & Hqm).
  split_and!; [|done|by apply He].
  unfold execute_task_begin. rewrite Hi, Htk.
  unfold update_task_status. cbn.
  destruct (_ !! Task.task_id tk); cbn;
    rewrite list_lookup_insert_eq by eauto using lookup_lt_Some; eauto.
Qed.

(** What [execute_task] does when the wrapped function ends with an outcome
    that [Task.execute] turns into a result. *)
Lemma execute_task_result i task t0 t1 w self tk status v err :
  _workers w !! i = Some self → objs w !! task = Some tk →
  (∀ tk1, same_identity tk tk1 →
     let r := TaskResult.mk (Task.task_id tk) status v err (Some t0) (Some t1)
                (Some (t1 - t0)) (Task.metadata tk) in
     Task.execute_call t0 t1 tk1
     = (Task.set_result (Some r) (Task.set_status status tk1), inl r)) →
  let r := TaskResult.mk (Task.task_id tk) status v err (Some t0) (Some t1)
             (Some (t1 - t0)) (Task.metadata tk) in
  ∃ w', execute_task i task t0 t1 w = (Some (inl r), w')
        ∧ get_result (Task.task_id tk) w' = Some r
        ∧ Task.status <$> objs w' !! task = Some status
        ∧ Task.worker_id <$> objs w' !! task = Some None.
Proof.
  intros Hi Htk Hcall r.
  destruct (execute_task_begin_lookup i task w self tk Hi Htk)
    as ([self1 Hi1] & _ & tk1 & Htk1 & Hid).
  unfold execute_task, execute_task_end. rewrite Hi1, Htk1, (Hcall tk1 Hid).
  eexists. split; [done|]. cbn. split_and!.
  - unfold get_result. cbn. by rewrite lookup_insert_eq.
  - rewrite list_lookup_alter_eq, list_lookup_insert_eq
      by eauto using lookup_lt_Some. done.
  - rewrite list_lookup_alter_eq, list_lookup_insert_eq
      by eauto using lookup_lt_Some. done.
Qed.

(** C7.  When the wrapped function raises an exception, [execute] returns a
    FAILED result whose [error] is the exception's message and marks the
    task FAILED; when it returns, [execute] returns a COMPLETED result
    carrying the returned value.  The same holds of the worker's
    [execute_task], which returns that result and stores it. *)
Theorem execute_contains_exceptions :
  (∀ t0 t1 self e,
     call (Task.func self) (Task.args self) (Task.kwargs self) = Raises e →
     isinstance_Exception e = true →
     ∃ self' r,
       Task.execute t0 t1 self = (self', inl r)
       ∧ TaskResult.status r = FAILED ∧ TaskResult.error r = Some (str e)
       ∧ TaskResult.task_id r = Task.task_id self
       ∧ Task.status self' = FAILED ∧ Task.result self' = Some r)
  ∧ (∀ t0 t1 self v,
       call (Task.func self) (Task.args self) (Task.kwargs self) = Returns v →
       ∃ self' r,
         Task.execute t0 t1 self = (self', inl r)
         ∧ TaskResult.status r = COMPLETED ∧ TaskResult.result r = v
         ∧ TaskResult.task_id r = Task.task_id self
         ∧ Task.status self' = COMPLETED ∧ Task.result self' = Some r)
  ∧ (∀ i task t0 t1 w self tk e,
       _workers w !! i = Some self → objs w !! task = Some tk →
       call (Task.func tk) (Task.args tk) (Task.kwargs tk) = Raises e →
       isinstance_Exception e = true →
       ∃ r w',
         execute_task i task t0 t1 w = (Some (inl r), w')
         ∧ TaskResult.status r = FAILED ∧ TaskResult.error r = Some (str e)
         ∧ get_result (Task.task_id tk) w' = Some r
         ∧ Task.status <$> objs w' !! task = Some FAILED)
  ∧ (∀ i task t0 t1 w self tk v,
       _workers w !! i = Some self → objs w !! task = Some tk →
       call (Task.func tk) (Task.args tk) (Task.kwargs tk) = Returns v →
       ∃ r w',
         execute_task i task t0 t1 w = (Some (inl r), w')
         ∧ TaskResult.status r = COMPLETED ∧ TaskResult.result r = v
         ∧ get_result (Task.task_id tk) w' = Some r
         ∧ Task.status <$> objs w' !! task = Some COMPLETED).
Proof.
  split_and!.
  - intros t0 t1 self e Hcall He. eexists _, _.
    split; [by apply execute_raises|]. by split_and!.
  - intros t0 t1 self v Hcall. eexists _, _.
    split; [by apply execute_returns|]. by split_and!.
  - intros i task t0 t1 w self tk e Hi Htk Hcall He.
    destruct (execute_task_result i task t0 t1 w self tk FAILED PyNone
                (Some (str e)) Hi Htk) as (w' & E & Hres & Hst & _).
    { intros tk1 (Ef & Ea & Ek & Et & _ & _ & _ & _ & _ & Em).
      unfold Task.execute_call. by rewrite Ef, Ea, Ek, Et, Em, Hcall, He. }
    eexists _, w'. by split_and!.
  - intros i task t0 t1 w self tk v Hi Htk Hcall.
    destruct (execute_task_result i task t0 t1 w self tk COMPLETED v None Hi Htk)
      as (w' & E & Hres & Hst & _).
    { intros tk1 (Ef & Ea & Ek & Et & _ & _ & _ & _ & _ & Em).
      unfold Task.execute_call. by rewrite Ef, Ea, Ek, Et, Em, Hcall. }
    eexists _, w'. by split_and!.
Qed.

Lemma execute_contains_exceptions_witness :
  let w := (get_next_task 2
              (run [submit_plain 1 "t" always_fails NORMAL 3]
                 (new_world 1000 one_worker))).2 in
  ∃ r w',
    execute_task 0 0 3 4 w = (Some (inl r), w')
    ∧ TaskResult.status r = FAILED ∧ TaskResult.error r = Some "boom"
    ∧ get_result "t" w' = Some r
    ∧ Task.status <$> objs w' !! 0%nat = Some FAILED.
Proof.
  refine (proj1 (proj2 (proj2 execute_contains_exceptions)) 0%nat 0%nat 3 4 _
            (TaskWorker.mk "worker-1" true None)
            (new_task 1 "t" (Function always_fails) [] NORMAL None 3 None None ∅)
            {| isinstance_Exception := true; str := "boom" |} _ _ _ _);
    by vm_compute.
Defined.

(** C9, as stated, fails: a function that returns None gives a COMPLETED
    result with neither [result] nor [error] set. *)
Lemma execute_returning_None :
  let tk := new_task 1 "t" (Function returns_None) [] NORMAL None 3 None None ∅ in
  match (Task.execute 2 3 tk).2 with
  | inl r => TaskResult.status r = COMPLETED
             ∧ TaskResult.result r = PyNone ∧ TaskResult.error r = None
  | inr _ => False
  end.
Proof. by vm_compute. Qed.

(** C9, amended.  A result produced by [execute] never has both fields set:
    a COMPLETED result has no [error] and carries in [result] what the
    wrapped function returned (None when it returned None, both fields then
    being absent); a FAILED result has no [result] and carries the
    exception's message in [error]. *)
Theorem execute_result_or_error :
  ∀ t0 t1 self self' r,
    Task.execute t0 t1 self = (self', inl r) →
    (TaskResult.status r = COMPLETED ∧ TaskResult.error r = None
     ∧ call (Task.func self) (Task.args self) (Task.kwargs self)
       = Returns (TaskResult.result r))
    ∨ (TaskResult.status r = FAILED ∧ TaskResult.result r = PyNone
       ∧ ∃ e, call (Task.func self) (Task.args self) (Task.kwargs self) = Raises e
              ∧ isinstance_Exception e = true
              ∧ TaskResult.error r = Some (str e)).
Proof.
  intros t0 t1 self self' r. unfold Task.execute, Task.execute_call. cbn.
  destruct (call _ _ _) as [v|e] eqn:Hcall.
  - intros [= _ <-]. left. by split_and!.
  - destruct (isinstance_Exception e) eqn:He; [|done].
    intros [= _ <-]. right. split_and!; [done..|]. by exists e.
Qed.

Lemma execute_result_or_error_witness :
  let tk := new_task 1 "t" (Function always_fails) [] NORMAL None 3 None None ∅ in
  ∃ r,
    (Task.execute 2 3 tk).2 = inl r
    ∧ ((TaskResult.status r = COMPLETED ∧ TaskResult.error r = None
        ∧ call (Task.func tk) (Task.args tk) (Task.kwargs tk)
          = Returns (TaskResult.result r))
       ∨ (TaskResult.status r = FAILED ∧ TaskResult.result r = PyNone
          ∧ ∃ e, call (Task.func tk) (Task.args tk) (Task.kwargs tk) = Raises e
                 ∧ isinstance_Exception e = true
                 ∧ TaskResult.error r = Some (str e))).
Proof.
  eexists. split; [by vm_compute|].
  refine (execute_result_or_error 2 3
            (new_task 1 "t" (Function always_fails) [] NORMAL None 3 None None ∅)
            _ _ _); by vm_compute.
Defined.

(** ** Submitting *)

(** C8, as stated, fails: on a queue that is not full, a submission whose
    [func] is not callable raises no queue-full error, and yet no task is
    created, registered or queued and no [task_id] is returned. *)
Lemma submit_task_not_full_not_callable :
  let w := new_world 1000 [] in
  Z.of_nat (length (the_queue w)) < QueueManager.max_queue_size (_queue_manager w)
  ∧ submit_task 1 "t" (Value (PyInt 42)) [] NORMAL None 3 None None ∅ w
    = (inl (ValueError "func must be callable"), w).
Proof. by vm_compute. Qed.

(** C8, amended.  [submit_task] raises the queue-full error exactly when the
    queue holds [max_queue_size] entries or more, and then changes nothing.
    Otherwise, when [func] is callable and the generated [task_id] is not
    registered yet, it creates a PENDING task, registers it under its
    [task_id], pushes it onto the heap and returns the [task_id]. *)
Theorem submit_task_spec :
  ∀ mq ws cs now uuid func args priority timeout max_retries scheduled_at
    metadata kwargs,
    let w := run cs (new_world mq ws) in
    let r := submit_task now uuid func args priority timeout max_retries
               scheduled_at metadata kwargs w in
    let max := QueueManager.max_queue_size (_queue_manager w) in
    let tk := new_task now uuid func args priority timeout max_retries
                scheduled_at metadata kwargs in
    (r.1 = inl (QueueError (queue_full max)) ↔ max ≤ Z.of_nat (length (the_queue w)))
    ∧ (max ≤ Z.of_nat (length (the_queue w)) → r.2 = w)
    ∧ (Z.of_nat (length (the_queue w)) < max → callable func = true →
       get_task uuid w = None →
       r.1 = inr uuid
       ∧ objs r.2 = objs w ++ [tk]
       ∧ Task.status tk = PENDING ∧ Task.task_id tk = uuid
       ∧ get_task uuid r.2 = Some (length (objs w))
       ∧ (∀ id, id ≠ uuid → get_task id r.2 = get_task id w)
       ∧ the_queue r.2
         = heapq.heappush (lt_at (objs r.2)) (the_queue w) (length (objs w))
       ∧ the_queue r.2 ≡ₚ length (objs w) :: the_queue w).
Proof.
  intros mq ws cs now uuid func args priority timeout max_retries scheduled_at
    metadata kwargs w r max tk.
  subst r. rewrite submit_task_eq. cbn zeta. fold max.
  destruct (Z.geb_spec (Z.of_nat (length (the_queue w))) max) as [Hfull|Hfree].
  { split_and!; [by split; [lia|]|done|lia]. }
  split_and!; [|lia|].
  { split; [|lia]. destruct (negb _); [done|]. by destruct (_ !! uuid). }
  intros _ -> Hnew. unfold get_task in Hnew. cbn [negb]. rewrite Hnew.
  cbn. split_and!; try done.
  - unfold get_task. cbn. by rewrite lookup_insert_eq.
  - intros id Hid. unfold get_task. cbn. by rewrite lookup_insert_ne.
  - destruct (run_world_inv cs _ (new_world_inv mq ws)) as [Hq _]. fold w in Hq.
    unfold the_queue. cbn. apply heap_inv_push.
    + eapply heap_inv_evolves; [apply evolves_app|exact Hq].
    + rewrite length_app. cbn. lia.
Qed.

Lemma submit_task_spec_witness :
  let w := run [submit_plain 1 "a" returns_7 LOW 3] (new_world 1000 []) in
  let r := submit_task 2 "b" (Function returns_7) [] HIGH None 3 None None ∅ w in
  r.1 = inr "b"
  ∧ get_task "b" r.2 = Some 1%nat
  ∧ the_queue r.2 ≡ₚ 1%nat :: the_queue w.
Proof.
  split; [by vm_compute|]. split; [by vm_compute|].
  refine (proj2 (proj2 (proj2 (proj2 (proj2 (proj2 (proj2
            (proj2 (proj2
               (submit_task_spec 1000 [] [submit_plain 1 "a" returns_7 LOW 3]
                  2 "b" (Function returns_7) [] HIGH None 3 None None ∅))
               _ _ _)))))))); by vm_compute.
Defined.

(** C10, as stated, fails: on a full queue the capacity check comes first,
    so a submission whose [func] is not callable raises the queue-full
    error, not ValueError (no task is constructed at all). *)
Lemma submit_task_full_not_callable :
  let w := new_world 0 [] in
  submit_task 1 "t" (Value (PyInt 42)) [] NORMAL None 3 None None ∅ w
  = (inl (QueueError (queue_full 0)), w).
Proof. by vm_compute. Qed.

(** C10, amended.  A submission whose [func] is not callable, on a queue
    that is not full, raises ValueError out of the construction of the task,
    before anything is registered: the registry, the heap and the object
    store are unchanged.  (On a full queue it raises the queue-full error
    instead, and changes nothing either.) *)
Theorem submit_task_not_callable :
  ∀ now uuid func args priority timeout max_retries scheduled_at metadata
    kwargs w,
    callable func = false →
    let r := submit_task now uuid func args priority timeout max_retries
               scheduled_at metadata kwargs w in
    let max := QueueManager.max_queue_size (_queue_manager w) in
    Task.__init__ func args kwargs uuid priority timeout max_retries now
      scheduled_at (default ∅ metadata) = inl (ValueError "func must be callable")
    ∧ (Z.of_nat (length (the_queue w)) < max →
       r = (inl (ValueError "func must be callable"), w))
    ∧ (max ≤ Z.of_nat (length (the_queue w)) →
       r = (inl (QueueError (queue_full max)), w)).
Proof.
  intros now uuid func args priority timeout max_retries scheduled_at metadata
    kwargs w Hfunc r max.
  split.
  { unfold Task.__init__, Task.__post_init__. cbn. by rewrite Hfunc. }
  subst r. rewrite submit_task_eq. cbn zeta. fold max. rewrite Hfunc. cbn [negb].
  destruct (Z.geb_spec (Z.of_nat (length (the_queue w))) max); split; (done || lia).
Qed.

Lemma submit_task_not_callable_witness :
  let w := run [submit_plain 1 "a" returns_7 LOW 3] (new_world 1000 []) in
  submit_task 2 "b" (Value (PyStr "not a function")) [] HIGH None 3 None None ∅ w
  = (inl (ValueError "func must be callable"), w).
Proof.
  refine (proj1 (proj2
            (submit_task_not_callable 2 "b" (Value (PyStr "not a function")) []
               HIGH None 3 None None ∅ _ _)) _); by vm_compute.
Defined.

(** * Further properties of the queue code *)

(** ** The order of tasks *)

Lemma Task_lt_true x y :
  Task.__lt__ x y = true ↔
  priority_value (Task.priority y) < priority_value (Task.priority x)
  ∨ (Task.priority x = Task.priority y ∧ Task.created_at x < Task.created_at y).
Proof.
  unfold Task.__lt__.
  destruct (Z.eqb_spec (priority_value (Task.priority x))
              (priority_value (Task.priority y))) as [E|NE]; simpl.
  - destruct (Z.ltb_spec (Task.created_at x) (Task.created_at y));
      split; intros Hxy; try done.
    + right. split; [by apply priority_value_inj|done].
    + destruct Hxy as [?|[_ ?]]; lia.
  - destruct (Z.ltb_spec (priority_value (Task.priority y))
                (priority_value (Task.priority x)));
      split; intros Hxy; try done.
    + by left.
    + destruct Hxy as [?|[E ?]]; [lia|]. by rewrite E in NE.
Qed.

(** X1 ([Task.__lt__]): the comparison the heap sorts by is a strict weak
    order.  It is irreflexive, asymmetric and transitive; it puts the task
    of higher priority first and, among equal priorities, the one created
    earlier; and two tasks are left unordered exactly when they have the
    same priority and the same creation time. *)
Theorem Task_lt_strict_weak_order :
  (∀ x, Task.__lt__ x x = false)
  ∧ (∀ x y, Task.__lt__ x y = true → Task.__lt__ y x = false)
  ∧ (∀ x y z, Task.__lt__ x y = true → Task.__lt__ y z = true →
              Task.__lt__ x z = true)
  ∧ (∀ x y,
       Task.__lt__ x y = true ↔
       priority_value (Task.priority y) < priority_value (Task.priority x)
       ∨ (Task.priority x = Task.priority y
          ∧ Task.created_at x < Task.created_at y))
  ∧ (∀ x y,
       Task.__lt__ x y = false ∧ Task.__lt__ y x = false ↔
       Task.priority x = Task.priority y ∧ Task.created_at x = Task.created_at y).
Proof.
  split_and!.
  - intros x. destruct (Task.__lt__ x x) eqn:E; [|done].
    apply Task_lt_true in E as [?|[_ ?]]; lia.
  - apply Task_lt_asym.
  - intros x y z [H1|[H1 H1']]%Task_lt_true [H2|[H2 H2']]%Task_lt_true;
      apply Task_lt_true.
    + left. lia.
    + left. by rewrite <- H2.
    + left. by rewrite H1.
    + right. split; [congruence|lia].
  - apply Task_lt_true.
  - intros x y. split.
    + intros [H1 H2]. apply Task_lt_false in H1, H2.
      unfold dispatch_order in *.
      destruct H1 as [H1|[H1 H1']], H2 as [H2|[H2 H2']]; try lia.
      * rewrite H2 in H1. lia.
      * rewrite H1 in H2. lia.
      * split; [done|lia].
    + intros [Hp Hc]. split; apply Task_lt_false; right; split; (done || lia).
Qed.

(** ** Bounds kept by every history *)

Lemma step_max_queue_size c w :
  QueueManager.max_queue_size (_queue_manager (step c w).2)
  = QueueManager.max_queue_size (_queue_manager w).
Proof.
  destruct c; cbn [step snd].
  - destruct (submit_task _ _ _ _ _ _ _ _ _ _ _) as [[e|id] w'] eqn:E; cbn.
    + revert E. rewrite submit_task_eq. cbn zeta.
      destruct (_ >=? _); [by intros [= _ <-]|].
      destruct (negb _); [by intros [= _ <-]|].
      destruct (_ !! uuid); [by intros [= _ <-]|done].
    + by apply submit_task_inr in E as (_ & _ & _ & _ & ->).
  - unfold get_next_task. by destruct (get_next_task_loop _ _ _ _).
  - unfold cancel_task. destruct (get_task _ _); [|done].
    destruct (objs w !! _); [|done]. by case_bool_decide.
  - unfold retry_task. destruct (get_task _ _); [|done].
    destruct (objs w !! _); [|done]. destruct (negb _); [done|].
    by destruct (Task.reset_for_retry _).
  - unfold update_task_status. by destruct (_ !! task_id).
  - destruct (execute_task_begin_frame i task w) as (_ & _ & Hqm).
    cbn in *. by rewrite Hqm.
  - unfold execute_task_end.
    destruct (_workers w !! i) as [self|]; [|done].
    destruct (objs w !! task) as [tk|]; [|done].
    by destruct (Task.execute_call _ _ tk) as [tk' [r|e]].
Qed.

Lemma run_max_queue_size cs w :
  QueueManager.max_queue_size (_queue_manager (run cs w))
  = QueueManager.max_queue_size (_queue_manager w).
Proof.
  revert w. induction cs as [|c cs IH]; intros w; [done|].
  cbn [run]. by rewrite IH, step_max_queue_size.
Qed.

(** What one operation does to the length of the queue. *)
Lemma step_queue_length c w :
  queue_inv w →
  let n := length (the_queue w) in
  let n' := length (the_queue (step c w).2) in
  match c with
  | SubmitTask _ _ _ _ _ _ _ _ _ _ =>
      n' = n
      ∨ (Z.of_nat n < QueueManager.max_queue_size (_queue_manager w)
         ∧ n' = S n)
  | RetryTask _ => (n' ≤ S n)%nat
  | _ => (n' ≤ n)%nat
  end.
Proof.
  intros Hq. destruct c; cbn [step snd]; cbn zeta.
  - destruct (submit_task _ _ _ _ _ _ _ _ _ _ _) as [[e|id] w'] eqn:E; cbn.
    + left. revert E. rewrite submit_task_eq. cbn zeta.
      destruct (_ >=? _); [by intros [= _ <-]|].
      destruct (negb _); [by intros [= _ <-]|].
      destruct (_ !! uuid); [by intros [= _ <-]|done].
    + right. apply submit_task_inr in E as (_ & _ & Hlt & _ & ->).
      split; [done|].
      pose proof (submit_task_inv now uuid func args priority timeout
                    max_retries scheduled_at metadata kwargs w Hq) as _.
      unfold submitted, the_queue. cbn.
      destruct Hq as [Hh Hb].
      assert (heap_inv (objs w ++ [new_task now uuid func args priority timeout
                                     max_retries scheduled_at metadata kwargs])
                (QueueManager._queue (_queue_manager w))) as Hq'.
      { apply (heap_inv_evolves (objs w)); [apply evolves_app|done]. }
      apply heap_inv_push with (a := length (objs w)) in Hq' as [_ Hp].
      * by rewrite Hp.
      * rewrite length_app. cbn. lia.
  - destruct (get_next_task now w) as [r w'] eqn:E.
    destruct (get_next_task_ok _ _ _ _ Hq E) as (_ & _ & Hsub). cbn.
    destruct r as [a|].
    + destruct Hsub as (Hsub & _). apply submseteq_length in Hsub. cbn in Hsub. lia.
    + by apply submseteq_length.
  - unfold cancel_task. destruct (get_task _ _) as [a|]; [|done].
    destruct (objs w !! a) as [tk|]; [|done]. case_bool_decide; [done|].
    cbn. unfold the_queue at 1. cbn.
    destruct (heap_inv_heapify (alter Task.cancel a (objs w))
                (filter (λ t, task_id_at (alter Task.cancel a (objs w)) t
                              ≠ Some task_id) (the_queue w))) as [_ Hp].
    { rewrite length_alter. destruct Hq as [_ Hv].
      rewrite Forall_forall in Hv. apply Forall_forall.
      intros b [_ Hb]%list_elem_of_filter. by apply Hv. }
    rewrite Hp. apply length_filter.
  - unfold retry_task. destruct (get_task _ _) as [a|]; [|cbn; lia].
    destruct (objs w !! a) as [tk|] eqn:Ha; [|cbn; lia].
    destruct (negb _); [cbn; lia|].
    destruct (Task.reset_for_retry tk) as [e|tk'] eqn:Er; [cbn; lia|].
    cbn. unfold the_queue at 1. cbn.
    assert (heap_inv (<[a := tk']> (objs w)) (the_queue w)) as Hq'.
    { apply (heap_inv_evolves (objs w)); [|done].
      apply evolves_insert with (x := tk); [done|].
      by apply same_identity_reset_for_retry. }
    apply heap_inv_push with (a := a) in Hq' as [_ Hp].
    + by rewrite Hp.
    + rewrite length_insert. by eapply lookup_lt_Some.
  - pose proof (update_task_status_frame task_id status w) as H.
    destruct (update_task_status _ _ _) as [r w']. cbn in *.
    destruct H as (_ & _ & Hqm & _). unfold the_queue. by rewrite Hqm.
  - destruct (execute_task_begin_frame i task w) as (_ & _ & Hqm).
    unfold the_queue. cbn. by rewrite Hqm.
  - pose proof (execute_task_end_frame i task start_time end_time w) as H.
    destruct (execute_task_end _ _ _ _ _) as [r w']. cbn in *.
    destruct H as (_ & _ & Hqm). by rewrite Hqm.
Qed.

Lemma run_queue_length cs w B :
  world_inv w →
  Z.max 0 (QueueManager.max_queue_size (_queue_manager w)) ≤ B →
  Z.of_nat (length (the_queue w)) ≤ B →
  Z.of_nat (length (the_queue (run cs w))) ≤ B + Z.of_nat (retries cs).
Proof.
  revert w B. induction cs as [|c cs IH]; intros w B Hw HB Hn; [cbn; lia|].
  cbn [run].
  pose proof (step_world_inv c w Hw) as Hw'.
  pose proof (step_queue_length c w (proj1 Hw)) as Hl. cbn zeta in Hl.
  pose proof (step_max_queue_size c w) as Hm.
  destruct c; cbn [retries];
    try (apply IH; [done|rewrite Hm; lia|lia]).
  specialize (IH _ (B + 1) Hw'). rewrite Hm in IH.
  rewrite Nat2Z.inj_succ. etrans; [apply IH; lia|]. lia.
Qed.

(** X2 ([submit_task], [retry_task]): the capacity check is made by
    [submit_task] only.  After any history the queue is no longer than
    [max_queue_size] plus the number of [retry_task] calls made, and
    [max_queue_size] never changes; a retry does push onto a full queue. *)
Theorem queue_length_bound :
  (∀ mq ws cs,
     let w := run cs (new_world mq ws) in
     Z.of_nat (length (the_queue w)) ≤ Z.max 0 mq + Z.of_nat (retries cs)
     ∧ QueueManager.max_queue_size (_queue_manager w) = mq)
  ∧ (let w := run (submit_plain 1 "a" always_fails NORMAL 3 :: attempt 2
                   ++ [submit_plain 3 "b" returns_7 NORMAL 3; RetryTask "a"])
                (new_world 1 one_worker) in
     length (the_queue w) = 2%nat
     ∧ QueueManager.max_queue_size (_queue_manager w) = 1).
Proof.
  split.
  - intros mq ws cs. cbn zeta. split.
    + apply (run_queue_length cs (new_world mq ws) (Z.max 0 mq));
        [apply new_world_inv|cbn; lia|cbn; lia].
    + by rewrite run_max_queue_size.
  - by vm_compute.
Qed.
(** A property of task objects that holds of a new task and that every
    operation of a history keeps holds of all tasks after that history. *)
Lemma run_objs_Forall (P : Task.t → Prop) (allowed : op → Prop) cs w :
  (∀ c x y, allowed c → task_step c x y → same_identity x y → P x → P y) →
  (∀ now uuid func args priority timeout max_retries scheduled_at metadata
     kwargs,
     P (new_task now uuid func args priority timeout max_retries scheduled_at
          metadata kwargs)) →
  Forall allowed cs →
  world_inv w → Forall P (objs w) → Forall P (objs (run cs w)).
Proof.
  intros Hstep Hnew. revert w.
  induction cs as [|c cs IH]; intros w Hcs Hw HP; [done|].
  apply Forall_cons in Hcs as [Hc0 Hcs].
  cbn [run]. apply IH; [done|by apply step_world_inv|].
  destruct (step_inv c w (proj1 Hw)) as [[[_ He] Hc] _].
  assert (∀ a y, (a < length (objs w))%nat →
                 objs (step c w).2 !! a = Some y → P y) as Hold.
  { intros a y Ha Hy.
    destruct (lookup_lt_is_Some_2 (objs w) a Ha) as [x Hx].
    destruct (He _ _ Hx) as (y' & Hy' & Hid).
    rewrite Hy in Hy'. injection Hy' as <-.
    apply (Hstep c x y); [done|by eapply step_task|done|].
    by eapply (Forall_lookup_1 _ _ _ _ HP). }
  apply Forall_lookup. intros a y Hy.
  destruct (decide (a < length (objs w))%nat) as [Ha|Ha]; [by eapply Hold|].
  assert (length (objs w) < length (objs (step c w).2))%nat as Hlen.
  { apply lookup_lt_Some in Hy. lia. }
  destruct c; try lia.
  destruct Hc as [Hc|Hc]; rewrite Hc in Hy, Hlen; [lia|].
  rewrite length_app in Hlen. cbn in Hlen.
  apply lookup_lt_Some in Hy as Hlt. rewrite length_app in Hlt. cbn in Hlt.
  rewrite lookup_app_r in Hy by lia.
  replace (a - length (objs w))%nat with 0%nat in Hy by lia.
  injection Hy as <-. apply Hnew.
Qed.

(** X3 ([Task.can_retry], [Task.reset_for_retry], [retry_task]): in every
    history the retry count of every task stays between 0 and
    [max_retries] (between 0 and 0 when [max_retries] is negative). *)
Theorem retry_count_bounded :
  ∀ mq ws cs,
    Forall (λ tk, 0 ≤ Task.retry_count tk
                  ≤ Z.max 0 (Task.max_retries tk))
           (objs (run cs (new_world mq ws))).
Proof.
  intros mq ws cs. apply (run_objs_Forall _ (λ _, True)).
  - intros c x y _ Hs Hid.
    destruct Hid as (_ & _ & _ & _ & _ & _ & -> & _).
    destruct Hs as [[_ ->]|Hs]; [done|].
    destruct c; try done; try (destruct Hs as (_ & _ & ->); done);
      try (destruct Hs as (_ & ->); done).
    destruct Hs as (_ & _ & Hlt & ->). lia.
  - intros. cbn. lia.
  - by apply Forall_true.
  - apply new_world_inv.
  - by apply Forall_nil.
Qed.
(** ** Histories of submissions, cancellations, retries and worker turns *)

(** On a queue of PENDING tasks the loop of [get_next_task] makes one turn:
    nothing is dropped. *)
Lemma get_next_task_pending now w r w' :
  queue_inv w → pending_inv w → get_next_task now w = (r, w') →
  match r with
  | Some a => the_queue w ≡ₚ a :: the_queue w'
  | None =>
      the_queue w' ≡ₚ the_queue w
      ∧ (the_queue w = []
         ∨ ∃ a tk, the_queue w !! 0%nat = Some a ∧ objs w !! a = Some tk
                   ∧ Task.is_ready now tk = false)
  end.
Proof.
  intros Hq [Hnd Hp] E. unfold get_next_task in E.
  destruct (decide (the_queue w = [])) as [Eq|Hne].
  { rewrite Eq in E. cbn in E. injection E as <- <-. cbn.
    split; [by rewrite Eq|by left]. }
  destruct (heap_inv_pop (objs w) (the_queue w) Hq Hne)
    as (m & q1 & Hpop & Hq1 & HP & Hm0 & _).
  destruct (the_queue w) as [|a0 q0] eqn:Eq; [done|].
  cbn [length] in E. rewrite get_next_task_loop_S, Hpop in E.
  destruct (Hp m) as (tk & Hm & Hst); [rewrite HP; by left|].
  rewrite Hm in E. destruct (Task.is_ready now tk) eqn:Hr.
  { injection E as <- <-. done. }
  rewrite bool_decide_eq_true_2 in E by done. injection E as <- <-.
  destruct (heap_inv_push (objs w) q1 m Hq1) as [_ H2];
    [by eapply lookup_lt_Some|].
  split; [cbn; by rewrite H2, HP|right; eauto].
Qed.
Lemma submit_task_pending now uuid func args priority timeout max_retries
    scheduled_at metadata kwargs w :
  world_inv w → pending_inv w →
  pending_inv (submit_task now uuid func args priority timeout max_retries
                 scheduled_at metadata kwargs w).2.
Proof.
  intros (Hq & _ & _ & _) [Hnd Hp]. rewrite submit_task_eq. cbn zeta.
  destruct (_ >=? _); [done|]. destruct (negb _); [done|].
  assert (∀ b, b ∈ the_queue w → (b < length (objs w))%nat) as Hlt.
  { intros b Hb. destruct Hq as [_ Hv]. rewrite Forall_forall in Hv. auto. }
  destruct (_ !! uuid); cbn.
  - split; [done|]. intros b Hb. cbn in *.
    destruct (Hp b Hb) as (tk & Htk & Hst). exists tk.
    by rewrite lookup_app_l by auto.
  - set (tk := new_task _ _ _ _ _ _ _ _ _ _).
    destruct (heap_inv_push (objs w ++ [tk]) (the_queue w) (length (objs w)))
      as [_ HP].
    { eapply heap_inv_evolves; [apply evolves_app|done]. }
    { rewrite length_app. cbn. lia. }
    unfold pending_inv, the_queue at 1 2. cbn. split.
    + rewrite HP. apply NoDup_cons. split; [|done].
      intros Hin%Hlt. lia.
    + intros b. rewrite HP. intros [->|Hb]%elem_of_cons.
      * exists tk. by rewrite lookup_app_r, Nat.sub_diag by lia.
      * destruct (Hp b Hb) as (tk' & Htk & Hst). exists tk'.
        by rewrite lookup_app_l by auto.
Qed.

Lemma cancel_task_pending_inv task_id w :
  world_inv w → pending_inv w → pending_inv (cancel_task task_id w).2.
Proof.
  intros (Hq & _ & Hr & _) [Hnd Hp]. unfold cancel_task.
  destruct (get_task task_id w) as [a|] eqn:Ha; [|done].
  destruct (objs w !! a) as [tk|] eqn:Htk; [|done].
  case_bool_decide; [done|]. cbn.
  set (o := alter Task.cancel a (objs w)).
  destruct (heap_inv_heapify o
              (filter (λ t, task_id_at o t ≠ Some task_id) (the_queue w)))
    as [_ HP].
  { unfold o. rewrite length_alter. destruct Hq as [_ Hv].
    rewrite Forall_forall in Hv. apply Forall_forall.
    intros b [_ Hb]%list_elem_of_filter. by apply Hv. }
  unfold pending_inv, the_queue at 1 2. cbn. fold o. split.
  - rewrite HP. by apply NoDup_filter.
  - intros b. rewrite HP. intros [Hid Hb]%list_elem_of_filter.
    destruct (Hp b Hb) as (tk' & Htk' & Hst). exists tk'. split; [|done].
    unfold o. rewrite list_lookup_alter_ne; [done|]. intros ->.
    apply Hid. unfold task_id_at, o. rewrite list_lookup_alter_eq, Htk. cbn.
    destruct (Hr _ _ Ha) as (tk2 & Htk2 & Hid2).
    rewrite Htk in Htk2. injection Htk2 as <-.
    unfold Task.cancel. by case_bool_decide; cbn; rewrite Hid2.
Qed.

Lemma retry_task_pending_inv task_id w :
  world_inv w → pending_inv w → pending_inv (retry_task task_id w).2.
Proof.
  intros (Hq & _ & Hr & _) [Hnd Hp]. unfold retry_task.
  destruct (get_task task_id w) as [a|] eqn:Ha; [|done].
  destruct (objs w !! a) as [tk|] eqn:Htk; [|done].
  destruct (Task.can_retry tk) eqn:Hcan; [|done]. cbn [negb].
  unfold Task.reset_for_retry. rewrite Hcan. cbn [negb].
  apply can_retry_true in Hcan as [Hf _].
  set (tk' := Task.set_worker_id _ _).
  destruct (heap_inv_push (<[a := tk']> (objs w)) (the_queue w) a) as [_ HP].
  { eapply heap_inv_evolves; [|done]. by eapply evolves_insert. }
  { rewrite length_insert. by eapply lookup_lt_Some. }
  assert (a ∉ the_queue w) as Hna.
  { intros Hin. destruct (Hp a Hin) as (tk2 & Htk2 & Hst). congruence. }
  unfold pending_inv, the_queue at 1 2. cbn. split.
  - rewrite HP. by apply NoDup_cons.
  - intros b. rewrite HP. intros [->|Hb]%elem_of_cons.
    + exists tk'. by rewrite list_lookup_insert_eq by by eapply lookup_lt_Some.
    + destruct (Hp b Hb) as (tk2 & Htk2 & Hst). exists tk2.
      rewrite list_lookup_insert_ne; [done|]. by intros ->.
Qed.
Lemma get_next_task_tasks now w id :
  get_task id (get_next_task now w).2 = get_task id w.
Proof. unfold get_next_task. by destruct (get_next_task_loop _ _ _ _). Qed.

Lemma execute_task_tasks i b t0 t1 w id :
  get_task id (execute_task i b t0 t1 w).2 = get_task id w.
Proof.
  unfold execute_task.
  destruct (execute_task_begin_frame i b w) as (_ & _ & Hqm).
  transitivity (get_task id (execute_task_begin i b w)).
  - generalize (execute_task_begin i b w). intros w1.
    unfold execute_task_end.
    destruct (_workers w1 !! i) as [self|]; [|done].
    destruct (objs w1 !! b) as [tk|]; [|done].
    by destruct (Task.execute_call _ _ tk) as [tk' [r|e]].
  - unfold get_task, the_task_manager. by rewrite Hqm.
Qed.

Lemma execute_task_queue i b t0 t1 w :
  the_queue (execute_task i b t0 t1 w).2 = the_queue w.
Proof.
  unfold execute_task.
  destruct (execute_task_begin_frame i b w) as (_ & _ & Hqm).
  destruct (execute_task_end_frame i b t0 t1 (execute_task_begin i b w))
    as (_ & _ & Hq).
  cbn zeta in Hq. rewrite Hq. unfold the_queue. by rewrite Hqm.
Qed.

(** [execute_task] on a task registered under its own id touches no other
    task object. *)
Lemma execute_task_other i b t0 t1 w tk a :
  objs w !! b = Some tk → get_task (Task.task_id tk) w = Some b → a ≠ b →
  objs (execute_task i b t0 t1 w).2 !! a = objs w !! a.
Proof.
  intros Hb Hreg Hab. unfold execute_task.
  rewrite execute_task_end_other by done.
  apply execute_task_begin_other; [done|].
  intros tk' Htk'. rewrite Hb in Htk'. injection Htk' as <-.
  rewrite Hreg. congruence.
Qed.

Lemma _worker_loop_turn_pending i now t0 t1 w :
  world_inv w → pending_inv w → pending_inv (_worker_loop_turn i now t0 t1 w).
Proof.
  intros (Hq & _ & Hr & Hk) Hpend. unfold _worker_loop_turn.
  destruct (get_next_task now w) as [r w1] eqn:E.
  pose proof (get_next_task_pending _ _ _ _ Hq Hpend E) as HP.
  destruct (get_next_task_ok _ _ _ _ Hq E) as (Ho & _ & _).
  destruct Hpend as [Hnd Hp].
  destruct r as [b|].
  - rewrite HP in Hnd. apply NoDup_cons in Hnd as [Hnb Hnd1].
    assert (b ∈ the_queue w) as Hb by (rewrite HP; by left).
    destruct (Hk b Hb) as (tk & Htk & Hreg).
    split.
    + by rewrite execute_task_queue.
    + intros a. rewrite execute_task_queue. intros Ha.
      destruct (Hp a) as (tk' & Htk' & Hst); [rewrite HP; by right|].
      exists tk'. split; [|done].
      rewrite (execute_task_other _ _ _ _ _ tk); rewrite ?Ho; try done.
      * pose proof (get_next_task_tasks now w (Task.task_id tk)) as H1.
        rewrite E in H1. cbn in H1. by rewrite H1.
      * by intros ->.
  - destruct HP as [HP _]. split; [by rewrite HP|].
    intros a. rewrite HP, Ho. apply Hp.
Qed.

Lemma turn_pending t w :
  world_inv w → pending_inv w → pending_inv (run (turn_ops t w) w).
Proof.
  intros Hw Hp. destruct t.
  - cbn [turn_ops run step].
    pose proof (submit_task_pending now uuid func args priority timeout
                  max_retries scheduled_at metadata kwargs w Hw Hp) as H.
    by destruct (submit_task _ _ _ _ _ _ _ _ _ _ _).
  - cbn [turn_ops run step].
    pose proof (cancel_task_pending_inv task_id w Hw Hp) as H.
    by destruct (cancel_task _ _).
  - cbn [turn_ops run step].
    pose proof (retry_task_pending_inv task_id w Hw Hp) as H.
    by destruct (retry_task _ _).
  - rewrite turn_ops_works. by apply _worker_loop_turn_pending.
Qed.

Lemma run_turns_pending ts w :
  world_inv w → pending_inv w → pending_inv (run_turns ts w).
Proof.
  revert w. induction ts as [|t ts IH]; intros w Hw Hp; [done|].
  cbn [run_turns]. apply IH; [by apply run_world_inv|by apply turn_pending].
Qed.

(** X5 ([get_next_task], [cancel_task], [retry_task], [_worker_loop]): in a
    history made of submissions, cancellations, retries and worker turns
    (a worker runs a task as soon as it has fetched it), every queue entry
    is a PENDING task and no task is queued twice.  So [get_next_task]
    never drops an entry: a call that hands out a task removes just that
    one, and a call that returns None leaves the same entries, the queue
    being empty or its first entry not yet due. *)
Theorem queue_holds_pending_tasks_once :
  ∀ mq ws ts,
    let w := run_turns ts (new_world mq ws) in
    NoDup (the_queue w)
    ∧ (∀ b, b ∈ the_queue w →
            ∃ tk, objs w !! b = Some tk ∧ Task.status tk = PENDING)
    ∧ ∀ now,
        match get_next_task now w with
        | (Some a, w') => the_queue w ≡ₚ a :: the_queue w'
        | (None, w') =>
            the_queue w' ≡ₚ the_queue w
            ∧ (the_queue w = []
               ∨ ∃ a tk s, the_queue w !! 0%nat = Some a
                           ∧ objs w !! a = Some tk
                           ∧ Task.scheduled_at tk = Some s ∧ now < s)
        end.
Proof.
  intros mq ws ts w.
  pose proof (run_turns_inv ts _ (new_world_inv mq ws)) as Hw.
  assert (pending_inv w) as Hp.
  { apply run_turns_pending; [apply new_world_inv|].
    split; [apply NoDup_nil_2|]. intros b Hb. cbn in Hb. by apply elem_of_nil in Hb. }
  fold w in Hw. destruct Hp as [Hnd Hp]. split_and!; [done..|].
  intros now. destruct (get_next_task now w) as [r w'] eqn:E.
  pose proof (get_next_task_pending _ _ _ _ (proj1 Hw) (conj Hnd Hp) E) as H.
  destruct r as [a|]; [done|].
  destruct H as [HP [Hnil|(a & tk & Ha & Htk & Hr)]]; [by auto|].
  split; [done|]. right.
  destruct (Hp a) as (tk' & Htk' & Hst); [by eapply list_elem_of_lookup_2|].
  rewrite Htk in Htk'. injection Htk' as <-.
  unfold Task.is_ready in Hr. rewrite bool_decide_eq_true_2 in Hr by done.
  cbn in Hr. destruct (Task.scheduled_at tk) as [s|] eqn:Hs; [|done].
  destruct (Z.ltb_spec now s); [|done]. by exists a, tk, s.
Qed.
Lemma step_workers_length c w :
  length (_workers (step c w).2) = length (_workers w).
Proof.
  destruct c; cbn [step snd].
  - destruct (submit_task _ _ _ _ _ _ _ _ _ _ _) as [[e|id] w'] eqn:E; cbn.
    + revert E. rewrite submit_task_eq. cbn zeta.
      destruct (_ >=? _); [by intros [= _ <-]|].
      destruct (negb _); [by intros [= _ <-]|].
      destruct (_ !! uuid); [by intros [= _ <-]|done].
    + by apply submit_task_inr in E as (_ & _ & _ & _ & ->).
  - unfold get_next_task. by destruct (get_next_task_loop _ _ _ _).
  - unfold cancel_task. destruct (get_task _ _); [|done].
    destruct (objs w !! _); [|done]. by case_bool_decide.
  - unfold retry_task. destruct (get_task _ _); [|done].
    destruct (objs w !! _); [|done]. destruct (negb _); [done|].
    by destruct (Task.reset_for_retry _).
  - unfold update_task_status. by destruct (_ !! task_id).
  - unfold execute_task_begin.
    destruct (_workers w !! i) as [self|]; [|done].
    destruct (objs w !! task) as [tk|]; [|done].
    unfold update_task_status. cbn.
    destruct (_ !! Task.task_id tk); cbn; by rewrite length_insert.
  - unfold execute_task_end.
    destruct (_workers w !! i) as [self|]; [|done].
    destruct (objs w !! task) as [tk|]; [|done].
    destruct (Task.execute_call _ _ tk) as [tk' [r|e]]; cbn;
      by rewrite length_alter.
Qed.

Lemma run_workers_length cs w :
  length (_workers (run cs w)) = length (_workers w).
Proof.
  revert w. induction cs as [|c cs IH]; intros w; [done|].
  cbn [run]. by rewrite IH, step_workers_length.
Qed.

(** Once a worker has taken a task into [execute_task], the task is not
    PENDING: it is RUNNING until the wrapped function ends. *)
Lemma execute_task_not_pending i b t0 t1 w self tk :
  _workers w !! i = Some self → objs w !! b = Some tk →
  ∃ tk', objs (execute_task i b t0 t1 w).2 !! b = Some tk'
         ∧ Task.status tk' ≠ PENDING.
Proof.
  intros Hi Hb.
  assert (∃ self1 tk1, _workers (execute_task_begin i b w) !! i = Some self1
                       ∧ objs (execute_task_begin i b w) !! b = Some tk1
                       ∧ Task.status tk1 = RUNNING) as (self1 & tk1 & Hi1 & Hb1 & Hst).
  { unfold execute_task_begin. rewrite Hi, Hb. unfold update_task_status. cbn.
    pose proof (lookup_lt_Some _ _ _ Hi) as Hli.
    pose proof (lookup_lt_Some _ _ _ Hb) as Hlb.
    destruct (_ !! Task.task_id tk) as [a|]; cbn.
    - rewrite list_lookup_insert_eq by done.
      rewrite list_lookup_alter_eq.
      destruct (decide (a = b)) as [->|Hne].
      + rewrite list_lookup_alter_eq, list_lookup_alter_eq, Hb. cbn. eauto.
      + rewrite list_lookup_alter_ne, list_lookup_alter_eq, Hb by done.
        cbn. eauto.
    - rewrite list_lookup_insert_eq by done.
      rewrite !list_lookup_alter_eq, Hb. cbn. eauto. }
  unfold execute_task, execute_task_end. rewrite Hi1, Hb1.
  pose proof (lookup_lt_Some _ _ _ Hb1) as Hlb.
  unfold Task.execute_call.
  destruct (call _ _ _) as [v|e]; [|destruct (isinstance_Exception e)]; cbn;
    rewrite list_lookup_alter_eq, list_lookup_insert_eq by done; cbn;
    eexists; (split; [done|]); cbn; congruence.
Qed.
Lemma submit_task_waiting now uuid func args priority timeout max_retries
    scheduled_at metadata kwargs w :
  world_inv w → waiting_inv w →
  waiting_inv (submit_task now uuid func args priority timeout max_retries
                 scheduled_at metadata kwargs w).2.
Proof.
  intros (Hq & _ & Hr & _) Hwait. rewrite submit_task_eq. cbn zeta.
  destruct (_ >=? _); [done|]. destruct (negb _); [done|].
  assert (∀ id a, get_task id w = Some a → (a < length (objs w))%nat) as Hlt.
  { intros id a Ha. destruct (Hr _ _ Ha) as (tk & Htk & _).
    by eapply lookup_lt_Some. }
  destruct (_ !! uuid) eqn:Hu; cbn.
  - intros id a tk Ha Htk Hst. cbn in *.
    rewrite lookup_app_l in Htk by eauto. by eapply Hwait.
  - set (tk0 := new_task _ _ _ _ _ _ _ _ _ _).
    destruct (heap_inv_push (objs w ++ [tk0]) (the_queue w) (length (objs w)))
      as [_ HP].
    { eapply heap_inv_evolves; [apply evolves_app|done]. }
    { rewrite length_app. cbn. lia. }
    intros id a tk. unfold get_task, the_task_manager, the_queue. cbn.
    rewrite HP. intros Ha Htk Hst.
    destruct (decide (id = uuid)) as [->|Hne].
    + rewrite lookup_insert_eq in Ha. injection Ha as <-. by left.
    + rewrite lookup_insert_ne in Ha by done. right.
      rewrite lookup_app_l in Htk by eauto. by eapply Hwait.
Qed.

Lemma cancel_task_waiting task_id w :
  world_inv w → waiting_inv w → waiting_inv (cancel_task task_id w).2.
Proof.
  intros (Hq & _ & Hr & _) Hwait. unfold cancel_task.
  destruct (get_task task_id w) as [a0|] eqn:Ha0; [|done].
  destruct (objs w !! a0) as [tk0|] eqn:Htk0; [|done].
  case_bool_decide as Hrun; [done|]. cbn.
  set (o := alter Task.cancel a0 (objs w)).
  destruct (heap_inv_heapify o
              (filter (λ t, task_id_at o t ≠ Some task_id) (the_queue w)))
    as [_ HP].
  { unfold o. rewrite length_alter. destruct Hq as [_ Hv].
    rewrite Forall_forall in Hv. apply Forall_forall.
    intros b [_ Hb]%list_elem_of_filter. by apply Hv. }
  intros id a tk. unfold get_task, the_task_manager, the_queue. cbn. fold o.
  rewrite HP. intros Ha Htk Hst.
  destruct (decide (a = a0)) as [->|Hne].
  { unfold o in Htk. rewrite list_lookup_alter_eq, Htk0 in Htk.
    injection Htk as <-. unfold Task.cancel in Hst.
    by rewrite bool_decide_eq_false_2 in Hst by done. }
  apply list_elem_of_filter. split.
  - unfold task_id_at. rewrite Htk. cbn. intros [= E].
    unfold o in Htk. rewrite list_lookup_alter_ne in Htk by done.
    destruct (Hr _ _ Ha) as (tk2 & Htk2 & Hid2).
    rewrite Htk in Htk2. injection Htk2 as <-.
    rewrite Hid2 in E. subst id. unfold get_task, the_task_manager in *.
    congruence.
  - unfold o in Htk. rewrite list_lookup_alter_ne in Htk by done.
    by eapply Hwait.
Qed.

Lemma retry_task_waiting task_id w :
  world_inv w → waiting_inv w → waiting_inv (retry_task task_id w).2.
Proof.
  intros (Hq & _ & Hr & _) Hwait. unfold retry_task.
  destruct (get_task task_id w) as [a0|] eqn:Ha0; [|done].
  destruct (objs w !! a0) as [tk0|] eqn:Htk0; [|done].
  destruct (Task.can_retry tk0) eqn:Hcan; [|done]. cbn [negb].
  unfold Task.reset_for_retry. rewrite Hcan. cbn [negb].
  set (tk' := Task.set_worker_id _ _).
  destruct (heap_inv_push (<[a0 := tk']> (objs w)) (the_queue w) a0) as [_ HP].
  { eapply heap_inv_evolves; [|done]. by eapply evolves_insert. }
  { rewrite length_insert. by eapply lookup_lt_Some. }
  intros id a tk. unfold get_task, the_task_manager, the_queue. cbn.
  rewrite HP. intros Ha Htk Hst.
  destruct (decide (a = a0)) as [->|Hne]; [by left|right].
  rewrite list_lookup_insert_ne in Htk by done. by eapply Hwait.
Qed.

Lemma get_next_task_workers now w : _workers (get_next_task now w).2 = _workers w.
Proof. unfold get_next_task. by destruct (get_next_task_loop _ _ _ _). Qed.

Lemma _worker_loop_turn_waiting i now t0 t1 w :
  world_inv w → pending_inv w → waiting_inv w → (i < length (_workers w))%nat →
  waiting_inv (_worker_loop_turn i now t0 t1 w).
Proof.
  intros (Hq & _ & Hr & Hk) Hpend Hwait Hi. unfold _worker_loop_turn.
  pose proof (get_next_task_workers now w) as Hws.
  pose proof (get_next_task_tasks now w) as Hts.
  destruct (get_next_task now w) as [r w1] eqn:E. cbn in Hws, Hts.
  pose proof (get_next_task_pending _ _ _ _ Hq Hpend E) as HP.
  destruct (get_next_task_ok _ _ _ _ Hq E) as (Ho & _ & _).
  destruct r as [b|].
  - assert (b ∈ the_queue w) as Hb by (rewrite HP; by left).
    destruct (Hk b Hb) as (tkb & Htkb & Hreg).
    destruct (lookup_lt_is_Some_2 (_workers w1) i) as [self Hself];
      [by rewrite Hws|].
    intros id a tk. rewrite execute_task_tasks, execute_task_queue, Hts.
    intros Ha Htk Hst.
    destruct (decide (a = b)) as [->|Hne].
    + destruct (execute_task_not_pending i b t0 t1 w1 self tkb)
        as (tk' & Htk' & Hnp); [done|by rewrite Ho|]. congruence.
    + rewrite (execute_task_other _ _ _ _ _ tkb) in Htk;
        [|by rewrite Ho|by rewrite Hts|done].
      rewrite Ho in Htk. specialize (Hwait _ _ _ Ha Htk Hst).
      rewrite HP in Hwait. by apply elem_of_cons in Hwait as [?|?].
  - destruct HP as [HP _]. intros id a tk. rewrite Hts, Ho, HP. apply Hwait.
Qed.

Lemma turn_workers_length t w :
  length (_workers (run (turn_ops t w) w)) = length (_workers w).
Proof. apply run_workers_length. Qed.

Lemma turn_waiting t w :
  world_inv w → pending_inv w → waiting_inv w →
  worker_exists (length (_workers w)) t →
  waiting_inv (run (turn_ops t w) w).
Proof.
  intros Hw Hp Hwait Hi. destruct t.
  - cbn [turn_ops run step].
    pose proof (submit_task_waiting now uuid func args priority timeout
                  max_retries scheduled_at metadata kwargs w Hw Hwait) as H.
    by destruct (submit_task _ _ _ _ _ _ _ _ _ _ _).
  - cbn [turn_ops run step].
    pose proof (cancel_task_waiting task_id w Hw Hwait) as H.
    by destruct (cancel_task _ _).
  - cbn [turn_ops run step].
    pose proof (retry_task_waiting task_id w Hw Hwait) as H.
    by destruct (retry_task _ _).
  - rewrite turn_ops_works. by apply _worker_loop_turn_waiting.
Qed.

Lemma run_turns_waiting ts w :
  world_inv w → pending_inv w → waiting_inv w →
  Forall (worker_exists (length (_workers w))) ts →
  waiting_inv (run_turns ts w).
Proof.
  revert w. induction ts as [|t ts IH]; intros w Hw Hp Hwait Hts; [done|].
  apply Forall_cons in Hts as [Ht Hts]. cbn [run_turns]. apply IH.
  - by apply run_world_inv.
  - by apply turn_pending.
  - by apply turn_waiting.
  - by rewrite turn_workers_length.
Qed.

(** X6 ([submit_task], [get_next_task], [cancel_task], [retry_task],
    [execute_task]): in a history made of submissions, cancellations,
    retries and turns of existing workers, a registered task is in the
    queue exactly when its status is PENDING. *)
Theorem queued_iff_pending :
  ∀ mq ws ts,
    Forall (worker_exists (length ws)) ts →
    let w := run_turns ts (new_world mq ws) in
    ∀ id a tk,
      get_task id w = Some a → objs w !! a = Some tk →
      (a ∈ the_queue w ↔ Task.status tk = PENDING).
Proof.
  intros mq ws ts Hts w id a tk Ha Htk.
  assert (pending_inv (new_world mq ws)) as Hp0.
  { split; [apply NoDup_nil_2|]. intros b Hb. cbn in Hb. by apply elem_of_nil in Hb. }
  split.
  - intros Hin.
    destruct (run_turns_pending ts _ (new_world_inv mq ws) Hp0) as [_ Hp].
    destruct (Hp a Hin) as (tk' & Htk' & Hst). fold w in Htk'. congruence.
  - intros Hst.
    apply (run_turns_waiting ts _ (new_world_inv mq ws) Hp0) with id tk;
      done.
Qed.

Lemma queued_iff_pending_witness :
  let ts := [Submits 1 "a" (Function returns_7) [] NORMAL None 3 None None ∅;
             Submits 2 "b" (Function always_fails) [] HIGH None 3 None None ∅;
             Works 0 3 3 4] in
  let w := run_turns ts (new_world 1000 one_worker) in
  let b := new_task 2 "b" (Function always_fails) [] HIGH None 3 None None ∅ in
  let r := TaskResult.mk "b" FAILED PyNone (Some "boom") (Some 3) (Some 4)
             (Some 1) ∅ in
  let tk := Task.set_result (Some r) (Task.set_status FAILED b) in
  Forall (worker_exists (length one_worker)) ts
  ∧ get_task "b" w = Some 1%nat ∧ objs w !! 1%nat = Some tk
  ∧ (1%nat ∈ the_queue w ↔ Task.status tk = PENDING).
Proof.
  cbn zeta. split_and!; [repeat constructor|by vm_compute..|].
  apply (queued_iff_pending 1000 one_worker _) with (id := "b");
    [repeat constructor|by vm_compute..].
Defined.
(** ** Listing and counting the registered tasks *)

Lemma elem_of_items_2 w a :
  a ∈ (items w).*2 ↔ ∃ id, get_task id w = Some a.
Proof.
  unfold items, get_task. rewrite list_elem_of_fmap. split.
  - intros ([id a'] & -> & Hin%elem_of_map_to_list). by exists id.
  - intros (id & Hid). exists (id, a). by rewrite elem_of_map_to_list.
Qed.

Lemma elem_of_list_tasks status priority w a :
  a ∈ list_tasks status priority w ↔
  (∃ id, get_task id w = Some a)
  ∧ (∀ s, status = Some s → Task.status <$> objs w !! a = Some s)
  ∧ (∀ p, priority = Some p → Task.priority <$> objs w !! a = Some p).
Proof.
  unfold list_tasks. destruct status as [s|], priority as [p|];
    rewrite ?list_elem_of_filter, elem_of_items_2; split.
  - intros (Hp & Hs & Hid). split_and!; [done|by intros ? [= <-]..].
  - intros (Hid & Hs & Hp). split_and!; [by apply Hp|by apply Hs|done].
  - intros (Hs & Hid). split_and!; [done|by intros ? [= <-]|done].
  - intros (Hid & Hs & _). split_and!; [by apply Hs|done].
  - intros (Hp & Hid). split_and!; [done|done|by intros ? [= <-]].
  - intros (Hid & _ & Hp). split_and!; [by apply Hp|done].
  - intros Hid. split_and!; done.
  - by intros (Hid & _ & _).
Qed.

Lemma NoDup_items_2 w : registry_inv w → NoDup (items w).*2.
Proof.
  intros Hr. unfold items. apply NoDup_fmap_2_strong; [|apply NoDup_map_to_list].
  intros [id a] [id' a'] Hin%elem_of_map_to_list Hin'%elem_of_map_to_list.
  cbn. intros <-.
  destruct (Hr _ _ Hin) as (tk & Htk & <-).
  destruct (Hr _ _ Hin') as (tk' & Htk' & <-). congruence.
Qed.

Lemma NoDup_list_tasks status priority w :
  registry_inv w → NoDup (list_tasks status priority w).
Proof.
  intros Hr%NoDup_items_2. unfold list_tasks.
  destruct status, priority; repeat apply NoDup_filter; done.
Qed.

(** X7 ([list_tasks]): after any history [list_tasks(status, priority)]
    lists, each once, exactly the registered tasks that have the given
    status (when one is given) and the given priority (when one is
    given). *)
Theorem list_tasks_spec :
  ∀ mq ws cs status priority,
    let w := run cs (new_world mq ws) in
    NoDup (list_tasks status priority w)
    ∧ ∀ a,
        a ∈ list_tasks status priority w ↔
        ∃ tk, objs w !! a = Some tk
              ∧ get_task (Task.task_id tk) w = Some a
              ∧ (status = None ∨ status = Some (Task.status tk))
              ∧ (priority = None ∨ priority = Some (Task.priority tk)).
Proof.
  intros mq ws cs status priority w.
  destruct (run_world_inv cs (new_world mq ws) (new_world_inv mq ws))
    as (_ & _ & Hr & _). fold w in Hr.
  split; [by apply NoDup_list_tasks|].
  intros a. rewrite elem_of_list_tasks. split.
  - intros ((id & Hid) & Hs & Hp).
    destruct (Hr _ _ Hid) as (tk & Htk & <-). exists tk.
    split_and!; [done..| |].
    + destruct status as [s|]; [right|by left].
      specialize (Hs s eq_refl). rewrite Htk in Hs. cbn in Hs. congruence.
    + destruct priority as [p|]; [right|by left].
      specialize (Hp p eq_refl). rewrite Htk in Hp. cbn in Hp. congruence.
  - intros (tk & Htk & Hid & Hs & Hp). split_and!; [eauto|..].
    + intros s ->. destruct Hs as [?|[= ->]]; [done|]. by rewrite Htk.
    + intros p ->. destruct Hp as [?|[= ->]]; [done|]. by rewrite Htk.
Qed.
Lemma status_value_inj s s' : status_value s = status_value s' → s = s'.
Proof. by destruct s, s'. Qed.

Section incr.
Context `{Countable K}.
Implicit Types (m : gmap K Z) (k : K) (keys : list K).

Lemma lookup_incr k k' m :
  default 0 (incr k m !! k')
  = default 0 (m !! k') + (if decide (k' = k) then 1 else 0).
Proof.
  unfold incr. destruct (decide (k' = k)) as [->|Hne].
  - by rewrite lookup_insert_eq.
  - rewrite lookup_insert_ne by done. lia.
Qed.

Lemma foldl_incr keys m k :
  default 0 (foldl (λ m k, incr k m) m keys !! k)
  = default 0 (m !! k) + Z.of_nat (length (filter (λ k', k' = k) keys)).
Proof.
  revert m. induction keys as [|k0 keys IH]; intros m; cbn [foldl].
  { cbn. lia. }
  rewrite IH, lookup_incr, filter_cons.
  destruct (decide (k = k0)) as [->|Hne].
  - rewrite decide_True by done. cbn [length]. lia.
  - rewrite decide_False by done. lia.
Qed.

Lemma foldl_incr_Some keys m k v :
  (∀ k v, m !! k = Some v → 0 < v ∧ (k ∈ keys ∨ is_Some (m !! k))) →
  foldl (λ m k, incr k m) m keys !! k = Some v → 0 < v ∧ k ∈ keys ∨ 0 < v ∧ is_Some (m !! k).
Proof.
  revert m. induction keys as [|k0 keys IH]; intros m Hm; cbn [foldl].
  { intros Hk. right. destruct (Hm _ _ Hk) as [? _]. eauto. }
  intros Hk. apply IH in Hk.
  - destruct Hk as [[? ?]|[? Hs]]; [left; split; [done|by right]|].
    unfold incr in Hs. destruct (decide (k = k0)) as [->|Hne].
    + left. split; [done|by left].
    + rewrite lookup_insert_ne in Hs by done. by right.
  - intros k1 v1. unfold incr. destruct (decide (k1 = k0)) as [->|Hne].
    + rewrite lookup_insert_eq. intros [= <-]. split; [|by right; eauto].
      destruct (m !! k0) as [v0|] eqn:E; cbn; [|lia].
      destruct (Hm _ _ E). lia.
    + rewrite lookup_insert_ne by done. intros E. split; [by eapply Hm|].
      right. by rewrite E.
Qed.

Lemma sum_values_insert k v m :
  m !! k = None → sum_values (<[k := v]> m) = v + sum_values m.
Proof.
  intros Hk. unfold sum_values.
  rewrite map_fold_insert_L; [done| |done]. intros. lia.
Qed.

Lemma sum_values_incr k m : sum_values (incr k m) = sum_values m + 1.
Proof.
  unfold incr. destruct (m !! k) as [v|] eqn:E; cbn.
  - rewrite <- (insert_delete_id m k v) at 2 by done.
    rewrite <- (insert_delete_eq m), !sum_values_insert
      by apply lookup_delete_eq. lia.
  - rewrite sum_values_insert by done. lia.
Qed.

Lemma foldl_incr_sum keys m :
  sum_values (foldl (λ m k, incr k m) m keys)
  = sum_values m + Z.of_nat (length keys).
Proof.
  revert m. induction keys as [|k0 keys IH]; intros m; cbn [foldl length].
  { lia. }
  rewrite IH, sum_values_incr. lia.
Qed.
End incr.

Lemma count_tasks_eq o l :
  count_tasks o l =
  (foldl (λ m k, incr k m) ∅
         (omap (λ t, status_value ∘ Task.status <$> o !! t) l),
   foldl (λ m k, incr k m) ∅
         (omap (λ t, priority_value ∘ Task.priority <$> o !! t) l)).
Proof.
  unfold count_tasks. generalize (∅ : gmap string Z) (∅ : gmap Z Z).
  induction l as [|t l IH]; intros sc pc; [done|].
  cbn -[incr]. destruct (o !! t) as [task|]; cbn -[incr]; apply IH.
Qed.

Lemma length_filter_omap {A B C} `{EqDecision B, EqDecision C}
    (g : A → option B) (v : B → C) (b : B) (l : list A) :
  Inj (=) (=) v →
  length (filter (λ y, y = v b) (omap (λ t, v <$> g t) l))
  = length (filter (λ t, g t = Some b) l).
Proof.
  intros Hinj. induction l as [|t l IH]; [done|].
  cbn [omap list_omap]. cbn beta.
  rewrite (filter_cons (λ t, g t = Some b)).
  destruct (g t) as [b'|]; cbn [fmap option_fmap option_map].
  - rewrite filter_cons. destruct (decide (b' = b)) as [->|Hne].
    + rewrite !decide_True by done. cbn [length]. by rewrite <- IH.
    + rewrite !decide_False; [done|congruence|]. intros ?%Hinj. done.
  - by rewrite decide_False.
Qed.

Lemma length_omap_total {A B} (f : A → option B) (l : list A) :
  (∀ x, x ∈ l → is_Some (f x)) → length (omap f l) = length l.
Proof.
  induction l as [|x l IH]; intros Hl; [done|].
  cbn [omap list_omap]. destruct (Hl x) as [y ->]; [by left|].
  cbn [length]. rewrite <- IH; [done|]. intros x' Hx'. apply Hl. by right.
Qed.

Lemma get_statistics_registry w :
  registry_inv w →
  let st := get_statistics w in
  total_tasks st = length (list_tasks None None w)
  ∧ (∀ s, default 0 (status_counts st !! status_value s)
          = Z.of_nat (length (list_tasks (Some s) None w)))
  ∧ (∀ p, default 0 (priority_counts st !! priority_value p)
          = Z.of_nat (length (list_tasks None (Some p) w)))
  ∧ (∀ k n, status_counts st !! k = Some n →
            0 < n ∧ ∃ s, k = status_value s)
  ∧ (∀ k n, priority_counts st !! k = Some n →
            0 < n ∧ ∃ p, k = priority_value p)
  ∧ sum_values (status_counts st) = Z.of_nat (total_tasks st)
  ∧ sum_values (priority_counts st) = Z.of_nat (total_tasks st).
Proof.
  intros Hr st.
  assert (∀ a, a ∈ (items w).*2 → is_Some (objs w !! a)) as Hobj.
  { intros a (id & Hid)%elem_of_items_2.
    destruct (Hr _ _ Hid) as (tk & -> & _). eauto. }
  assert (total_tasks st = length (items w).*2) as Htot.
  { unfold st, get_statistics. destruct (count_tasks _ _). cbn.
    unfold items. by rewrite length_fmap, length_map_to_list. }
  assert (status_counts st
          = foldl (λ m k, incr k m) ∅
              (omap (λ t, status_value ∘ Task.status <$> objs w !! t)
                 (items w).*2)) as Hsc.
  { unfold st, get_statistics. by rewrite count_tasks_eq. }
  assert (priority_counts st
          = foldl (λ m k, incr k m) ∅
              (omap (λ t, priority_value ∘ Task.priority <$> objs w !! t)
                 (items w).*2)) as Hpc.
  { unfold st, get_statistics. by rewrite count_tasks_eq. }
  split_and!.
  - done.
  - intros s. rewrite Hsc, foldl_incr, lookup_empty. cbn.
    rewrite <- (length_filter_omap (λ t, Task.status <$> objs w !! t)
                  status_value s); [|intros ??; apply status_value_inj].
    rewrite Z.add_0_l. do 3 f_equal.
    apply list_omap_ext, Forall2_same_length_lookup. split; [done|].
    intros i t t' Ht Ht'. rewrite Ht in Ht'. injection Ht' as <-.
    by destruct (objs w !! t).
  - intros p. rewrite Hpc, foldl_incr, lookup_empty. cbn.
    rewrite <- (length_filter_omap (λ t, Task.priority <$> objs w !! t)
                  priority_value p); [|intros ??; apply priority_value_inj].
    rewrite Z.add_0_l. do 3 f_equal.
    apply list_omap_ext, Forall2_same_length_lookup. split; [done|].
    intros i t t' Ht Ht'. rewrite Ht in Ht'. injection Ht' as <-.
    by destruct (objs w !! t).
  - intros k n. rewrite Hsc. intros Hk. apply foldl_incr_Some in Hk.
    + destruct Hk as [[Hn Hin]|[_ Hs]]; [|by rewrite lookup_empty in Hs; destruct Hs].
      split; [done|]. apply list_elem_of_omap in Hin as (t & _ & Ht).
      destruct (objs w !! t) as [tk|]; [|done]. injection Ht as <-. eauto.
    + intros ??. by rewrite lookup_empty.
  - intros k n. rewrite Hpc. intros Hk. apply foldl_incr_Some in Hk.
    + destruct Hk as [[Hn Hin]|[_ Hs]]; [|by rewrite lookup_empty in Hs; destruct Hs].
      split; [done|]. apply list_elem_of_omap in Hin as (t & _ & Ht).
      destruct (objs w !! t) as [tk|]; [|done]. injection Ht as <-. eauto.
    + intros ??. by rewrite lookup_empty.
  - rewrite Hsc, foldl_incr_sum, Htot, length_omap_total.
    + unfold sum_values. by rewrite map_fold_empty.
    + intros t Ht. destruct (Hobj t Ht) as [tk ->]. by eexists.
  - rewrite Hpc, foldl_incr_sum, Htot, length_omap_total.
    + unfold sum_values. by rewrite map_fold_empty.
    + intros t Ht. destruct (Hobj t Ht) as [tk ->]. by eexists.
Qed.

(** X8 ([get_statistics], [list_tasks]): after any history the statistics
    agree with the listing.  [total_tasks] is the number of registered
    tasks; the count kept for a status, or for a priority, is the number
    of tasks [list_tasks] returns for it (a status or priority without
    task has no entry rather than a zero); and the status counts, like the
    priority counts, add up to [total_tasks]. *)
Theorem get_statistics_spec :
  ∀ mq ws cs,
    let w := run cs (new_world mq ws) in
    let st := get_statistics w in
    total_tasks st = length (list_tasks None None w)
    ∧ (∀ s, default 0 (status_counts st !! status_value s)
            = Z.of_nat (length (list_tasks (Some s) None w)))
    ∧ (∀ p, default 0 (priority_counts st !! priority_value p)
            = Z.of_nat (length (list_tasks None (Some p) w)))
    ∧ (∀ k n, status_counts st !! k = Some n →
              0 < n ∧ ∃ s, k = status_value s)
    ∧ (∀ k n, priority_counts st !! k = Some n →
              0 < n ∧ ∃ p, k = priority_value p)
    ∧ sum_values (status_counts st) = Z.of_nat (total_tasks st)
    ∧ sum_values (priority_counts st) = Z.of_nat (total_tasks st).
Proof.
  intros mq ws cs w. apply get_statistics_registry.
  by destruct (run_world_inv cs (new_world mq ws) (new_world_inv mq ws))
    as (_ & _ & Hr & _).
Qed.

(** X9 ([get_queue_status], [get_statistics]): in a history made of
    submissions, cancellations, retries and turns of existing workers, the
    queue holds exactly the PENDING tasks that [list_tasks] reports, so the
    [queue_size] of [get_queue_status] is its count of "pending" tasks. *)
Theorem queue_size_is_pending_count :
  ∀ mq ws ts,
    Forall (worker_exists (length ws)) ts →
    let w := run_turns ts (new_world mq ws) in
    let qs := get_queue_status w in
    the_queue w ≡ₚ list_tasks (Some PENDING) None w
    ∧ Z.of_nat (queue_size qs)
      = default 0 (status_counts (statistics qs) !! "pending").
Proof.
  intros mq ws ts Hts w qs.
  pose proof (run_turns_inv ts _ (new_world_inv mq ws)) as Hw. fold w in Hw.
  assert (pending_inv (new_world mq ws)) as Hp0.
  { split; [apply NoDup_nil_2|]. intros b Hb. cbn in Hb. by apply elem_of_nil in Hb. }
  pose proof (run_turns_pending ts _ (new_world_inv mq ws) Hp0) as [Hnd Hp].
  assert (waiting_inv w) as Hwait.
  { by apply (run_turns_waiting ts _ (new_world_inv mq ws) Hp0). }
  fold w in Hnd, Hp.
  destruct Hw as (_ & _ & Hr & Hk).
  assert (the_queue w ≡ₚ list_tasks (Some PENDING) None w) as HP.
  { apply NoDup_Permutation; [done|by apply NoDup_list_tasks|].
    intros a. rewrite elem_of_list_tasks. split.
    - intros Ha. destruct (Hk a Ha) as (tk & Htk & Hreg).
      destruct (Hp a Ha) as (tk' & Htk' & Hst).
      split_and!; [eauto| |done].
      intros s [= <-]. rewrite Htk'. cbn. by rewrite Hst.
    - intros ((id & Hid) & Hs & _). specialize (Hs PENDING eq_refl).
      destruct (objs w !! a) as [tk|] eqn:Htk; [|done].
      apply (Hwait id a tk); [done..|].
      cbn in Hs. congruence. }
  split; [done|].
  destruct (get_statistics_registry w Hr) as (_ & Hs & _).
  unfold qs, get_queue_status. cbn [queue_size statistics].
  change "pending" with (status_value PENDING). rewrite Hs.
  fold (the_queue w). by rewrite HP.
Qed.

Lemma queue_size_is_pending_count_witness :
  let ts := [Submits 1 "a" (Function returns_7) [] NORMAL None 3 None None ∅;
             Submits 2 "b" (Function always_fails) [] HIGH None 3 None None ∅;
             Works 0 3 3 4] in
  let w := run_turns ts (new_world 1000 one_worker) in
  Forall (worker_exists (length one_worker)) ts
  ∧ the_queue w ≡ₚ list_tasks (Some PENDING) None w
  ∧ Z.of_nat (queue_size (get_queue_status w))
    = default 0 (status_counts (statistics (get_queue_status w)) !! "pending").
Proof.
  cbn zeta. split; [repeat constructor|].
  apply (queue_size_is_pending_count 1000 one_worker). repeat constructor.
Defined.

(** ** Cleaning up old tasks *)

Lemma foldl_delete_lookup {A} (m : gmap string A) (l : list string) id :
  foldl (λ m k, delete k m) m l !! id
  = if decide (id ∈ l) then None else m !! id.
Proof.
  revert m. induction l as [|k l IH]; intros m; cbn [foldl].
  { rewrite decide_False; [done|]. apply not_elem_of_nil. }
  rewrite IH. destruct (decide (id ∈ l)) as [Hin|Hnin].
  - rewrite decide_True; [done|by right].
  - destruct (decide (id = k)) as [->|Hne].
    + rewrite decide_True by by left. apply lookup_delete_eq.
    + rewrite decide_False, lookup_delete_ne; [done..|].
      by intros [?|?]%elem_of_cons.
Qed.

Lemma size_foldl_delete {A} (m : gmap string A) (l : list string) :
  NoDup l → (∀ id, id ∈ l → is_Some (m !! id)) →
  (length l + size (foldl (λ m k, delete k m) m l) = size m)%nat.
Proof.
  revert m. induction l as [|k l IH]; intros m Hnd Hl; cbn [foldl length].
  { done. }
  apply NoDup_cons in Hnd as [Hk Hnd].
  assert (is_Some (m !! k)) as Hv by (apply Hl; by left).
  specialize (IH (delete k m) Hnd).
  rewrite map_size_delete_Some in IH by done.
  pose proof (map_size_ne_0_lookup_2 m k Hv).
  rewrite Nat.add_succ_l, IH; [lia|].
  intros id Hid. rewrite lookup_delete_ne; [apply Hl; by right|].
  by intros <-.
Qed.

Lemma elem_of_tasks_to_remove cutoff_time w id :
  id ∈ tasks_to_remove cutoff_time w ↔
  ∃ a tk, get_task id w = Some a ∧ objs w !! a = Some tk
          ∧ is_old_and_done cutoff_time tk = true.
Proof.
  unfold tasks_to_remove, items, get_task. rewrite list_elem_of_omap. split.
  - intros ([id' a] & Hin%elem_of_map_to_list & Hf).
    destruct (objs w !! a) as [tk|] eqn:Htk; [|done].
    destruct (is_old_and_done cutoff_time tk) eqn:Hold; [|done].
    injection Hf as ->. eauto.
  - intros (a & tk & Ha & Htk & Hold). exists (id, a).
    rewrite elem_of_map_to_list. split; [done|]. by rewrite Htk, Hold.
Qed.

Lemma NoDup_tasks_to_remove cutoff_time w :
  NoDup (tasks_to_remove cutoff_time w).
Proof.
  unfold tasks_to_remove, items.
  pose proof (NoDup_fst_map_to_list
                (TaskManager._tasks (the_task_manager w))) as Hnd.
  induction (map_to_list _) as [|[id a] l IH]; [constructor|].
  cbn in Hnd. apply NoDup_cons in Hnd as [Hid Hnd].
  cbn [omap list_omap]. cbn beta iota.
  destruct (objs w !! a) as [tk|]; [|by apply IH].
  destruct (is_old_and_done cutoff_time tk); [|by apply IH].
  apply NoDup_cons. split; [|by apply IH].
  intros ([id' a'] & Hin & Hf)%list_elem_of_omap. apply Hid.
  apply list_elem_of_fmap. exists (id', a'). split; [|done].
  destruct (objs w !! a') as [tk'|]; [|done].
  destruct (is_old_and_done cutoff_time tk'); [|done]. by injection Hf.
Qed.

Lemma is_old_and_done_true cutoff_time tk :
  is_old_and_done cutoff_time tk = true ↔
  Task.status tk ∈ [COMPLETED; FAILED; CANCELLED]
  ∧ Task.created_at tk < cutoff_time.
Proof.
  unfold is_old_and_done.
  rewrite andb_true_iff, bool_decide_eq_true, Z.ltb_lt. done.
Qed.

(** X10 ([cleanup_completed_tasks]): the cleanup unregisters exactly the
    registered tasks that are COMPLETED, FAILED or CANCELLED and were
    created before [now - max_age_hours], together with their stored
    results, and returns their number.  Every other registration and
    result stays; in particular a PENDING, RUNNING or TIMEOUT task is never
    removed, however old.  The task objects and the queue are not
    touched. *)
Theorem cleanup_completed_tasks_spec :
  ∀ now max_age_hours w,
    let cutoff_time := now - max_age_hours * 3600000000 in
    let removed id :=
      ∃ a tk, get_task id w = Some a ∧ objs w !! a = Some tk
              ∧ Task.status tk ∈ [COMPLETED; FAILED; CANCELLED]
              ∧ Task.created_at tk < cutoff_time in
    let r := cleanup_completed_tasks now max_age_hours w in
    (∀ id, removed id → get_task id r.2 = None ∧ get_result id r.2 = None)
    ∧ (∀ id, ¬ removed id →
             get_task id r.2 = get_task id w
             ∧ get_result id r.2 = get_result id w)
    ∧ (∀ id a tk, get_task id w = Some a → objs w !! a = Some tk →
                  Task.status tk ∈ [PENDING; RUNNING; TIMEOUT] →
                  get_task id r.2 = Some a)
    ∧ (r.1 + size (TaskManager._tasks (the_task_manager r.2))
       = size (TaskManager._tasks (the_task_manager w)))%nat
    ∧ objs r.2 = objs w ∧ the_queue r.2 = the_queue w
    ∧ _workers r.2 = _workers w.
Proof.
  intros now max_age_hours w cutoff_time removed r.
  assert (∀ id, removed id ↔ id ∈ tasks_to_remove cutoff_time w) as Hrem.
  { intros id. rewrite elem_of_tasks_to_remove. unfold removed.
    by setoid_rewrite is_old_and_done_true. }
  assert (∀ id, get_task id r.2
                = if decide (id ∈ tasks_to_remove cutoff_time w) then None
                  else get_task id w) as Htasks.
  { intros id. unfold r, cleanup_completed_tasks, get_task, the_task_manager.
    cbn. apply foldl_delete_lookup. }
  assert (∀ id, get_result id r.2
                = if decide (id ∈ tasks_to_remove cutoff_time w) then None
                  else get_result id w) as Hres.
  { intros id. unfold r, cleanup_completed_tasks, get_result, the_task_manager.
    cbn. apply foldl_delete_lookup. }
  split_and!; [| | | |done..].
  - intros id Hid%Hrem. by rewrite Htasks, Hres, !decide_True.
  - intros id Hid. rewrite Hrem in Hid. by rewrite Htasks, Hres, !decide_False.
  - intros id a tk Ha Htk Hst. rewrite Htasks, decide_False; [done|].
    intros (a' & tk' & Ha' & Htk' & Hs & _)%Hrem.
    rewrite Ha in Ha'. injection Ha' as <-.
    rewrite Htk in Htk'. injection Htk' as <-.
    rewrite !elem_of_cons, elem_of_nil in Hs, Hst.
    destruct Hs as [?|[?|[?|[]]]], Hst as [?|[?|[?|[]]]]; congruence.
  - unfold r, cleanup_completed_tasks, the_task_manager. cbn.
    apply size_foldl_delete; [apply NoDup_tasks_to_remove|].
    intros id (a & _ & Ha & _)%elem_of_tasks_to_remove. by exists a.
Qed.

(** X11 ([cleanup_completed_tasks]): a cleanup leaves nothing for a second
    cleanup whose cutoff time is not later: that one removes no task and
    returns 0. *)
Theorem cleanup_completed_tasks_twice :
  ∀ now max_age_hours now' max_age_hours' w,
    now' - max_age_hours' * 3600000000 ≤ now - max_age_hours * 3600000000 →
    let w' := (cleanup_completed_tasks now max_age_hours w).2 in
    cleanup_completed_tasks now' max_age_hours' w' = (0%nat, w').
Proof.
  intros now max_age_hours now' max_age_hours' w Hle w'.
  fold (timedelta_hours max_age_hours') in Hle.
  fold (timedelta_hours max_age_hours) in Hle.
  assert (tasks_to_remove (now' - timedelta_hours max_age_hours') w' = [])
    as Hnil.
  { apply elem_of_nil_inv. intros id.
    intros (a & tk & Ha & Htk & [Hst Hold]%is_old_and_done_true)%elem_of_tasks_to_remove.
    unfold w', cleanup_completed_tasks, get_task, the_task_manager in Ha.
    cbn in Ha. rewrite foldl_delete_lookup in Ha.
    destruct (decide (id ∈ _)) as [|Hnin]; [done|]. apply Hnin.
    apply elem_of_tasks_to_remove. exists a, tk. split_and!; [done..|].
    apply is_old_and_done_true. split; [done|lia]. }
  unfold cleanup_completed_tasks at 1. cbn zeta. by rewrite Hnil.
Qed.

Lemma cleanup_completed_tasks_twice_witness :
  let w := run (submit_plain 1 "a" returns_7 NORMAL 3 :: attempt 2
                ++ [submit_plain 3 "b" returns_7 NORMAL 3])
             (new_world 10 one_worker) in
  let w' := (cleanup_completed_tasks 7200000000 1 w).2 in
  (cleanup_completed_tasks 7200000000 1 w).1 = 1%nat
  ∧ get_task "a" w' = None ∧ get_task "b" w' = Some 1%nat
  ∧ cleanup_completed_tasks 7200000000 1 w' = (0%nat, w').
Proof.
  cbn zeta. split_and!; [by vm_compute..|].
  apply (cleanup_completed_tasks_twice 7200000000 1 7200000000 1). lia.
Defined.

(** ** Unregistering a task; unknown task ids *)

Lemma get_next_task_registry now w tm :
  (get_next_task now (with_task_manager tm w)).1 = (get_next_task now w).1.
Proof.
  unfold get_next_task. cbn.
  change (the_queue (with_task_manager tm w)) with (the_queue w).
  by destruct (get_next_task_loop _ _ _ _).
Qed.

(** X12 ([remove_task]): [remove_task] returns True exactly when the id is
    registered.  It only drops the registration: other ids, the stored
    results (also the one of the removed task), the task objects and the
    queue stay as they are.  So afterwards the id is unknown to
    [get_task_status], [cancel_task], [retry_task] and a second
    [remove_task], while [get_next_task] hands out what it would have
    handed out before, the removed task included if it is still queued. *)
Theorem remove_task_spec :
  ∀ task_id w,
    let r := remove_task task_id w in
    (r.1 = true ↔ is_Some (get_task task_id w))
    ∧ get_task task_id r.2 = None
    ∧ (∀ id, id ≠ task_id → get_task id r.2 = get_task id w)
    ∧ (∀ id, get_task_result id r.2 = get_task_result id w)
    ∧ objs r.2 = objs w ∧ the_queue r.2 = the_queue w
    ∧ get_task_status task_id r.2 = None
    ∧ cancel_task task_id r.2 = (false, r.2)
    ∧ retry_task task_id r.2 = (false, r.2)
    ∧ remove_task task_id r.2 = (false, r.2)
    ∧ ∀ now, (get_next_task now r.2).1 = (get_next_task now w).1.
Proof.
  intros task_id w r.
  assert (r = match get_task task_id w with
              | Some _ =>
                  (true,
                   with_task_manager
                     (TaskManager.mk
                        (delete task_id (TaskManager._tasks (the_task_manager w)))
                        (TaskManager._results (the_task_manager w))) w)
              | None => (false, w)
              end) as Hr by done.
  clearbody r. subst r.
  assert (∀ w', get_task task_id w' = None →
                get_task_status task_id w' = None
                ∧ cancel_task task_id w' = (false, w')
                ∧ retry_task task_id w' = (false, w')
                ∧ remove_task task_id w' = (false, w')) as Hunknown.
  { intros w' Hnone. split_and!.
    - unfold get_task_status. by rewrite Hnone.
    - unfold cancel_task. by rewrite Hnone.
    - unfold retry_task. by rewrite Hnone.
    - unfold remove_task. unfold get_task in Hnone. by rewrite Hnone. }
  destruct (get_task task_id w) as [a|] eqn:E; cbn [fst snd].
  - assert (get_task task_id
              (with_task_manager
                 (TaskManager.mk
                    (delete task_id (TaskManager._tasks (the_task_manager w)))
                    (TaskManager._results (the_task_manager w))) w) = None)
      as Hnone by apply lookup_delete_eq.
    destruct (Hunknown _ Hnone) as (? & ? & ? & ?).
    split_and!; try done.
    + intros id Hne. by apply lookup_delete_ne.
    + intros now. apply get_next_task_registry.
  - destruct (Hunknown _ E) as (? & ? & ? & ?).
    split_and!; done.
Qed.

(** X13 ([get_task_status], [cancel_task], [retry_task],
    [update_task_status], [remove_task]): for a task id that is not
    registered, [get_task_status] returns None and the other four return
    False and change nothing. *)
Theorem unknown_task_id :
  ∀ task_id w,
    get_task task_id w = None →
    get_task_status task_id w = None
    ∧ cancel_task task_id w = (false, w)
    ∧ retry_task task_id w = (false, w)
    ∧ (∀ status, update_task_status task_id status w = (false, w))
    ∧ remove_task task_id w = (false, w).
Proof.
  intros task_id w Hnone. split_and!.
  - unfold get_task_status. by rewrite Hnone.
  - unfold cancel_task. by rewrite Hnone.
  - unfold retry_task. by rewrite Hnone.
  - intros status. unfold update_task_status. unfold get_task in Hnone.
    by rewrite Hnone.
  - unfold remove_task. unfold get_task in Hnone. by rewrite Hnone.
Qed.

Lemma unknown_task_id_witness :
  let w := run [submit_plain 1 "a" returns_7 NORMAL 3] (new_world 10 []) in
  get_task "b" w = None
  ∧ get_task_status "b" w = None
  ∧ cancel_task "b" w = (false, w)
  ∧ retry_task "b" w = (false, w)
  ∧ (∀ status, update_task_status "b" status w = (false, w))
  ∧ remove_task "b" w = (false, w).
Proof.
  cbn zeta. split; [by vm_compute|]. apply unknown_task_id. by vm_compute.
Defined.

(** ** Cancelling removes one task only *)

Lemma list_filter_iff_elem {A} (P1 P2 : A → Prop)
    `{!∀ x, Decision (P1 x), !∀ x, Decision (P2 x)} (l : list A) :
  (∀ x, x ∈ l → (P1 x ↔ P2 x)) → filter P1 l = filter P2 l.
Proof.
  induction l as [|x l IH]; intros HP; [done|].
  rewrite !filter_cons.
  assert (P1 x ↔ P2 x) as Hx by (apply HP; by left).
  rewrite IH by (intros y Hy; apply HP; by right).
  destruct (decide (P1 x)), (decide (P2 x)); tauto.
Qed.

Lemma cancel_task_registered task_id w a tk :
  world_inv w →
  get_task task_id w = Some a → objs w !! a = Some tk →
  Task.status tk ≠ RUNNING →
  let r := cancel_task task_id w in
  r.1 = true
  ∧ objs r.2 !! a = Some (Task.set_status CANCELLED tk)
  ∧ (∀ b, b ≠ a → objs r.2 !! b = objs w !! b)
  ∧ the_queue r.2 ≡ₚ filter (λ b, b ≠ a) (the_queue w)
  ∧ (∀ id, get_task id r.2 = get_task id w)
  ∧ (∀ id, get_task_result id r.2 = get_task_result id w)
  ∧ _workers r.2 = _workers w.
Proof.
  intros (Hq & _ & Hr & Hk) Ha Htk Hst. unfold cancel_task.
  rewrite Ha, Htk, bool_decide_eq_false_2 by done. cbn.
  set (o := alter Task.cancel a (objs w)).
  destruct (heap_inv_heapify o
              (filter (λ t, task_id_at o t ≠ Some task_id) (the_queue w)))
    as [_ HP].
  { unfold o. rewrite length_alter. destruct Hq as [_ Hv].
    rewrite Forall_forall in Hv. apply Forall_forall.
    intros b [_ Hb]%list_elem_of_filter. by apply Hv. }
  assert (o !! a = Some (Task.set_status CANCELLED tk)) as Hoa.
  { unfold o. rewrite list_lookup_alter_eq, Htk. cbn. unfold Task.cancel.
    by rewrite bool_decide_eq_false_2. }
  split_and!; try done.
  - intros b Hb. unfold o. by rewrite list_lookup_alter_ne.
  - unfold the_queue at 1. cbn. fold o. rewrite HP.
    apply Permutation_refl', list_filter_iff_elem. intros b Hb.
    destruct (Hk b Hb) as (tkb & Htkb & Hreg).
    destruct (Hr _ _ Ha) as (tk' & Htk' & Hid).
    rewrite Htk in Htk'. injection Htk' as <-.
    unfold task_id_at. destruct (decide (b = a)) as [->|Hne].
    + rewrite Hoa. cbn. rewrite Hid. tauto.
    + unfold o. rewrite list_lookup_alter_ne, Htkb by done. cbn.
      split; [done|]. intros _ [= E]. rewrite E in Hreg. congruence.
Qed.

(** X14 ([cancel_task]): after any history [cancel_task] returns True
    exactly for a registered task that is not RUNNING, and otherwise
    changes nothing.  When it returns True, the task becomes CANCELLED
    whatever its status was, every other task object is untouched, the
    queue keeps all its entries except that task, and the registrations and
    stored results (a result already stored for the task included) stay. *)
Theorem cancel_task_removes_only_that_task :
  ∀ mq ws cs task_id,
    let w := run cs (new_world mq ws) in
    let r := cancel_task task_id w in
    (r.1 = true ↔
     ∃ a tk, get_task task_id w = Some a ∧ objs w !! a = Some tk
             ∧ Task.status tk ≠ RUNNING)
    ∧ (r.1 = false → r.2 = w)
    ∧ (∀ a tk,
         get_task task_id w = Some a → objs w !! a = Some tk →
         Task.status tk ≠ RUNNING →
         objs r.2 !! a = Some (Task.set_status CANCELLED tk)
         ∧ (∀ b, b ≠ a → objs r.2 !! b = objs w !! b)
         ∧ the_queue r.2 ≡ₚ filter (λ b, b ≠ a) (the_queue w)
         ∧ (∀ id, get_task id r.2 = get_task id w)
         ∧ (∀ id, get_task_result id r.2 = get_task_result id w)).
Proof.
  intros mq ws cs task_id w r.
  pose proof (run_world_inv cs (new_world mq ws) (new_world_inv mq ws)) as Hw.
  fold w in Hw. split_and!.
  - split.
    + unfold r, cancel_task.
      destruct (get_task task_id w) as [a|] eqn:Ha; [|done].
      destruct (objs w !! a) as [tk|] eqn:Htk; [|done].
      case_bool_decide; [done|]. intros _. by exists a, tk.
    + intros (a & tk & Ha & Htk & Hst).
      by destruct (cancel_task_registered task_id w a tk Hw Ha Htk Hst).
  - unfold r, cancel_task.
    destruct (get_task task_id w) as [a|]; [|done].
    destruct (objs w !! a) as [tk|]; [|done].
    by case_bool_decide.
  - intros a tk Ha Htk Hst.
    destruct (cancel_task_registered task_id w a tk Hw Ha Htk Hst)
      as (_ & ? & ? & ? & ? & ? & _). done.
Qed.

(** ** What a worker leaves behind *)

Lemma execute_task_begin_eq i task w self tk :
  _workers w !! i = Some self → objs w !! task = Some tk →
  let w1 := execute_task_begin i task w in
  _workers w1 = <[i := set_current_task (Some task) self]> (_workers w)
  ∧ objs w1 !! task
    = Some (Task.set_status RUNNING
              (Task.set_worker_id (Some (TaskWorker.worker_id self)) tk))
  ∧ _queue_manager w1 = _queue_manager w.
Proof.
  intros Hi Htk. unfold execute_task_begin. rewrite Hi, Htk.
  unfold update_task_status. cbn.
  destruct (_ !! Task.task_id tk) as [a|]; cbn.
  - split_and!; [done| |done].
    rewrite list_lookup_alter_eq. destruct (decide (a = task)) as [->|Hne].
    + by rewrite !list_lookup_alter_eq, Htk.
    + by rewrite list_lookup_alter_ne, list_lookup_alter_eq, Htk.
  - split_and!; [done| |done]. by rewrite !list_lookup_alter_eq, Htk.
Qed.

(** X15 ([execute_task], [Task.execute]): whatever the wrapped function
    does, when [execute_task] is left the worker has no current task, the
    task has no worker, and the other workers, the queue and the
    registrations are as before.  A result that is returned is also the
    task's [result] and the result stored under the task's id, and the
    task's status is the result's.  An exception that is not an [Exception]
    leaves [execute_task]: then nothing is stored and the task stays
    RUNNING. *)
Theorem execute_task_releases_worker :
  ∀ i task t0 t1 w self tk,
    _workers w !! i = Some self → objs w !! task = Some tk →
    let r := execute_task i task t0 t1 w in
    _workers r.2 !! i = Some (set_current_task None self)
    ∧ (∀ j, j ≠ i → _workers r.2 !! j = _workers w !! j)
    ∧ Task.worker_id <$> objs r.2 !! task = Some None
    ∧ the_queue r.2 = the_queue w
    ∧ (∀ id, get_task id r.2 = get_task id w)
    ∧ (∀ res, r.1 = Some (inl res) →
              get_task_result (Task.task_id tk) r.2 = Some res
              ∧ Task.result <$> objs r.2 !! task = Some (Some res)
              ∧ Task.status <$> objs r.2 !! task = Some (TaskResult.status res)
              ∧ TaskResult.task_id res = Task.task_id tk)
    ∧ (∀ e, call (Task.func tk) (Task.args tk) (Task.kwargs tk) = Raises e →
            isinstance_Exception e = false →
            r.1 = Some (inr e)
            ∧ Task.status <$> objs r.2 !! task = Some RUNNING
            ∧ Task.result <$> objs r.2 !! task = Some (Task.result tk)
            ∧ ∀ id, get_task_result id r.2 = get_task_result id w).
Proof.
  intros i task t0 t1 w self tk Hi Htk r.
  destruct (execute_task_begin_eq i task w self tk Hi Htk) as (Hws & Hobj & Hqm).
  pose proof (lookup_lt_Some _ _ _ Hi) as Hli.
  assert (task < length (objs (execute_task_begin i task w)))%nat as Hlt
    by by eapply lookup_lt_Some.
  split_and!.
  - unfold r, execute_task, execute_task_end.
    rewrite Hws, list_lookup_insert_eq, Hobj by done.
    destruct (Task.execute_call _ _ _) as [tk' [res|e]]; cbn;
      by rewrite Hws, list_lookup_alter_eq, list_lookup_insert_eq by done.
  - intros j Hj. unfold r, execute_task, execute_task_end.
    rewrite Hws, list_lookup_insert_eq, Hobj by done.
    destruct (Task.execute_call _ _ _) as [tk' [res|e]]; cbn;
      by rewrite Hws, list_lookup_alter_ne, list_lookup_insert_ne by done.
  - unfold r, execute_task, execute_task_end.
    rewrite Hws, list_lookup_insert_eq, Hobj by done.
    destruct (Task.execute_call _ _ _) as [tk' [res|e]]; cbn;
      by rewrite list_lookup_alter_eq, list_lookup_insert_eq by done.
  - apply execute_task_queue.
  - apply execute_task_tasks.
  - intros res. unfold r, execute_task, execute_task_end.
    rewrite Hws, list_lookup_insert_eq, Hobj by done.
    unfold Task.execute_call. cbn.
    destruct (call _ _ _) as [v|e]; [|destruct (isinstance_Exception e)];
      cbn; intros [= <-]; cbn;
      rewrite list_lookup_alter_eq, list_lookup_insert_eq by done;
      (split_and!; [|done..]);
      unfold get_task_result, get_result, the_task_manager; cbn;
      by rewrite lookup_insert_eq.
  - intros e He Hexc. unfold r, execute_task, execute_task_end.
    rewrite Hws, list_lookup_insert_eq, Hobj by done.
    unfold Task.execute_call. cbn. rewrite He, Hexc. cbn.
    rewrite list_lookup_alter_eq, list_lookup_insert_eq by done.
    split_and!; [done..|].
    intros id. unfold get_task_result, get_result, the_task_manager. cbn.
    by rewrite Hqm.
Qed.

Lemma execute_task_releases_worker_witness :
  let w := (get_next_task 2
              (run [submit_plain 1 "t" returns_7 NORMAL 3]
                 (new_world 1000 one_worker))).2 in
  let r := execute_task 0 0 3 4 w in
  _workers r.2 !! 0%nat = Some (TaskWorker.mk "worker-1" true None)
  ∧ Task.worker_id <$> objs r.2 !! 0%nat = Some None
  ∧ the_queue r.2 = the_queue w.
Proof.
  cbn zeta.
  destruct (execute_task_releases_worker 0 0 3 4
              (get_next_task 2
                 (run [submit_plain 1 "t" returns_7 NORMAL 3]
                    (new_world 1000 one_worker))).2
              (TaskWorker.mk "worker-1" true None)
              (new_task 1 "t" (Function returns_7) [] NORMAL None 3 None None ∅))
    as (H1 & _ & H3 & H4 & _); [by vm_compute..|].
  done.
Defined.

(** ** The stored results *)

Lemma step_registered c w id :
  is_Some (get_task id w) → is_Some (get_task id (step c w).2).
Proof.
  intros Hid. destruct (step_tasks c w) as [E|Hs]; cbn zeta in *.
  - unfold get_task. by rewrite E.
  - destruct Hs as (now & uuid & func & args & priority & timeout & max_retries
                    & scheduled_at & metadata & kwargs & _ & _ & ->).
    unfold get_task, submitted, the_task_manager. cbn.
    apply lookup_insert_is_Some. destruct (decide (uuid = id)); auto.
Qed.

Lemma step_results_inv c w :
  world_inv w → results_inv w → results_inv (step c w).2.
Proof.
  intros Hw [Hobj Hres]. split.
  - intros a tk' Htk'.
    destruct (decide (a < length (objs w))%nat) as [Ha|Ha].
    + destruct (lookup_lt_is_Some_2 _ _ Ha) as [tk Htk].
      destruct (step_evolves c w (proj1 Hw)) as [_ He].
      destruct (He _ _ Htk) as (y & Hy & Hid).
      rewrite Htk' in Hy. injection Hy as <-.
      destruct Hid as (_ & _ & _ & -> & _).
      apply step_registered. by eapply Hobj.
    + destruct (step_inv c w (proj1 Hw)) as [[_ Hc] _].
      apply lookup_lt_Some in Htk' as Hlt.
      destruct c; try lia. clear Hc. revert Htk' Hlt.
      cbn [step snd]. rewrite submit_task_eq. cbn zeta.
      destruct (_ >=? _); [cbn; lia|]. destruct (negb _); [cbn; lia|].
      destruct (_ !! uuid) as [a0|] eqn:Hu; cbn; rewrite length_app; cbn;
        intros Htk' Hlt; rewrite lookup_app_r in Htk' by lia;
        replace (a - length (objs w))%nat with 0%nat in Htk' by lia;
        injection Htk' as <-; cbn.
      * unfold get_task, the_task_manager in *. cbn in *. rewrite Hu. eauto.
      * unfold get_task, the_task_manager. cbn. rewrite lookup_insert_eq. eauto.
  - intros id r Hr.
    assert (get_result id (step c w).2 = get_result id w → 
            TaskResult.task_id r = id
            ∧ TaskResult.status r ∈ [COMPLETED; FAILED]
            ∧ (∃ t0 t1, TaskResult.start_time r = Some t0
                        ∧ TaskResult.end_time r = Some t1
                        ∧ TaskResult.execution_time r = Some (t1 - t0))
            ∧ is_Some (get_task id (step c w).2)) as Hsame.
    { intros E. rewrite E in Hr. destruct (Hres _ _ Hr) as (? & ? & ? & ?).
      split_and!; [done..|]. by apply step_registered. }
    destruct c as [| | | | | |i b t0 t1];
      try (apply Hsame, step_results; by intros ????).
    destruct (decide (task_id_at (objs w) b = Some id)) as [Hb|Hno]; cycle 1.
    { apply Hsame, step_results. by intros ???? [= -> -> -> ->]. }
    unfold task_id_at in Hb. destruct (objs w !! b) as [tk|] eqn:Htk; [|done].
    injection Hb as Hb.
    revert Hr Hsame. cbn [step snd]. unfold execute_task_end.
    destruct (_workers w !! i) as [self|]; [|by auto].
    rewrite Htk. unfold Task.execute_call.
    assert (is_Some (get_task id w)) as Hreg by (rewrite <- Hb; by eapply Hobj).
    destruct (call _ _ _) as [v|e]; [|destruct (isinstance_Exception e)];
      cbn; try (by auto).
    all: unfold get_result, get_task, the_task_manager; cbn.
    all: rewrite Hb, lookup_insert_eq; intros [= <-] _; cbn.
    all: split_and!; [done| |by eauto|done].
    + apply elem_of_cons. by left.
    + apply elem_of_cons. right. apply elem_of_cons. by left.
Qed.

Lemma run_results_inv cs w :
  world_inv w → results_inv w → results_inv (run cs w).
Proof.
  revert w. induction cs as [|c cs IH]; intros w Hw Hr; [done|].
  cbn [run]. apply IH; [by apply step_world_inv|by apply step_results_inv].
Qed.



(** ** Submitting ahead of the queue *)

(** X17 ([submit_task], [get_next_task], [Task.__post_init__]): after any
    history, a task submitted with a priority higher than that of every
    queued task becomes the first entry of the queue.  The next
    [get_next_task] hands it out if its scheduled time (its creation time
    when none was given) has come, leaving the queue with the entries it
    had before the submission; otherwise that call returns None, whatever
    else is queued, and the queue keeps its entries. *)
Theorem submitted_task_of_highest_priority_is_next :
  ∀ mq ws cs now uuid func args priority timeout max_retries scheduled_at
    metadata kwargs id w1 t,
    let w := run cs (new_world mq ws) in
    let a := length (objs w) in
    submit_task now uuid func args priority timeout max_retries scheduled_at
      metadata kwargs w = (inr id, w1) →
    (∀ b tk, b ∈ the_queue w → objs w !! b = Some tk →
             priority_value (Task.priority tk) < priority_value priority) →
    the_queue w1 !! 0%nat = Some a
    ∧ (default now scheduled_at ≤ t →
       ∃ w2, get_next_task t w1 = (Some a, w2)
             ∧ the_queue w2 ≡ₚ the_queue w)
    ∧ (t < default now scheduled_at →
       ∃ w2, get_next_task t w1 = (None, w2)
             ∧ the_queue w2 ≡ₚ the_queue w1).
Proof.
  intros mq ws cs now uuid func args priority timeout max_retries scheduled_at
    metadata kwargs id w1 t w a Hsub Hhigh.
  pose proof (run_world_inv cs _ (new_world_inv mq ws)) as Hw. fold w in Hw.
  pose proof (submit_task_inv now uuid func args priority timeout max_retries
                scheduled_at metadata kwargs w (proj1 Hw)) as (_ & _ & Hq1).
  rewrite Hsub in Hq1. cbn [snd] in Hq1.
  apply submit_task_inr in Hsub as (_ & _ & _ & _ & ->).
  set (tk0 := new_task now uuid func args priority timeout max_retries
                scheduled_at metadata kwargs) in *.
  set (w1 := submitted now uuid func args priority timeout max_retries
               scheduled_at metadata kwargs w) in *.
  assert (objs w1 = objs w ++ [tk0]) as Ho1 by done.
  assert (objs w1 !! a = Some tk0) as Ha.
  { rewrite Ho1. unfold a. by rewrite lookup_app_r, Nat.sub_diag by lia. }
  assert (the_queue w1 ≡ₚ a :: the_queue w) as HP1.
  { apply heap_inv_push.
    - eapply heap_inv_evolves; [apply evolves_app|apply Hw].
    - rewrite length_app. cbn. lia. }
  assert (the_queue w1 ≠ []) as Hne.
  { intros E. rewrite E in HP1. by apply Permutation_nil_cons in HP1. }
  destruct (heap_inv_pop (objs w1) (the_queue w1) Hq1 Hne)
    as (m & q' & Hpop & Hq' & HP & Hm0 & Hmin).
  assert (m = a) as ->.
  { assert (m ∈ a :: the_queue w) as Hm by (rewrite <- HP1, HP; by left).
    apply elem_of_cons in Hm as [?|Hm]; [done|exfalso].
    destruct Hw as ([_ Hv] & _).
    rewrite Forall_forall in Hv. specialize (Hv m Hm).
    destruct (lookup_lt_is_Some_2 _ _ Hv) as [tkm Htkm].
    specialize (Hhigh m tkm Hm Htkm).
    specialize (Hmin a). rewrite (lt_at_false _ _ _ tkm tk0) in Hmin.
    - destruct Hmin as [Hlt|[Hp _]]; [rewrite HP1; by left|..].
      + change (Task.priority tk0) with priority in Hlt.
        clear -Hlt Hhigh. lia.
      + rewrite Hp in Hhigh. change (Task.priority tk0) with priority in Hhigh.
        clear -Hhigh. lia.
    - rewrite Ho1. by rewrite lookup_app_l.
    - done. }
  assert (q' ≡ₚ the_queue w) as HPq.
  { apply (Permutation_cons_inv (a := a)). by rewrite <- HP, HP1. }
  assert (∀ r q, get_next_task_loop (length (the_queue w1)) t (objs w1)
                   (the_queue w1) = (r, q) →
                 get_next_task t w1 = (r, with_queue q w1)) as Hget.
  { intros r q E. unfold get_next_task. by rewrite E. }
  assert (get_next_task_loop (length (the_queue w1)) t (objs w1) (the_queue w1)
          = if Task.is_ready t tk0 then (Some a, q')
            else (None, heapq.heappush (lt_at (objs w1)) q' a)) as Hloop.
  { destruct (the_queue w1) as [|a0 q0] eqn:Eq; [done|].
    cbn [length]. by rewrite get_next_task_loop_S, Hpop, Ha. }
  assert (Task.is_ready t tk0 = bool_decide (default now scheduled_at ≤ t))
    as Hready.
  { unfold Task.is_ready. cbn [tk0 new_task Task.status Task.scheduled_at].
    rewrite bool_decide_eq_true_2 by done. cbn [negb].
    generalize (default now scheduled_at). intros s.
    destruct (Z.ltb_spec t s);
      [by rewrite bool_decide_eq_false_2 by lia
      |by rewrite bool_decide_eq_true_2 by lia]. }
  split_and!.
  - done.
  - intros Hdue. rewrite Hready, bool_decide_eq_true_2 in Hloop by done.
    eexists. split; [by apply Hget|]. done.
  - intros Hearly. rewrite Hready, bool_decide_eq_false_2 in Hloop by lia.
    eexists. split; [by apply Hget|].
    destruct (heap_inv_push (objs w1) q' a Hq') as [_ HPp];
      [by eapply lookup_lt_Some|].
    change (the_queue (with_queue ?q w1)) with q. by rewrite HPp, HP.
Qed.

Lemma submitted_task_of_highest_priority_is_next_witness :
  let w := run [submit_plain 1 "lo" returns_7 LOW 3;
                submit_plain 2 "mid" returns_7 NORMAL 3] (new_world 10 []) in
  let w1 := (submit_task 3 "hi" (Function returns_7) [] URGENT None 3 (Some 9)
               None ∅ w).2 in
  the_queue w1 !! 0%nat = Some 2%nat
  ∧ (∃ w2, get_next_task 9 w1 = (Some 2%nat, w2)
           ∧ the_queue w2 ≡ₚ the_queue w)
  ∧ (∃ w2, get_next_task 5 w1 = (None, w2)
           ∧ the_queue w2 ≡ₚ the_queue w1).
Proof.
  intros w w1.
  assert (submit_task 3 "hi" (Function returns_7) [] URGENT None 3 (Some 9)
            None ∅ w = (inr "hi", w1)) as Hsub by by vm_compute.
  assert (∀ b tk, b ∈ the_queue w → objs w !! b = Some tk →
                  priority_value (Task.priority tk) < priority_value URGENT)
    as Hhigh.
  { intros b tk Hb. vm_compute in Hb.
    apply elem_of_cons in Hb as [->|Hb];
      [|apply elem_of_cons in Hb as [->|Hb]; [|by apply elem_of_nil in Hb]];
      intros [= <-]; by vm_compute. }
  destruct (submitted_task_of_highest_priority_is_next 10 []
              [submit_plain 1 "lo" returns_7 LOW 3;
               submit_plain 2 "mid" returns_7 NORMAL 3]
              3 "hi" (Function returns_7) [] URGENT None 3 (Some 9) None ∅
              "hi" w1 9 Hsub Hhigh) as (H1 & H2 & _).
  destruct (submitted_task_of_highest_priority_is_next 10 []
              [submit_plain 1 "lo" returns_7 LOW 3;
               submit_plain 2 "mid" returns_7 NORMAL 3]
              3 "hi" (Function returns_7) [] URGENT None 3 (Some 9) None ∅
              "hi" w1 5 Hsub Hhigh) as (_ & _ & H3).
  split_and!; [done|apply H2; cbn; lia|apply H3; cbn; lia].
Defined.

(** ** A freshly submitted task *)

(** X18 ([submit_task], [get_task_status], [get_task_result]): after any
    history, a task that has just been submitted is PENDING and has no
    stored result, and the submission changes the status and the stored
    result of no other task id. *)
Theorem submitted_task_is_pending_without_result :
  ∀ mq ws cs now uuid func args priority timeout max_retries scheduled_at
    metadata kwargs id w1,
    let w := run cs (new_world mq ws) in
    submit_task now uuid func args priority timeout max_retries scheduled_at
      metadata kwargs w = (inr id, w1) →
    get_task_status id w = None
    ∧ get_task_status id w1 = Some PENDING
    ∧ get_task_result id w1 = None
    ∧ ∀ id', id' ≠ id →
             get_task_status id' w1 = get_task_status id' w
             ∧ get_task_result id' w1 = get_task_result id' w.
Proof.
  intros mq ws cs now uuid func args priority timeout max_retries scheduled_at
    metadata kwargs id w1 w Hsub.
  pose proof (run_world_inv cs _ (new_world_inv mq ws)) as Hw. fold w in Hw.
  destruct (run_results_inv cs (new_world mq ws)) as [_ Hres].
  { apply new_world_inv. }
  { split; [by intros a tk Ha|by intros id' r' Hr']. }
  fold w in Hres.
  apply submit_task_inr in Hsub as (-> & _ & _ & Hnone & ->).
  split_and!.
  - unfold get_task_status, get_task. by rewrite Hnone.
  - unfold get_task_status, get_task, submitted, the_task_manager. cbn.
    rewrite lookup_insert_eq. by rewrite lookup_app_r, Nat.sub_diag by lia.
  - unfold get_task_result. change (get_result uuid (submitted _ _ _ _ _ _ _ _ _ _ w))
      with (get_result uuid w).
    destruct (get_result uuid w) as [r|] eqn:Hr; [|done].
    destruct (Hres _ _ Hr) as (_ & _ & _ & [a Ha]).
    unfold get_task in Ha. congruence.
  - intros id' Hne. split; [|done].
    unfold get_task_status, get_task, submitted, the_task_manager. cbn.
    rewrite lookup_insert_ne by done.
    destruct (TaskManager._tasks _ !! id') as [a|] eqn:Ha; [|done].
    destruct Hw as (_ & _ & Hreg & _). destruct (Hreg _ _ Ha) as (tk & Htk & _).
    rewrite lookup_app_l by by eapply lookup_lt_Some. done.
Qed.

Lemma submitted_task_is_pending_without_result_witness :
  let w := run (submit_plain 1 "a" returns_7 NORMAL 3 :: attempt 2)
             (new_world 10 one_worker) in
  let w1 := (submit_task 3 "b" (Function returns_7) [] HIGH None 3 None None ∅
               w).2 in
  get_task_status "b" w = None
  ∧ get_task_status "b" w1 = Some PENDING
  ∧ get_task_result "b" w1 = None
  ∧ get_task_status "a" w1 = Some COMPLETED.
Proof.
  intros w w1.
  destruct (submitted_task_is_pending_without_result 10 one_worker
              (submit_plain 1 "a" returns_7 NORMAL 3 :: attempt 2)
              3 "b" (Function returns_7) [] HIGH None 3 None None ∅ "b" w1)
    as (H1 & H2 & H3 & H4); [by vm_compute|].
  split_and!; [done..|]. destruct (H4 "a") as [-> _]; [done|]. by vm_compute.
Defined.

(** ** The worker pool *)

Lemma step_worker c w a wk :
  _workers w !! a = Some wk →
  ∃ wk', _workers (step c w).2 !! a = Some wk'
         ∧ TaskWorker.worker_id wk' = TaskWorker.worker_id wk
         ∧ TaskWorker._running wk' = TaskWorker._running wk.
Proof.
  intros Ha. destruct c; cbn [step snd].
  - exists wk. split; [|done].
    destruct (submit_task _ _ _ _ _ _ _ _ _ _ _) as [[e|id] w'] eqn:E; cbn.
    + revert E. rewrite submit_task_eq. cbn zeta.
      destruct (_ >=? _); [by intros [= _ <-]|].
      destruct (negb _); [by intros [= _ <-]|].
      destruct (_ !! uuid); [by intros [= _ <-]|done].
    + by apply submit_task_inr in E as (_ & _ & _ & _ & ->).
  - exists wk. split; [|done].
    pose proof (get_next_task_workers now w) as E.
    destruct (get_next_task now w) as [r w']. cbn in *. by rewrite E.
  - exists wk. split; [|done]. unfold cancel_task.
    destruct (get_task _ _); [|done].
    destruct (objs w !! _); [|done]. by case_bool_decide.
  - exists wk. split; [|done]. unfold retry_task.
    destruct (get_task _ _); [|done].
    destruct (objs w !! _); [|done]. destruct (negb _); [done|].
    by destruct (Task.reset_for_retry _).
  - exists wk. split; [|done]. unfold update_task_status.
    by destruct (_ !! task_id).
  - unfold execute_task_begin.
    destruct (_workers w !! i) as [self|] eqn:Hi; [|by exists wk].
    destruct (objs w !! task) as [tk|]; [|by exists wk].
    unfold update_task_status. cbn.
    assert (∃ wk', <[i := set_current_task (Some task) self]> (_workers w) !! a
                   = Some wk'
                   ∧ TaskWorker.worker_id wk' = TaskWorker.worker_id wk
                   ∧ TaskWorker._running wk' = TaskWorker._running wk) as H.
    { destruct (decide (a = i)) as [->|Hne].
      - rewrite list_lookup_insert_eq by by eapply lookup_lt_Some.
        rewrite Ha in Hi. injection Hi as <-. by eexists.
      - rewrite list_lookup_insert_ne by done. by exists wk. }
    by destruct (_ !! Task.task_id tk).
  - unfold execute_task_end.
    destruct (_workers w !! i) as [self|] eqn:Hi; [|by exists wk].
    destruct (objs w !! task) as [tk|]; [|by exists wk].
    assert (∃ wk', alter (set_current_task None) i (_workers w) !! a = Some wk'
                   ∧ TaskWorker.worker_id wk' = TaskWorker.worker_id wk
                   ∧ TaskWorker._running wk' = TaskWorker._running wk) as H.
    { destruct (decide (a = i)) as [->|Hne].
      - rewrite list_lookup_alter_eq, Ha. by eexists.
      - rewrite list_lookup_alter_ne by done. by exists wk. }
    by destruct (Task.execute_call _ _ tk) as [tk' [r|e]].
Qed.

Lemma stop_all_lookup_notin workers store a :
  a ∉ workers → stop_all workers store !! a = store !! a.
Proof.
  unfold stop_all. revert store.
  induction workers as [|b workers IH]; intros store Ha; [done|].
  cbn [foldl]. rewrite IH by (intros ?; apply Ha; by right).
  apply list_lookup_alter_ne. intros ->. apply Ha. by left.
Qed.

Lemma stop_all_lookup_in workers store a wk :
  a ∈ workers → stop_all workers store !! a = Some wk →
  TaskWorker._running wk = false.
Proof.
  unfold stop_all. revert store.
  induction workers as [|b workers IH]; intros store Ha Hwk.
  { by apply elem_of_nil in Ha. }
  cbn [foldl] in Hwk.
  destruct (decide (a ∈ workers)) as [Hin|Hnin]; [by eapply IH|].
  apply elem_of_cons in Ha as [->|?]; [|done].
  fold (stop_all workers (alter TaskWorker_stop b store)) in Hwk.
  rewrite stop_all_lookup_notin, list_lookup_alter_eq in Hwk by done.
  destruct (store !! b) as [wk0|]; [|done]. injection Hwk as <-.
  unfold TaskWorker_stop. by destruct (TaskWorker._running wk0) eqn:E.
Qed.

Lemma new_workers_lookup lo n j :
  (j < n)%nat →
  new_workers lo n !! j
  = Some (TaskWorker.mk ("worker-" +:+ pretty (lo + j + 1)%nat) true None).
Proof.
  intros Hj. unfold new_workers.
  by rewrite list_lookup_fmap, lookup_seq_lt.
Qed.

Lemma worker_name_inj k k' :
  "worker-" +:+ pretty (k + 1)%nat = "worker-" +:+ pretty (k' + 1)%nat → k = k'.
Proof. intros H%(inj _)%(inj _). lia. Qed.

Lemma pool_inv_NoDup s : pool_inv s → NoDup (WorkerPool._workers s.1).
Proof.
  intros [_ Hw]. apply NoDup_alt. intros k k' a Hk Hk'.
  destruct (Hw _ _ Hk) as (wk & Hwk & Hid & _).
  destruct (Hw _ _ Hk') as (wk' & Hwk' & Hid' & _).
  rewrite Hwk in Hwk'. injection Hwk' as <-.
  apply worker_name_inj. congruence.
Qed.

Lemma pool_inv_grow (p : WorkerPool.t) w n pool_size :
  pool_inv (p, w) →
  pool_inv
    (WorkerPool.mk pool_size
       (WorkerPool._workers p ++ seq (length (_workers w)) n) true,
     with_workers
       (_workers w ++ new_workers (length (WorkerPool._workers p)) n) w).
Proof.
  intros [_ Hw]. split; [done|]. cbn. intros k a Hk.
  apply lookup_app_Some in Hk as [Hk|[Hlen Hk]].
  - destruct (Hw _ _ Hk) as (wk & Hwk & Hid & Hrun). exists wk.
    split; [|done]. by rewrite lookup_app_l by by eapply lookup_lt_Some.
  - apply lookup_seq in Hk as [-> Hj].
    eexists. split.
    + rewrite lookup_app_r by lia.
      replace (length (_workers w) + (k - length (WorkerPool._workers p))
               - length (_workers w))%nat
        with (k - length (WorkerPool._workers p))%nat by lia.
      by apply new_workers_lookup.
    + cbn. split; [|done]. do 2 f_equal. cbn in Hlen. lia.
Qed.

Lemma pool_inv_shrink (p : WorkerPool.t) w i pool_size :
  pool_inv (p, w) →
  pool_inv
    (WorkerPool.mk pool_size (take i (WorkerPool._workers p)) true,
     with_workers (stop_all (drop i (WorkerPool._workers p)) (_workers w)) w).
Proof.
  intros Hinv. pose proof (pool_inv_NoDup _ Hinv) as Hnd. cbn in Hnd.
  destruct Hinv as [_ Hw]. split; [done|]. cbn. intros k a Hk.
  apply lookup_take_Some in Hk as [Hk Hki].
  destruct (Hw _ _ Hk) as (wk & Hwk & Hid & Hrun). exists wk.
  split; [|done]. rewrite stop_all_lookup_notin; [done|].
  intros (j & Hj)%list_elem_of_lookup_1. rewrite lookup_drop in Hj.
  pose proof (NoDup_lookup _ _ _ _ Hnd Hk Hj). lia.
Qed.

Lemma pool_step_inv c s : pool_inv s → pool_inv (pool_step c s).
Proof.
  destruct s as [p w]. intros Hinv.
  assert (WorkerPool._running p = false → WorkerPool._workers p = [])
    as Hnil by apply Hinv.
  destruct c; cbn [pool_step fst snd].
  - unfold WorkerPool_start.
    destruct (WorkerPool._running p) eqn:Hrun; [done|].
    pose proof (pool_inv_grow p w (Z.to_nat (WorkerPool.pool_size p))
                  (WorkerPool.pool_size p) Hinv) as H.
    rewrite (Hnil eq_refl) in H |- *. exact H.
  - unfold WorkerPool_stop.
    destruct (WorkerPool._running p) eqn:Hrun; [|done]. cbn.
    split; [done|]. cbn. intros k a Hk. by rewrite lookup_nil in Hk.
  - unfold WorkerPool_resize.
    destruct (WorkerPool._running p) eqn:Hrun; cbn [negb].
    + destruct (_ <? new_size); [by apply pool_inv_grow|].
      destruct (new_size <? _); [by apply pool_inv_shrink|].
      destruct Hinv as [_ Hw]. split; [cbn; congruence|done].
    + split; [done|]. cbn. by rewrite (Hnil eq_refl).
  - unfold start_workers, WorkerPool_start. cbn.
    destruct (WorkerPool._running p) eqn:Hrun.
    { destruct Hinv as [_ Hw]. split; [cbn; congruence|done]. }
    pose proof (pool_inv_grow p w (Z.to_nat pool_size) pool_size Hinv) as H.
    rewrite (Hnil eq_refl) in H |- *. exact H.
  - destruct Hinv as [_ Hw]. split; [done|]. cbn. intros k a Hk.
    destruct (Hw _ _ Hk) as (wk & Hwk & Hid & Hrun).
    destruct (step_worker c w a wk Hwk) as (wk' & Hwk' & Hid' & Hrun').
    exists wk'. split_and!; congruence.
Qed.

Lemma pool_run_inv cs s : pool_inv s → pool_inv (pool_run cs s).
Proof.
  revert s. induction cs as [|c cs IH]; intros s Hs; [done|].
  cbn [pool_run]. by apply IH, pool_step_inv.
Qed.

Lemma list_filter_all {A} (P : A → Prop) `{!∀ x, Decision (P x)} (l : list A) :
  (∀ x, x ∈ l → P x) → filter P l = l.
Proof.
  induction l as [|x l IH]; intros HP; [done|].
  rewrite filter_cons, decide_True by (apply HP; by left).
  rewrite IH; [done|]. intros y Hy. apply HP. by right.
Qed.

(** X19 ([WorkerPool.start], [WorkerPool.stop], [WorkerPool.resize],
    [start_workers], [TaskWorker.start], [TaskWorker.stop]): in every
    history of pool operations and queue operations, a pool that is not
    running has no workers, and the worker at position k of the pool
    (counting from 0) is a running worker named worker-(k+1).  So the
    workers of a pool have pairwise distinct ids, all of them are active,
    and there are never more busy than active workers. *)
Theorem pool_workers_are_numbered_and_running :
  ∀ pool_size mq ws cs,
    let s := pool_run cs (WorkerPool_init pool_size, new_world mq ws) in
    (WorkerPool._running s.1 = false → get_workers s.1 = [])
    ∧ (∀ k a, get_workers s.1 !! k = Some a →
              ∃ wk, _workers s.2 !! a = Some wk
                    ∧ TaskWorker.worker_id wk = "worker-" +:+ pretty (k + 1)%nat
                    ∧ TaskWorker._running wk = true)
    ∧ NoDup (get_workers s.1)
    ∧ get_active_workers s.1 s.2 = get_workers s.1
    ∧ (length (get_busy_workers s.1 s.2)
       ≤ length (get_active_workers s.1 s.2))%nat.
Proof.
  intros pool_size mq ws cs s.
  assert (pool_inv s) as Hinv.
  { apply pool_run_inv. split; [done|]. cbn. intros k a Hk.
    by rewrite lookup_nil in Hk. }
  pose proof (pool_inv_NoDup _ Hinv) as Hnd. destruct Hinv as [Hnil Hw].
  assert (get_active_workers s.1 s.2 = get_workers s.1) as Hact.
  { unfold get_active_workers, get_workers. apply list_filter_all.
    intros a (k & Hk)%list_elem_of_lookup_1.
    destruct (Hw _ _ Hk) as (wk & -> & _ & Hrun). cbn. by rewrite Hrun. }
  split_and!; [done..|].
  rewrite Hact. apply length_filter.
Qed.

Lemma WorkerPool_resize_running new_size (p : WorkerPool.t) w :
  WorkerPool._running p = true →
  let r := WorkerPool_resize new_size p w in
  let n := if new_size <? 0
           then Z.to_nat (Z.of_nat (length (get_workers p)) + new_size)
           else Z.to_nat new_size in
  length (get_workers r.1) = n
  ∧ (∀ k, (k < n)%nat → (k < length (get_workers p))%nat →
          get_workers r.1 !! k = get_workers p !! k)
  ∧ (∀ k a wk, get_workers p !! k = Some a → (n ≤ k)%nat →
               _workers r.2 !! a = Some wk → TaskWorker._running wk = false)
  ∧ (∀ a, (a < length (_workers w))%nat → a ∉ drop n (get_workers p) →
          _workers r.2 !! a = _workers w !! a).
Proof.
  intros Hrun. unfold WorkerPool_resize, get_workers. rewrite Hrun. cbn [negb].
  set (cur := length (WorkerPool._workers p)).
  destruct (Z.ltb_spec (Z.of_nat cur) new_size) as [Hgrow|Hle]; cbn zeta.
  { rewrite (proj2 (Z.ltb_ge new_size 0)) by lia. cbn [fst snd WorkerPool._workers _workers with_workers].
    split_and!.
    - rewrite length_app, length_seq. fold cur. lia.
    - intros k _ Hk. by rewrite lookup_app_l.
    - intros k a wk Hk%lookup_lt_Some. fold cur in Hk. lia.
    - intros a Ha _. by rewrite lookup_app_l. }
  destruct (Z.ltb_spec new_size (Z.of_nat cur)) as [Hshrink|Hge]; cycle 1.
  { assert (new_size = Z.of_nat cur) as -> by lia.
    rewrite (proj2 (Z.ltb_ge (Z.of_nat cur) 0)) by lia. rewrite Nat2Z.id.
    cbn [fst snd WorkerPool._workers]. split_and!; try done.
    intros k a wk Hk%lookup_lt_Some. fold cur in Hk. lia. }
  assert (slice_index new_size cur
          = if new_size <? 0 then Z.to_nat (Z.of_nat cur + new_size)
            else Z.to_nat new_size) as ->.
  { unfold slice_index. destruct (Z.ltb_spec new_size 0); lia. }
  set (n := if new_size <? 0 then _ else _).
  assert (n ≤ cur)%nat as Hn by (unfold n; destruct (Z.ltb_spec new_size 0); lia).
  cbn [fst snd WorkerPool._workers _workers with_workers]. split_and!.
  - rewrite length_take. fold cur. lia.
  - intros k Hk _. by rewrite lookup_take_lt.
  - intros k a wk Hk Hnk Hwk. eapply stop_all_lookup_in; [|done].
    apply list_elem_of_lookup. exists (k - n)%nat.
    rewrite lookup_drop. by replace (n + (k - n))%nat with k by lia.
  - intros a _ Ha. by apply stop_all_lookup_notin.
Qed.

(** X20 ([WorkerPool.start], [WorkerPool.stop], [WorkerPool.resize]): in
    every history of pool operations and queue operations, [start] on a
    stopped pool creates [pool_size] workers (none when [pool_size] is not
    positive) and does nothing on a running pool; [stop] leaves the pool
    without workers; [resize] always sets [pool_size], and on a stopped
    pool does nothing else.  On a running pool [resize(new_size)] leaves
    [new_size] workers when [new_size] is not negative; a negative
    [new_size] removes that many workers from the end and leaves
    [pool_size] negative.  Workers that stay keep their position, and the
    workers removed are stopped. *)
Theorem pool_start_stop_resize :
  ∀ pool_size mq ws cs new_size,
    let s := pool_run cs (WorkerPool_init pool_size, new_world mq ws) in
    let started := WorkerPool_start s.1 s.2 in
    let stopped := WorkerPool_stop s.1 s.2 in
    let r := WorkerPool_resize new_size s.1 s.2 in
    let n := if new_size <? 0
             then Z.to_nat (Z.of_nat (length (get_workers s.1)) + new_size)
             else Z.to_nat new_size in
    (WorkerPool._running s.1 = true → started = s)
    ∧ (WorkerPool._running s.1 = false →
       WorkerPool._running started.1 = true
       ∧ length (get_workers started.1)
         = Z.to_nat (WorkerPool.pool_size s.1))
    ∧ get_workers stopped.1 = [] ∧ WorkerPool._running stopped.1 = false
    ∧ WorkerPool.pool_size r.1 = new_size
    ∧ WorkerPool._running r.1 = WorkerPool._running s.1
    ∧ (WorkerPool._running s.1 = false → r.2 = s.2 ∧ get_workers r.1 = [])
    ∧ (WorkerPool._running s.1 = true →
       length (get_workers r.1) = n
       ∧ (∀ k, (k < n)%nat → (k < length (get_workers s.1))%nat →
               get_workers r.1 !! k = get_workers s.1 !! k)
       ∧ (∀ k a wk, get_workers s.1 !! k = Some a → (n ≤ k)%nat →
                    _workers r.2 !! a = Some wk →
                    TaskWorker._running wk = false)).
Proof.
  intros pool_size mq ws cs new_size s started stopped r n.
  assert (pool_inv s) as [Hnil _].
  { apply pool_run_inv. split; [done|]. cbn. intros k a Hk.
    by rewrite lookup_nil in Hk. }
  destruct s as [p w]. cbn [fst snd] in *.
  split_and!.
  - intros Hrun. unfold started, WorkerPool_start. by rewrite Hrun.
  - intros Hrun. unfold started, WorkerPool_start, get_workers.
    rewrite Hrun, (Hnil Hrun). cbn. by rewrite length_seq.
  - unfold stopped, WorkerPool_stop, get_workers.
    destruct (WorkerPool._running p) eqn:Hrun; cbn; auto.
  - unfold stopped, WorkerPool_stop.
    by destruct (WorkerPool._running p) eqn:Hrun.
  - unfold r, WorkerPool_resize.
    destruct (WorkerPool._running p); cbn [negb]; [|done]. cbn zeta.
    destruct (Z.of_nat (length (WorkerPool._workers p)) <? new_size); [done|].
    by destruct (new_size <? Z.of_nat (length (WorkerPool._workers p))).
  - unfold r, WorkerPool_resize.
    destruct (WorkerPool._running p); cbn [negb]; [|done]. cbn zeta.
    destruct (Z.of_nat (length (WorkerPool._workers p)) <? new_size); [done|].
    by destruct (new_size <? Z.of_nat (length (WorkerPool._workers p))).
  - intros Hrun. unfold r, WorkerPool_resize, get_workers. rewrite Hrun.
    cbn. auto.
  - intros Hrun.
    destruct (WorkerPool_resize_running new_size p w Hrun) as (? & ? & ? & _).
    done.
Qed.

(** ** Tasks that are out of the queue for good *)

Lemma execute_task_results i b t0 t1 w id :
  task_id_at (objs w) b ≠ Some id →
  get_result id (execute_task i b t0 t1 w).2 = get_result id w.
Proof.
  intros Hb. unfold execute_task.
  pose proof (step_results (ExecuteTaskEnd i b t0 t1)
                (execute_task_begin i b w) id) as H1.
  pose proof (step_results (ExecuteTaskBegin i b) w id) as H2.
  cbn [step snd] in H1, H2.
  destruct (execute_task_end _ _ _ _ _) as [r w'] eqn:E. cbn [snd] in *.
  rewrite H1, H2; [done|by intros ????|].
  intros ???? [= <- <- <- <-]. unfold task_id_at in *.
  destruct (execute_task_begin_frame i b w) as ([_ He] & _ & _).
  destruct (objs w !! b) as [tk|] eqn:Htk.
  - destruct (He _ _ Htk) as (tk' & -> & Hid). cbn in *.
    destruct Hid as (_ & _ & _ & -> & _). done.
  - destruct (objs (execute_task_begin i b w) !! b) as [tk'|] eqn:Htk'; [|done].
    apply lookup_lt_Some in Htk'. apply lookup_ge_None in Htk.
    destruct (execute_task_begin_frame i b w) as (_ & Hl & _). cbn zeta in Hl.
    lia.
Qed.

(** What one turn does to a retired task: its status stays or becomes
    CANCELLED, and it stays out of the queue and keeps its stored result. *)
Lemma turn_retired id a t w tk :
  world_inv w → retired id a w → objs w !! a = Some tk →
  let w' := run (turn_ops t w) w in
  retired id a w'
  ∧ get_result id w' = get_result id w
  ∧ ∃ tk', objs w' !! a = Some tk'
           ∧ (Task.status tk' = Task.status tk ∨ Task.status tk' = CANCELLED).
Proof.
  intros Hw (Hid & Hnq & tk0 & Htk0 & Hst) Htk.
  rewrite Htk in Htk0. injection Htk0 as <-.
  pose proof Hw as (Hq & _ & Hr & Hk).
  pose proof (lookup_lt_Some _ _ _ Htk) as Hlt.
  destruct t; cbn zeta.
  - cbn [turn_ops run step]. rewrite submit_task_eq. cbn zeta.
    destruct (_ >=? _); [cbn; split_and!; [split_and!|..]; eauto|].
    destruct (negb _); [cbn; split_and!; [split_and!|..]; eauto|].
    destruct (_ !! uuid) as [a0|] eqn:Hu; cbn.
    + split_and!; [split_and!|..]; try done.
      * exists tk. cbn. by rewrite lookup_app_l.
      * exists tk. cbn. by rewrite lookup_app_l; auto.
    + set (tk1 := new_task _ _ _ _ _ _ _ _ _ _).
      destruct (heap_inv_push (objs w ++ [tk1]) (the_queue w) (length (objs w)))
        as [_ HP].
      { eapply heap_inv_evolves; [apply evolves_app|done]. }
      { rewrite length_app. cbn. lia. }
      split_and!; [split_and!|..]; try done.
      * unfold get_task, the_task_manager in *. cbn.
        rewrite lookup_insert_ne; [done|]. intros ->. congruence.
      * unfold the_queue at 1. cbn. rewrite HP.
        intros [?|?]%elem_of_cons; [lia|done].
      * exists tk. cbn. by rewrite lookup_app_l.
      * exists tk. cbn. by rewrite lookup_app_l; auto.
  - cbn [turn_ops run step].
    destruct (cancel_task task_id w) as [r w'] eqn:E. cbn [snd].
    assert (w' = (cancel_task task_id w).2) as -> by by rewrite E.
    clear E r. unfold cancel_task.
    destruct (get_task task_id w) as [a0|] eqn:Ha0;
      [|cbn; split_and!; [split_and!|..]; eauto].
    destruct (objs w !! a0) as [tk0|] eqn:Htk0;
      [|cbn; split_and!; [split_and!|..]; eauto].
    case_bool_decide as Hrun; [cbn; split_and!; [split_and!|..]; eauto|].
    destruct (cancel_task_registered task_id w a0 tk0 Hw Ha0 Htk0 Hrun)
      as (_ & Hoa & Hother & HP & Hreg & Hres & _).
    unfold cancel_task in Hoa, Hother, HP, Hreg, Hres.
    rewrite Ha0, Htk0, bool_decide_eq_false_2 in Hoa, Hother, HP, Hreg, Hres
      by done.
    cbn [snd] in *.
    assert (∃ tk',
      alter Task.cancel a0 (objs w) !! a = Some tk'
      ∧ (Task.status tk' = Task.status tk ∨ Task.status tk' = CANCELLED))
      as (tk' & Htk' & Hst').
    { destruct (decide (a = a0)) as [->|Hne].
      - cbn in Hoa. rewrite Hoa. eexists. split; [done|]. by right.
      - cbn in Hother. rewrite Hother by done. eauto. }
    split_and!; [split_and!|..].
    + by rewrite Hreg.
    + rewrite HP. by intros [_ ?]%list_elem_of_filter.
    + exists tk'. split; [done|]. destruct Hst' as [->| ->]; done.
    + apply Hres.
    + by exists tk'.
  - cbn [turn_ops run step].
    destruct (retry_task task_id w) as [r w'] eqn:E. cbn [snd].
    assert (w' = (retry_task task_id w).2) as -> by by rewrite E.
    clear E r. unfold retry_task.
    destruct (get_task task_id w) as [a0|] eqn:Ha0;
      [|cbn; split_and!; [split_and!|..]; eauto].
    destruct (objs w !! a0) as [tk0|] eqn:Htk0;
      [|cbn; split_and!; [split_and!|..]; eauto].
    destruct (Task.can_retry tk0) eqn:Hcan;
      [|cbn; split_and!; [split_and!|..]; eauto]. cbn [negb].
    unfold Task.reset_for_retry. rewrite Hcan. cbn [negb snd].
    apply can_retry_true in Hcan as [Hf _].
    assert (a ≠ a0) as Hne by (intros ->; congruence).
    set (tk1 := Task.set_worker_id _ _).
    destruct (heap_inv_push (<[a0 := tk1]> (objs w)) (the_queue w) a0)
      as [_ HP].
    { eapply heap_inv_evolves; [|done]. by eapply evolves_insert. }
    { rewrite length_insert. by eapply lookup_lt_Some. }
    split_and!; [split_and!|..]; try done.
    + unfold the_queue at 1. cbn. rewrite HP.
      by intros [?|?]%elem_of_cons.
    + exists tk. cbn. by rewrite list_lookup_insert_ne.
    + exists tk. cbn. rewrite list_lookup_insert_ne by done. auto.
  - rewrite turn_ops_works. unfold _worker_loop_turn.
    pose proof (get_next_task_tasks now w) as Hts.
    destruct (get_next_task now w) as [r w1] eqn:E. cbn [snd] in Hts.
    destruct (get_next_task_ok _ _ _ _ Hq E) as (Ho & _ & Hsub).
    assert (get_result id w1 = get_result id w) as Hres1.
    { unfold get_next_task in E. destruct (get_next_task_loop _ _ _ _).
      by injection E as _ <-. }
    destruct r as [b|].
    + destruct Hsub as (Hsub & _).
      assert (b ∈ the_queue w) as Hb.
      { eapply elem_of_submseteq; [|exact Hsub]. by left. }
      assert (a ∉ the_queue w1) as Hnq1.
      { intros Hin. apply Hnq. eapply elem_of_submseteq; [|exact Hsub].
        by right. }
      assert (a ≠ b) as Hne by (intros ->; done).
      destruct (Hk b Hb) as (tkb & Htkb & Hregb).
      assert (objs (execute_task i b start_time end_time w1).2 !! a = Some tk)
        as Hobj.
      { rewrite (execute_task_other _ _ _ _ _ tkb);
          [by rewrite Ho|by rewrite Ho|by rewrite Hts|done]. }
      split_and!; [split_and!|..].
      * by rewrite execute_task_tasks, Hts.
      * by rewrite execute_task_queue.
      * by exists tk.
      * rewrite execute_task_results, Hres1; [done|].
        unfold task_id_at. rewrite Ho, Htkb. cbn. intros [= Eid].
        rewrite Eid in Hregb. congruence.
      * exists tk. auto.
    + split_and!; [split_and!|..].
      * by rewrite Hts.
      * intros Hin. apply Hnq. by eapply elem_of_submseteq.
      * exists tk. by rewrite Ho.
      * done.
      * exists tk. rewrite Ho. auto.
Qed.

Lemma run_turns_retired id a ts w tk :
  world_inv w → retired id a w → objs w !! a = Some tk →
  let w' := run_turns ts w in
  retired id a w'
  ∧ get_result id w' = get_result id w
  ∧ ∃ tk', objs w' !! a = Some tk'
           ∧ (Task.status tk' = Task.status tk ∨ Task.status tk' = CANCELLED).
Proof.
  revert w tk. induction ts as [|t ts IH]; intros w tk Hw Hret Htk; cbn zeta.
  { split_and!; [done..|]. exists tk. auto. }
  cbn [run_turns].
  destruct (turn_retired id a t w tk Hw Hret Htk) as (Hret1 & Hres1 & tk1 & Htk1 & Hst1).
  destruct (IH _ tk1 (run_world_inv _ _ Hw) Hret1 Htk1)
    as (Hret2 & Hres2 & tk2 & Htk2 & Hst2).
  split_and!; [done|by rewrite Hres2|].
  exists tk2. split; [done|].
  destruct Hst2 as [->|?]; [done|by right].
Qed.

Lemma get_next_task_queued now w a :
  queue_inv w → (get_next_task now w).1 = Some a → a ∈ the_queue w.
Proof.
  intros Hq E. destruct (get_next_task now w) as [r w'] eqn:E'.
  cbn in E. subst r.
  destruct (get_next_task_ok _ _ _ _ Hq E') as (_ & _ & Hsub & _).
  eapply elem_of_submseteq; [|exact Hsub]. by left.
Qed.

(** X21 ([get_next_task], [retry_task], [cancel_task], [_worker_loop]): in
    a history made of submissions, cancellations, retries and worker turns,
    a registered task that is neither PENDING nor FAILED (one that is
    COMPLETED or CANCELLED, say) is out of the queue for good: whatever
    follows, it is never queued or handed out again, its stored result
    does not change, and its status stays as it is or becomes CANCELLED. *)
Theorem finished_task_is_never_run_again :
  ∀ mq ws ts id a tk ts',
    let w := run_turns ts (new_world mq ws) in
    let w' := run_turns ts' w in
    get_task id w = Some a → objs w !! a = Some tk →
    Task.status tk ≠ PENDING → Task.status tk ≠ FAILED →
    (a ∉ the_queue w')
    ∧ (∀ now, (get_next_task now w').1 ≠ Some a)
    ∧ get_task_result id w' = get_task_result id w
    ∧ ∃ tk', objs w' !! a = Some tk'
             ∧ (Task.status tk' = Task.status tk
                ∨ Task.status tk' = CANCELLED).
Proof.
  intros mq ws ts id a tk ts' w w' Ha Htk Hnp Hnf.
  pose proof (run_turns_inv ts _ (new_world_inv mq ws)) as Hw. fold w in Hw.
  assert (pending_inv w) as [_ Hp].
  { apply run_turns_pending; [apply new_world_inv|].
    split; [apply NoDup_nil_2|]. intros b Hb. cbn in Hb.
    by apply elem_of_nil in Hb. }
  assert (retired id a w) as Hret.
  { split_and!; [done| |by exists tk].
    intros Hin. destruct (Hp a Hin) as (tk' & Htk' & Hst). congruence. }
  destruct (run_turns_retired id a ts' w tk Hw Hret Htk)
    as ((_ & Hnq & _) & Hres & Htk').
  split_and!; [done| |done..].
  intros now E. apply Hnq. eapply get_next_task_queued; [|done].
  apply run_turns_inv, Hw.
Qed.

Lemma finished_task_is_never_run_again_witness :
  let ts := [Submits 1 "t" (Function returns_7) [] NORMAL None 3 None None ∅;
             Works 0 2 2 3] in
  let ts' := [Retries "t"; Works 0 4 4 5] in
  let w := run_turns ts (new_world 10 one_worker) in
  let w' := run_turns ts' w in
  get_task_status "t" w = Some COMPLETED
  ∧ (0%nat ∉ the_queue w')
  ∧ (∀ now, (get_next_task now w').1 ≠ Some 0%nat)
  ∧ get_task_result "t" w' = get_task_result "t" w.
Proof.
  intros ts ts' w w'. split; [by vm_compute|].
  assert (∃ tk, objs w !! 0%nat = Some tk ∧ Task.status tk = COMPLETED)
    as (tk & Htk & Hst) by (eexists; by vm_compute).
  destruct (finished_task_is_never_run_again 10 one_worker ts "t" 0%nat tk ts')
    as (H1 & H2 & H3 & _); [by vm_compute|done|by rewrite Hst..|].
  done.
Defined.




(** ** The timeout of a task *)

(** X23 ([Task.execute], [execute_task], [update_task_status]): nothing
    enforces the [timeout] of a task.  In a history without a call
    [update_task_status(task_id, TIMEOUT)] no task ever has the status
    TIMEOUT; and what [Task.execute] returns depends neither on the
    [timeout] of the task nor on how long the wrapped function ran. *)
Theorem timeout_is_never_enforced :
  ∀ mq ws cs,
    Forall (λ c, ∀ task_id, c ≠ UpdateTaskStatus task_id TIMEOUT) cs →
    Forall (λ tk, Task.status tk ≠ TIMEOUT) (objs (run cs (new_world mq ws)))
    ∧ ∀ t0 t1 t1' func args kwargs task_id priority timeout timeout'
        retry_count max_retries created_at scheduled_at metadata status result
        worker_id r,
        (Task.execute t0 t1
           (Task.mk func args kwargs task_id priority timeout retry_count
              max_retries created_at scheduled_at metadata status result
              worker_id)).2 = inl r →
        ∃ r',
          (Task.execute t0 t1'
             (Task.mk func args kwargs task_id priority timeout' retry_count
                max_retries created_at scheduled_at metadata status result
                worker_id)).2 = inl r'
          ∧ TaskResult.status r' = TaskResult.status r
          ∧ TaskResult.result r' = TaskResult.result r
          ∧ TaskResult.error r' = TaskResult.error r.
Proof.
  intros mq ws cs Hcs. split.
  - apply (run_objs_Forall _ (λ c, ∀ task_id, c ≠ UpdateTaskStatus task_id TIMEOUT));
      [| |done|apply new_world_inv|by apply Forall_nil].
    + intros c x y Hc Hs _ Hx.
      destruct Hs as [[-> _]|Hs]; [done|].
      destruct c; try done.
      * destruct Hs as (_ & -> & _). done.
      * destruct Hs as (_ & -> & _). done.
      * destruct Hs as (Hst & _). intros E. rewrite E in Hst. subst status.
        by apply (Hc task_id).
      * destruct Hs as (-> & _). done.
      * destruct Hs as ([-> | ->] & _); done.
    + intros. done.
  - intros t0 t1 t1' func args kwargs task_id priority timeout timeout'
      retry_count max_retries created_at scheduled_at metadata status result
      worker_id r.
    unfold Task.execute, Task.execute_call. cbn.
    destruct (call func args kwargs) as [v|e];
      [|destruct (isinstance_Exception e)]; cbn; intros [= <-];
      by eexists.
Qed.

Lemma timeout_is_never_enforced_witness :
  let cs := SubmitTask 1 "t" (Function returns_7) [] NORMAL (Some 1) 3 None
              None ∅ :: attempt 2 in
  Forall (λ tk, Task.status tk ≠ TIMEOUT) (objs (run cs (new_world 10 one_worker)))
  ∧ get_task_status "t" (run cs (new_world 10 one_worker)) = Some COMPLETED.
Proof.
  intros cs. split; [|by vm_compute].
  apply (timeout_is_never_enforced 10 one_worker cs).
  repeat constructor; by intros ?.
Defined.

(** ** Registering and unregistering *)

(** X24 ([add_task], [get_task], [remove_task]): [add_task] registers a
    task under its [task_id] when that id is free, so that [get_task]
    returns the task and no other id changes; a following [remove_task]
    gives back the state from before, and a second [add_task] raises the
    task-exists error.  When the id is taken, [add_task] raises that error
    and changes nothing. *)
Theorem add_task_then_remove_task :
  ∀ task tk w,
    let id := Task.task_id tk in
    let r := add_task task tk w in
    (get_task id w = None →
     r.1 = inr id
     ∧ get_task id r.2 = Some task
     ∧ (∀ id', id' ≠ id → get_task id' r.2 = get_task id' w)
     ∧ add_task task tk r.2 = (inl (QueueError (task_exists id)), r.2)
     ∧ remove_task id r.2 = (true, w))
    ∧ (is_Some (get_task id w) →
       r = (inl (QueueError (task_exists id)), w)).
Proof.
  intros task tk w id r. unfold r, add_task, get_task. fold id. split.
  - intros Hnone. rewrite Hnone. cbn [fst snd]. split_and!.
    + done.
    + unfold the_task_manager. cbn. apply lookup_insert_eq.
    + intros id' Hne. unfold the_task_manager. cbn.
      by apply lookup_insert_ne.
    + unfold the_task_manager at 1. cbn. by rewrite lookup_insert_eq.
    + unfold remove_task, the_task_manager at 1. cbn.
      rewrite lookup_insert_eq. f_equal.
      unfold the_task_manager at 1 2. cbn.
      rewrite delete_insert_eq, delete_id by done.
      by destruct w as [o [mq q [ts rs] run] ws].
  - intros [a Ha]. by rewrite Ha.
Qed.

(** ** The worker loop drains the queue *)

Lemma execute_task_outcome i b t0 t1 w self tk :
  _workers w !! i = Some self → objs w !! b = Some tk →
  executed tk b (execute_task i b t0 t1 w).2.
Proof.
  intros Hi Htk.
  destruct (execute_task_begin_eq i b w self tk Hi Htk) as (Hws & Hobj & Hqm).
  pose proof (lookup_lt_Some _ _ _ Hi) as Hli.
  assert (b < length (objs (execute_task_begin i b w)))%nat as Hlt
    by by eapply lookup_lt_Some.
  unfold executed, execute_task, execute_task_end.
  rewrite Hws, list_lookup_insert_eq, Hobj by done.
  unfold Task.execute_call. cbn.
  destruct (call _ _ _) as [v|e]; [|destruct (isinstance_Exception e)]; cbn;
    rewrite list_lookup_alter_eq, list_lookup_insert_eq by done.
  - split; [done|]. eexists. split.
    + unfold get_task_result, get_result, the_task_manager. cbn.
      by rewrite lookup_insert_eq.
    + done.
  - split; [done|]. eexists. split.
    + unfold get_task_result, get_result, the_task_manager. cbn.
      by rewrite lookup_insert_eq.
    + done.
  - done.
Qed.

(** A worker turn leaves alone a registered task that is not queued. *)
Lemma _worker_loop_turn_other i now t0 t1 w id a :
  world_inv w → get_task id w = Some a → a ∉ the_queue w →
  let w' := _worker_loop_turn i now t0 t1 w in
  get_task id w' = Some a ∧ (a ∉ the_queue w')
  ∧ objs w' !! a = objs w !! a ∧ get_result id w' = get_result id w.
Proof.
  intros (Hq & _ & Hr & Hk) Hid Hnq. unfold _worker_loop_turn.
  pose proof (get_next_task_tasks now w) as Hts.
  destruct (get_next_task now w) as [r w1] eqn:E. cbn [snd] in Hts.
  destruct (get_next_task_ok _ _ _ _ Hq E) as (Ho & _ & Hsub).
  assert (get_result id w1 = get_result id w) as Hres1.
  { unfold get_next_task in E. destruct (get_next_task_loop _ _ _ _).
    by injection E as _ <-. }
  destruct r as [b|]; cbn zeta.
  - destruct Hsub as (Hsub & _).
    assert (b ∈ the_queue w) as Hb.
    { eapply elem_of_submseteq; [|exact Hsub]. by left. }
    assert (a ≠ b) as Hne by (intros ->; done).
    destruct (Hk b Hb) as (tkb & Htkb & Hregb).
    split_and!.
    + by rewrite execute_task_tasks, Hts.
    + rewrite execute_task_queue. intros Hin. apply Hnq.
      eapply elem_of_submseteq; [|exact Hsub]. by right.
    + rewrite (execute_task_other _ _ _ _ _ tkb);
        [by rewrite Ho|by rewrite Ho|by rewrite Hts|done].
    + rewrite execute_task_results, Hres1; [done|].
      unfold task_id_at. rewrite Ho, Htkb. cbn. intros [= Eid].
      rewrite Eid in Hregb. congruence.
  - split_and!.
    + by rewrite Hts.
    + intros Hin. apply Hnq. by eapply elem_of_submseteq.
    + by rewrite Ho.
    + done.
Qed.

Lemma run_works_other works n now w id a :
  Forall (works_from n now) works →
  world_inv w → get_task id w = Some a → a ∉ the_queue w →
  let w' := run_turns works w in
  objs w' !! a = objs w !! a ∧ get_result id w' = get_result id w.
Proof.
  revert w. induction works as [|t works IH]; intros w Hts Hw Hid Hnq; [done|].
  apply Forall_cons in Hts as [Ht Hts]. cbn [run_turns].
  destruct t as [| | |i t_now t0 t1]; try done.
  pose proof (run_world_inv (turn_ops (Works i t_now t0 t1) w) w Hw) as Hw1.
  revert Hw1. rewrite turn_ops_works. intros Hw1.
  destruct (_worker_loop_turn_other i t_now t0 t1 w id a Hw Hid Hnq)
    as (Hid1 & Hnq1 & Ho1 & Hres1).
  destruct (IH _ Hts Hw1 Hid1 Hnq1) as [Ho2 Hres2]. cbn zeta in *.
  split; congruence.
Qed.

Lemma run_works_drains works n now w :
  Forall (works_from n now) works →
  world_inv w → pending_inv w → n = length (_workers w) →
  (∀ a tk, a ∈ the_queue w → objs w !! a = Some tk →
           Task.is_ready now tk = true) →
  length works = length (the_queue w) →
  let w' := run_turns works w in
  the_queue w' = []
  ∧ ∀ a tk, a ∈ the_queue w → objs w !! a = Some tk → executed tk a w'.
Proof.
  revert w. induction works as [|t works IH];
    intros w Hts Hw Hpend Hn Hready Hlen.
  { cbn in *. destruct (the_queue w) as [|a q] eqn:Eq; [|done].
    split; [done|]. intros a tk Ha. by apply elem_of_nil in Ha. }
  apply Forall_cons in Hts as [Ht Hts]. cbn [run_turns].
  destruct t as [| | |i t_now t0 t1]; try done. destruct Ht as [Hi Hnow].
  pose proof (run_world_inv (turn_ops (Works i t_now t0 t1) w) w Hw) as Hw1.
  pose proof (turn_pending (Works i t_now t0 t1) w Hw Hpend) as Hpend1.
  pose proof (turn_workers_length (Works i t_now t0 t1) w) as Hwl1.
  revert Hw1 Hpend1 Hwl1. rewrite turn_ops_works. intros Hw1 Hpend1 Hwl1.
  pose proof Hw as (Hq & _ & Hr & Hk).
  destruct (get_next_task_ready t_now w Hq) as (b & w0 & E & HP).
  { intros Eq. rewrite Eq in Hlen. done. }
  { intros a Ha. destruct (Hk a Ha) as (tk & Htk & _). exists tk.
    split; [done|]. eapply is_ready_mono; [|done]. by eapply Hready. }
  pose proof (get_next_task_workers t_now w) as Hws0.
  pose proof (get_next_task_tasks t_now w) as Hts0.
  rewrite E in Hws0, Hts0. cbn [snd] in Hws0, Hts0.
  destruct (get_next_task_ok _ _ _ _ Hq E) as (Ho & _ & _).
  assert (_worker_loop_turn i t_now t0 t1 w
          = (execute_task i b t0 t1 w0).2) as Eturn.
  { unfold _worker_loop_turn. by rewrite E. }
  rewrite Eturn in *.
  destruct Hpend as [Hnd Hp]. rewrite HP in Hnd.
  apply NoDup_cons in Hnd as [Hnb Hnd0].
  assert (b ∈ the_queue w) as Hb by (rewrite HP; by left).
  destruct (Hk b Hb) as (tkb & Htkb & Hregb).
  assert (∀ a, a ≠ b →
               objs (execute_task i b t0 t1 w0).2 !! a = objs w !! a) as Hother.
  { intros a Hne. rewrite (execute_task_other _ _ _ _ _ tkb);
      [by rewrite Ho|by rewrite Ho|by rewrite Hts0|done]. }
  destruct (IH (execute_task i b t0 t1 w0).2) as [Hnil Hdone]; try done.
  { congruence. }
  { intros a tk Ha Htk. rewrite execute_task_queue in Ha.
    rewrite Hother in Htk by (intros ->; done).
    eapply Hready; [|done]. rewrite HP. by right. }
  { rewrite execute_task_queue. apply Permutation_length in HP.
    cbn in HP, Hlen. lia. }
  cbn zeta in *. split; [done|].
  intros a tk Ha Htk. rewrite HP in Ha. apply elem_of_cons in Ha as [->|Ha].
  - rewrite Htkb in Htk. injection Htk as <-.
    destruct (lookup_lt_is_Some_2 (_workers w0) i) as [self Hself];
      [rewrite Hws0; lia|].
    pose proof (execute_task_outcome i b t0 t1 w0 self tkb Hself) as Hex.
    rewrite Ho in Hex. specialize (Hex Htkb).
    destruct (run_works_other works n now (execute_task i b t0 t1 w0).2
                (Task.task_id tkb) b Hts Hw1) as [Ho2 Hres2].
    { by rewrite execute_task_tasks, Hts0. }
    { by rewrite execute_task_queue. }
    cbn zeta in *. unfold executed, get_task_result in *.
    rewrite Ho2, Hres2. exact Hex.
  - apply Hdone; [by rewrite execute_task_queue|].
    rewrite Hother; [done|]. by intros ->.
Qed.

Lemma run_turns_workers_length ts w :
  length (_workers (run_turns ts w)) = length (_workers w).
Proof.
  revert w. induction ts as [|t ts IH]; intros w; [done|].
  cbn [run_turns]. by rewrite IH, turn_workers_length.
Qed.

(** X25 ([_worker_loop], [get_next_task], [execute_task], [Task.execute]):
    in a history made of submissions, cancellations, retries and worker
    turns, when every queued task is due, as many turns of existing workers
    as there are queued tasks empty the queue and run each of these tasks
    once: a task whose function returns a value is COMPLETED and that value
    is in its stored result, and a task whose function raises an
    [Exception] is FAILED with the message in its stored result. *)
Theorem worker_loop_drains_the_queue :
  ∀ mq ws ts now works,
    let w := run_turns ts (new_world mq ws) in
    let w' := run_turns works w in
    (∀ a tk s, a ∈ the_queue w → objs w !! a = Some tk →
               Task.scheduled_at tk = Some s → s ≤ now) →
    Forall (works_from (length ws) now) works →
    length works = length (the_queue w) →
    the_queue w' = []
    ∧ ∀ a tk, a ∈ the_queue w → objs w !! a = Some tk → executed tk a w'.
Proof.
  intros mq ws ts now works w w' Hdue Hworks Hlen.
  pose proof (run_turns_inv ts _ (new_world_inv mq ws)) as Hw. fold w in Hw.
  assert (pending_inv w) as Hpend.
  { apply run_turns_pending; [apply new_world_inv|].
    split; [apply NoDup_nil_2|]. intros b Hb. cbn in Hb.
    by apply elem_of_nil in Hb. }
  assert (length (_workers w) = length ws) as Hwl.
  { unfold w. by rewrite run_turns_workers_length. }
  apply (run_works_drains works (length ws) now w); try done.
  intros a tk Ha Htk. apply is_ready_true.
  destruct Hpend as [_ Hp]. destruct (Hp a Ha) as (tk' & Htk' & Hst).
  rewrite Htk in Htk'. injection Htk' as <-. split; [done|].
  intros s Hs. by eapply Hdue.
Qed.

Lemma worker_loop_drains_the_queue_witness :
  let ts := [Submits 1 "a" (Function returns_7) [] NORMAL None 3 None None ∅;
             Submits 2 "b" (Function always_fails) [] HIGH None 3 None None ∅] in
  let works := [Works 0 5 5 6; Works 0 7 7 8] in
  let w := run_turns ts (new_world 10 one_worker) in
  let w' := run_turns works w in
  the_queue w = [1; 0]%nat
  ∧ the_queue w' = []
  ∧ executed (new_task 1 "a" (Function returns_7) [] NORMAL None 3 None None ∅)
      0%nat w'
  ∧ get_task_status "a" w' = Some COMPLETED
  ∧ get_task_status "b" w' = Some FAILED.
Proof.
  intros ts works w w'.
  assert (the_queue w = [1; 0]%nat) as Hq by by vm_compute.
  destruct (worker_loop_drains_the_queue 10 one_worker ts 5 works)
    as [H1 H2].
  - intros a tk s Ha. fold w in Ha. rewrite Hq in Ha.
    apply elem_of_cons in Ha as [->|Ha];
      [|apply elem_of_cons in Ha as [->|Ha]; [|by apply elem_of_nil in Ha]];
      intros Htk; vm_compute in Htk; injection Htk as <-;
      intros [= <-]; lia.
  - repeat constructor; cbn; lia.
  - by vm_compute.
  - split_and!; [done|done| |by vm_compute..].
    apply H2; [|by vm_compute]. fold w. rewrite Hq. by right; left.
Defined.
